(** * webcrack deobfuscation pipeline: targets, Abba transforms, runner

    A shallow embedding of the deobfuscation core of webcrack
    (packages/webcrack/src/deobfuscate) and the properties its
    specification states about it.

    Conventions.
    - A syntax tree is a [node]: a kind (Babel's [type] together with the
      scalar attributes of the node) and the child nodes in the order of
      Babel's VISITOR_KEYS.  A [null] child is the node [Null].
    - Numbers that the transforms compute with (rotation counts, proxy
      offsets, indices) are integer valued: a numeric literal carries an
      [N], the result of [parseInt] is an [option Z] ([None] is NaN).
      Fractional literals are outside the model.
    - Strings are sequences of 8-bit characters.
    - Handlers are functions of the node at the visited path, of what the
      handler reads through [path.scope], and of the state the visitor
      closes over; they return what they did to the tree together with
      the new state.  [this.changes] is threaded explicitly. *)

From Stdlib Require Import ZArith NArith QArith Lia List Ascii String Bool.
From stdpp Require Import base option list strings gmap.
Import ListNotations.

#[local] Open Scope string_scope.
#[local] Open Scope list_scope.
#[local] Open Scope nat_scope.

(** ** Syntax trees *)

Module AST.

(** The node kinds the transforms inspect or build.  Scalar attributes
    live in the kind, child nodes in [children]:
    - [KFunctionExpression params], [KArrowFunctionExpression params],
      children [[body]]; parameters are identifier names;
    - [KFunctionDeclaration params], children [[id; body]];
    - [KCallExpression], [KNewExpression]: children [callee :: arguments];
    - [KMemberExpression computed]: children [[object; property]];
    - [KAssignmentExpression op], [KBinaryExpression op]: [[left; right]];
    - [KUnaryExpression op], [KUpdateExpression op prefix],
      [KSpreadElement], [KReturnStatement], [KExpressionStatement]:
      one child;
    - [KConditionalExpression]: [[test; consequent; alternate]];
    - [KObjectProperty computed]: [[key; value]];
    - [KVariableDeclarator]: [[id; init]] with [init = Null] when absent;
    - [KWhileStatement]: [[test; body]];
    - [KArrayExpression], [KObjectExpression], [KVariableDeclaration],
      [KBlockStatement], [KProgram], [KArrayPattern]: a list of children.
    [extra] on a literal records whether the parser's formatting hint
    ([node.extra], the raw source text) is still attached. *)
Inductive kind : Type :=
  | KNull
  | KIdentifier (name : string)
  | KStringLiteral (value : string) (extra : bool)
  | KNumericLiteral (value : N) (extra : bool)
  | KBooleanLiteral (value : bool)
  | KThisExpression
  | KArrayExpression
  | KObjectExpression
  | KObjectProperty (computed : bool)
  | KSpreadElement
  | KFunctionExpression (params : list string)
  | KArrowFunctionExpression (params : list string)
  | KCallExpression
  | KNewExpression
  | KMemberExpression (computed : bool)
  | KAssignmentExpression (operator : string)
  | KBinaryExpression (operator : string)
  | KUnaryExpression (operator : string)
  | KUpdateExpression (operator : string) (prefix : bool)
  | KConditionalExpression
  | KExpressionStatement
  | KVariableDeclaration
  | KVariableDeclarator
  | KFunctionDeclaration (params : list string)
  | KReturnStatement
  | KWhileStatement
  | KBlockStatement
  | KEmptyStatement
  | KProgram
  | KArrayPattern.

#[warnings="-register-all"]
Inductive node : Type :=
  | Node (type : kind) (children : list node).

Definition type_of (n : node) : kind := let 'Node k _ := n in k.
Definition children_of (n : node) : list node := let 'Node _ cs := n in cs.

Abbreviation Null := (Node KNull []).
Abbreviation Identifier name := (Node (KIdentifier name) []).
Abbreviation StringLiteral value extra := (Node (KStringLiteral value extra) []).
Abbreviation NumericLiteral value extra := (Node (KNumericLiteral value extra) []).
Abbreviation BooleanLiteral value := (Node (KBooleanLiteral value) []).
Abbreviation ThisExpression := (Node KThisExpression []).
Abbreviation ArrayExpression elements := (Node KArrayExpression elements).
Abbreviation ObjectExpression properties := (Node KObjectExpression properties).
Abbreviation ObjectProperty computed key value :=
  (Node (KObjectProperty computed) [key; value]).
Abbreviation SpreadElement argument := (Node KSpreadElement [argument]).
Abbreviation BlockStatement body := (Node KBlockStatement body).
Abbreviation FunctionExpression params body :=
  (Node (KFunctionExpression params) [body]).
Abbreviation ArrowFunctionExpression params body :=
  (Node (KArrowFunctionExpression params) [body]).
Abbreviation CallExpression callee arguments :=
  (Node KCallExpression (callee :: arguments)).
Abbreviation NewExpression callee arguments :=
  (Node KNewExpression (callee :: arguments)).
Abbreviation MemberExpression object property computed :=
  (Node (KMemberExpression computed) [object; property]).
Abbreviation AssignmentExpression operator left right :=
  (Node (KAssignmentExpression operator) [left; right]).
Abbreviation BinaryExpression operator left right :=
  (Node (KBinaryExpression operator) [left; right]).
Abbreviation UnaryExpression operator argument :=
  (Node (KUnaryExpression operator) [argument]).
Abbreviation UpdateExpression operator prefix argument :=
  (Node (KUpdateExpression operator prefix) [argument]).
Abbreviation ConditionalExpression test consequent alternate :=
  (Node KConditionalExpression [test; consequent; alternate]).
Abbreviation ExpressionStatement expression :=
  (Node KExpressionStatement [expression]).
Abbreviation VariableDeclaration declarations :=
  (Node KVariableDeclaration declarations).
Abbreviation VariableDeclarator id init := (Node KVariableDeclarator [id; init]).
Abbreviation FunctionDeclaration id params body :=
  (Node (KFunctionDeclaration params) [id; body]).
Abbreviation ReturnStatement argument := (Node KReturnStatement [argument]).
Abbreviation WhileStatement test body := (Node KWhileStatement [test; body]).
Abbreviation EmptyStatement := (Node KEmptyStatement []).
Abbreviation Program body := (Node KProgram body).
Abbreviation ArrayPattern elements := (Node KArrayPattern elements).

(** The names a declarator's [id] binds: the identifier itself, or the
    identifiers of an array pattern, holes and nested patterns included
    ([getBindingIdentifiers] of the tree library on these kinds). *)
Fixpoint pattern_names (p : node) : list string :=
  match p with
  | Node (KIdentifier name) _ => [name]
  | Node KArrayPattern elements => flat_map pattern_names elements
  | _ => []
  end.

(** A literal the way [t.stringLiteral(s)] builds it: no [extra]. *)
Definition t_stringLiteral (s : string) : node := StringLiteral s false.
Definition t_identifier (s : string) : node := Identifier s.

(** [t.isFunctionExpression], [t.isIdentifier], ... as boolean tests. *)
Definition isStringLiteral (n : node) : bool :=
  match n with StringLiteral _ _ => true | _ => false end.

(** An optional value is there. *)
Definition present {A : Type} (o : option A) : bool :=
  match o with
  | Some _ => true
  | None => false
  end.

(** [needle] occurs in [hay] ([String.prototype.includes]). *)
Fixpoint includes (needle hay : string) : bool :=
  String.prefix needle hay
  || match hay with
     | EmptyString => false
     | String _ rest => includes needle rest
     end.

(** [hay.startsWith(needle)]. *)
Definition startsWith (hay needle : string) : bool := String.prefix needle hay.

(** The strings [JSON.stringify] prints for the attributes of one node:
    names, literal values, operators, parameter names.  (Type and field
    names are printed too; none of them contains a word a transform
    searches for.) *)
Definition kind_strings (k : kind) : list string :=
  match k with
  | KIdentifier name => [name]
  | KStringLiteral value _ => [value]
  | KFunctionExpression params | KArrowFunctionExpression params
  | KFunctionDeclaration params => params
  | KAssignmentExpression op | KBinaryExpression op | KUnaryExpression op
  | KUpdateExpression op _ => [op]
  | _ => []
  end.

(** [JSON.stringify(n).includes(word)] for a word made of letters. *)
Fixpoint json_includes (word : string) (n : node) : bool :=
  let 'Node k cs := n in
  existsb (includes word) (kind_strings k)
  || (fix any (l : list node) : bool :=
        match l with
        | [] => false
        | c :: l' => json_includes word c || any l'
        end) cs.

(** All proper descendants of a node in the order [path.traverse] enters
    them: depth first, left to right. *)
Fixpoint descendants (n : node) : list node :=
  let 'Node _ cs := n in
  (fix go (l : list node) : list node :=
     match l with
     | [] => []
     | c :: l' => c :: descendants c ++ go l'
     end) cs.

End AST.
Import AST.

(** The mutation counter every transform reports ([TransformState]). *)
Record TransformState : Type := { changes : nat }.

(** ** Abba string-array rotator (abba-string-array-rotator) *)

Module Rotator.

(** What one run of the [CallExpression] handler did to the tree:
    [array_elements = Some (a, l)] says that the element list of the array
    expression that initialises the binding [a] is [l] once the handler
    returns (the handler mutates [init.elements] in place); [removed]
    says that [path.remove()] was called on the visited call. *)
Record effect : Type := {
  array_elements : option (string * list node);
  removed : bool
}.

Definition untouched : effect :=
  {| array_elements := None; removed := false |}.

(** Step 4 of the handler: some statement of the IIFE body is an
    expression statement whose expression is a call with at least one
    argument, the first one an update expression with operator [++] and
    [prefix] set. *)
Definition passes_prefix_increment (stmt : node) : bool :=
  match stmt with
  | ExpressionStatement (CallExpression _ (Node (KUpdateExpression op pre) _ :: _)) =>
      String.eqb op "++" && pre
  | _ => false
  end.

Definition detect_increment (bodyStatements : list node) : bool :=
  existsb passes_prefix_increment bodyStatements.

(** The increment as the specification words it, for comparison: some
    call inside the IIFE, at whatever depth of the body, passes a prefix
    [++] update expression as its first argument. *)
Definition call_passes_prefix_increment (n : node) : bool :=
  match n with
  | CallExpression _ (Node (KUpdateExpression op pre) _ :: _) =>
      String.eqb op "++" && pre
  | _ => false
  end.

Definition spec_increment (bodyStatements : list node) : bool :=
  existsb call_passes_prefix_increment
    (descendants (BlockStatement bodyStatements)).

(** One turn of the rotation loop:
    [const first = elements.shift(); if (first !== undefined) elements.push(first)].
    An element of an array expression is a node or [null], never
    [undefined], so a shifted element is always pushed back. *)
Definition shift_push (elements : list node) : list node :=
  match elements with
  | [] => []
  | firstElement :: rest => rest ++ [firstElement]
  end.

(** The [CallExpression] handler.  [getBinding] is [path.scope.getBinding]
    followed by [.path.node]; [c] is [this.changes]. *)
Definition visit_CallExpression (getBinding : string -> option node)
    (n : node) (c : nat) : effect * nat :=
  match n with
  | CallExpression (FunctionExpression _ (BlockStatement bodyStatements))
      [Identifier arrayName; NumericLiteral value _] =>
      let functionBody := BlockStatement bodyStatements in
      if negb (json_includes "push" functionBody)
         || negb (json_includes "shift" functionBody)
      then (untouched, c)
      else
        match getBinding arrayName with
        | Some (VariableDeclarator _ (ArrayExpression elements)) =>
            let rotationAmount :=
              if detect_increment bodyStatements then (value + 1)%N else value in
            match elements with
            | [] => (untouched, c)
            | _ :: _ =>
                let effectiveRotation :=
                  (rotationAmount mod N.of_nat (length elements))%N in
                ({| array_elements :=
                      Some (arrayName,
                            Nat.iter (N.to_nat effectiveRotation) shift_push elements);
                    removed := true |},
                 S c)
            end
        | _ => (untouched, c)
        end
  | _ => (untouched, c)
  end.

(** Scenario 3 of the specification:
    [var a = ["one","two","three","four"];
     (function(e,f){var g=function(h){while(--h){e["push"](e["shift"]());}};g(++f);}(a,2));] *)
Definition scenario_helper : node :=
  VariableDeclaration
    [ VariableDeclarator (Identifier "g")
        (FunctionExpression ["h"]
           (BlockStatement
              [ WhileStatement
                  (UpdateExpression "--" true (Identifier "h"))
                  (BlockStatement
                     [ ExpressionStatement
                         (CallExpression
                            (MemberExpression (Identifier "e")
                               (StringLiteral "push" true) true)
                            [ CallExpression
                                (MemberExpression (Identifier "e")
                                   (StringLiteral "shift" true) true)
                                [] ]) ]) ])) ].

Definition scenario_body : list node :=
  [ scenario_helper;
    ExpressionStatement
      (CallExpression (Identifier "g")
         [ UpdateExpression "++" true (Identifier "f") ]) ].

Definition scenario_iife : node :=
  CallExpression (FunctionExpression ["e"; "f"] (BlockStatement scenario_body))
    [ Identifier "a"; NumericLiteral 2 true ].

Definition scenario_array (elements : list node) : node :=
  VariableDeclarator (Identifier "a") (ArrayExpression elements).

(** The scope of a program whose only binding is [var a = [elements]]. *)
Definition scenario_scope (elements : list node) (name : string) : option node :=
  if String.eqb name "a" then Some (scenario_array elements) else None.

(** The same IIFE with the inner call in a return statement:
    [(function(e,f){var g=function(h){...};return g(++f);}(a,2));] *)
Definition returning_body : list node :=
  [ scenario_helper;
    ReturnStatement
      (CallExpression (Identifier "g")
         [ UpdateExpression "++" true (Identifier "f") ]) ].

Definition returning_iife : node :=
  CallExpression (FunctionExpression ["e"; "f"] (BlockStatement returning_body))
    [ Identifier "a"; NumericLiteral 2 true ].

Definition four_strings : list node :=
  [ StringLiteral "one" true; StringLiteral "two" true;
    StringLiteral "three" true; StringLiteral "four" true ].

End Rotator.

(** ** Abba proxy inliner (abba-proxy-inliner) *)

Module ProxyInliner.

(** [parseInt(string, radix)] for radix 10 and 16: leading white space
    (tab, line feed, vertical tab, form feed, carriage return, space) is
    skipped, a sign is read, for radix 16 a [0x]/[0X] prefix is dropped,
    then the longest run of digits of the radix is read; no digit gives
    NaN ([None]). *)
Definition is_white_space (a : ascii) : bool :=
  let n := nat_of_ascii a in
  (n =? 9) || (n =? 10) || (n =? 11) || (n =? 12) || (n =? 13) || (n =? 32).

Fixpoint trim_start (s : string) : string :=
  match s with
  | String a rest => if is_white_space a then trim_start rest else s
  | EmptyString => s
  end.

Definition digit_value (radix : N) (a : ascii) : option N :=
  (let n := N_of_ascii a in
   let d :=
     if (48 <=? n) && (n <=? 57) then Some (n - 48)
     else if (97 <=? n) && (n <=? 122) then Some (n - 87)
     else if (65 <=? n) && (n <=? 90) then Some (n - 55)
     else None in
   match d with
   | Some v => if v <? radix then Some v else None
   | None => None
   end)%N.

(** Value of the longest prefix of digits; [acc] is [None] until a digit
    has been read. *)
Fixpoint parse_digits (radix : N) (s : string) (acc : option N) : option N :=
  match s with
  | EmptyString => acc
  | String a rest =>
      match digit_value radix a with
      | Some d => parse_digits radix rest (Some (default 0 acc * radix + d))%N
      | None => acc
      end
  end.

Definition parseInt (input : string) (radix : N) : option Z :=
  let s := trim_start input in
  let '(sign, s) :=
    match s with
    | String "-" rest => ((-1)%Z, rest)
    | String "+" rest => (1%Z, rest)
    | _ => (1%Z, s)
    end in
  let s :=
    if (radix =? 16)%N then
      match s with
      | String "0" (String "x" rest) | String "0" (String "X" rest) => rest
      | _ => s
      end
    else s in
  match parse_digits radix s None with
  | Some m => Some (sign * Z.of_N m)%Z
  | None => None
  end.

(** A JavaScript string is truthy when it is not empty. *)
Definition truthy (s : string) : bool := negb (String.eqb s "").

Section Visitor.

(** [NodePath]: the place of a node in the tree. *)
Context {Path : Type}.

(** The variables the visitor closes over. *)
Record state : Type := {
  proxyName : string;
  proxyPath : option Path;
  arrayName : string;
  offset : N;
  stringArray : list string
}.

Definition initial : state :=
  {| proxyName := ""; proxyPath := None; arrayName := ""; offset := 0%N;
     stringArray := [] |}.

(** The two handlers of the traversal of the function body inside
    [analyzeProxyFunction]. *)
Definition array_access (n : node) : option string :=
  match n with
  | VariableDeclarator _ (Node (KMemberExpression true) (Identifier name :: _)) =>
      Some name
  | _ => None
  end.

Definition offset_calculation (n : node) : option N :=
  match n with
  | Node (KAssignmentExpression _)
      [_; Node (KBinaryExpression op) [_; NumericLiteral value _]] =>
      if String.eqb op "-" then Some value else None
  | _ => None
  end.

(** [analyzeProxyFunction]: every match of the inner traversal overwrites
    the previous one, so the last match in traversal order is kept.
    Returns whether the function is a proxy, and the captured state. *)
Definition analyzeProxyFunction (funcName : string) (params : list string)
    (body : node) (getBinding : string -> option node) (st : state)
    : bool * state :=
  if (length params <? 1) || (2 <? length params) then (false, st)
  else
    let detectedArrayName := default "" (last (omap array_access (descendants body))) in
    let detectedOffset := default 0%N (last (omap offset_calculation (descendants body))) in
    if negb (truthy detectedArrayName) then (false, st)
    else
      match getBinding detectedArrayName with
      | Some (VariableDeclarator _ (ArrayExpression elements)) =>
          let extractedStrings :=
            map (fun el => match el with
                           | StringLiteral value _ => value
                           | _ => ""
                           end) elements in
          (true,
           {| proxyName := funcName; proxyPath := proxyPath st;
              arrayName := detectedArrayName; offset := detectedOffset;
              stringArray := extractedStrings |})
      | _ => (false, st)
      end.

Definition set_proxyPath (path : Path) (st : state) : state :=
  {| proxyName := proxyName st; proxyPath := Some path;
     arrayName := arrayName st; offset := offset st;
     stringArray := stringArray st |}.

(** Phase 1a: the [FunctionDeclaration] handler. *)
Definition visit_FunctionDeclaration (path : Path) (n : node)
    (getBinding : string -> option node) (st : state) : state :=
  if truthy (proxyName st) then st
  else
    match n with
    | FunctionDeclaration (Identifier funcName) params body =>
        let '(found, st') :=
          analyzeProxyFunction funcName params body getBinding st in
        if found then set_proxyPath path st' else st'
    | _ => st
    end.

(** Phase 1b: the [VariableDeclarator] handler. *)
Definition visit_VariableDeclarator (path : Path) (n : node)
    (getBinding : string -> option node) (st : state) : state :=
  if truthy (proxyName st) then st
  else
    match n with
    | VariableDeclarator (Identifier funcName) (FunctionExpression params body) =>
        let '(found, st') :=
          analyzeProxyFunction funcName params body getBinding st in
        if found then set_proxyPath path st' else st'
    | _ => st
    end.

(** Phase 2: the [CallExpression] exit handler.  Returns the node
    [path.replaceWith] was called with, if it was called, and the new
    [this.changes]. *)
Definition exit_CallExpression (n : node) (st : state) (c : nat)
    : option node * nat :=
  if negb (truthy (proxyName st)) || (length (stringArray st) =? 0)
  then (None, c)
  else
    match n with
    | CallExpression (Identifier callee) (firstArg :: _) =>
        if negb (String.eqb callee (proxyName st)) then (None, c)
        else
          let index : option (option Z) :=
            match firstArg with
            | StringLiteral val _ =>
                if startsWith val "0x" || startsWith val "0X"
                then Some (parseInt val 16)
                else Some (parseInt val 10)
            | NumericLiteral value _ => Some (Some (Z.of_N value))
            | _ => None
            end in
          match index with
          | Some (Some index) =>
              let finalIndex := (index - Z.of_N (offset st))%Z in
              if (finalIndex <? 0)%Z
                 || (Z.of_nat (length (stringArray st)) <=? finalIndex)%Z
              then (None, c)
              else
                let replacementString :=
                  nth (Z.to_nat finalIndex) (stringArray st) "" in
                (Some (t_stringLiteral replacementString), S c)
          | _ => (None, c)
          end
    | _ => (None, c)
    end.

(** Phase 3: the [Program] exit handler.  Returns the path
    [remove()] was called on, if any. *)
Definition exit_Program (st : state) (c : nat) : option Path * nat :=
  match proxyPath st with
  | Some path => if truthy (proxyName st) then (Some path, S c) else (None, c)
  | None => (None, c)
  end.

(** The visitor as a machine driven by the traversal: the events are the
    handler calls, in the order the traversal makes them; the actions are
    the edits a handler asks for. *)
Inductive event : Type :=
  | EnterFunctionDeclaration (path : Path) (n : node)
      (getBinding : string -> option node)
  | EnterVariableDeclarator (path : Path) (n : node)
      (getBinding : string -> option node)
  | ExitCallExpression (path : Path) (n : node)
  | ExitProgram.

Inductive action : Type :=
  | ReplaceWith (path : Path) (replacement : node)
  | Remove (path : Path).

Definition step (st : state) (c : nat) (e : event)
    : state * nat * list action :=
  match e with
  | EnterFunctionDeclaration path n getBinding =>
      (visit_FunctionDeclaration path n getBinding st, c, [])
  | EnterVariableDeclarator path n getBinding =>
      (visit_VariableDeclarator path n getBinding st, c, [])
  | ExitCallExpression path n =>
      match exit_CallExpression n st c with
      | (Some replacement, c') => (st, c', [ReplaceWith path replacement])
      | (None, c') => (st, c', [])
      end
  | ExitProgram =>
      match exit_Program st c with
      | (Some path, c') => (st, c', [Remove path])
      | (None, c') => (st, c', [])
      end
  end.

Fixpoint run (st : state) (c : nat) (events : list event)
    : state * nat * list action :=
  match events with
  | [] => (st, c, [])
  | e :: rest =>
      let '(st1, c1, acts1) := step st c e in
      let '(st2, c2, acts2) := run st1 c1 rest in
      (st2, c2, acts1 ++ acts2)
  end.

(** The edits a visitor whose detection is [st] can ask for: a call
    replaced by what the exit handler computes from [st], or the removal
    of the one declaration [st] points to. *)
Definition from_detection (st : state) (a : action) : Prop :=
  match a with
  | ReplaceWith _ replacement =>
      exists call c0,
        exit_CallExpression call st c0 = (Some replacement, S c0)
  | Remove path => proxyPath st = Some path
  end.

End Visitor.

Arguments state : clear implicits.
Arguments event : clear implicits.
Arguments action : clear implicits.

(** Scenario 4 of the specification:
    [function b(d){d=d-0x10;return a[d];}] with [a = ["X","Y","Z"]]. *)
Definition scenario_state : state nat :=
  {| proxyName := "b"; proxyPath := Some 1; arrayName := "a";
     offset := 16%N; stringArray := ["X"; "Y"; "Z"] |}.

(** A second function of the proxy shape, [function c(d){d=d-0x0;var f=a[d];return f;}],
    and the scope it is declared in. *)
Definition second_candidate : node :=
  FunctionDeclaration (Identifier "c") ["d"]
    (BlockStatement
       [ ExpressionStatement
           (AssignmentExpression "=" (Identifier "d")
              (BinaryExpression "-" (Identifier "d") (NumericLiteral 0 true)));
         VariableDeclaration
           [ VariableDeclarator (Identifier "f")
               (MemberExpression (Identifier "a") (Identifier "d") true) ];
         ReturnStatement (Identifier "f") ]).

Definition scenario_scope (name : string) : option node :=
  if String.eqb name "a"
  then Some (VariableDeclarator (Identifier "a")
               (ArrayExpression [ StringLiteral "X" true; StringLiteral "Y" true;
                                  StringLiteral "Z" true ]))
  else None.

Definition scenario_events : list (event nat) :=
  [ EnterFunctionDeclaration 2 second_candidate scenario_scope;
    ExitCallExpression 3 (CallExpression (Identifier "b") [NumericLiteral 17 true]);
    ExitCallExpression 4 (CallExpression (Identifier "c") [NumericLiteral 1 true]);
    ExitProgram ].

End ProxyInliner.

(** ** Abba dead-code removal (abba-dead-code-removal) *)

Module DeadCode.

(** A [NodePath] as the pass reads it: the node (the pass only looks at its
    type) and the parent path. *)
#[warnings="-register-all"]
Inductive NodePath : Type :=
  | mkPath (node : node) (parentPath : option NodePath).

Definition path_node (p : NodePath) : node := let 'mkPath n _ := p in n.

Definition isProgram (p : NodePath) : bool :=
  match path_node p with
  | Program _ => true
  | _ => false
  end.

(** [path.findParent(callback)]: the nearest proper ancestor the callback
    accepts. *)
Fixpoint findParent (callback : NodePath -> bool) (p : NodePath)
    : option NodePath :=
  match p with
  | mkPath _ None => None
  | mkPath _ (Some parent) =>
      if callback parent then Some parent else findParent callback parent
  end.

(** [isValidReference]: the path still reaches the [Program] node. *)
Definition isValidReference (refPath : NodePath) : bool :=
  match findParent isProgram refPath with
  | Some _ => true
  | None => false
  end.

(** [scope.bindings] is an object keyed by name; [for (const name in
    bindings)] enumerates it in the order the names were registered, and
    does not visit a property deleted before the loop reaches it.  A list
    of pairs, in that order, stands for the object. *)
Definition binding_of {B : Type} (name : string)
    (bindings : list (string * B)) : option B :=
  match find (fun nb => String.eqb nb.1 name) bindings with
  | Some nb => Some nb.2
  | None => None
  end.

(** [scope.removeBinding(name)]: [delete this.bindings[name]]. *)
Definition removeBinding {B : Type} (name : string)
    (bindings : list (string * B)) : list (string * B) :=
  List.filter (fun nb => negb (String.eqb nb.1 name)) bindings.

(** [getBindingIdentifiers(node)] of the tree library, as far as the scope
    that holds the declaration goes: a declarator binds the names of its
    [id], an identifier or an array pattern; a function declaration binds
    its name there (its parameters are bindings of the function's own
    scope). *)
Definition getBindingIdentifiers (n : node) : list string :=
  match n with
  | Node KVariableDeclarator (id :: _) => pattern_names id
  | Node (KFunctionDeclaration _) (id :: _) => pattern_names id
  | _ => []
  end.

(** What [path.remove()] does to the scope before it takes the node out
    of the tree ([_removeFromScope]): every name the node binds is
    deleted from [scope.bindings]. *)
Definition removeFromScope {B : Type} (n : node)
    (bindings : list (string * B)) : list (string * B) :=
  fold_left (fun bs name => removeBinding name bs)
    (getBindingIdentifiers n) bindings.

(** A scope binding: the declaring path and the two lists of sites the
    scope cache holds for it. *)
Record Binding : Type := {
  path : NodePath;
  referencePaths : list NodePath;
  constantViolations : list NodePath
}.

Definition validRefs (b : Binding) : list NodePath :=
  List.filter isValidReference (referencePaths b).

Definition validConstantViolations (b : Binding) : list NodePath :=
  List.filter isValidReference (constantViolations b).

Section ProcessScope.

(** [initPath.isPure()], the purity test of the tree library, on the
    initializer node. *)
Variable isPure : node -> bool.

(** The body of the loop of [processScope] for one binding: does it call
    [bindingPath.remove()]? *)
Definition removes (binding : Binding) : bool :=
  let totalValidRefs :=
    length (validRefs binding) + length (validConstantViolations binding) in
  if 0 <? totalValidRefs then false
  else
    match path_node (path binding) with
    | Node (KFunctionDeclaration _) _ => true
    | VariableDeclarator _ init =>
        match init with
        | Null => true
        | _ => isPure init
        end
    | _ => false
    end.

(** The state [processScope] works on: [state.changes], [removedBindings]
    and its own [changed]; with them [scope.bindings] as the removals
    leave it, and the paths [remove()] was called on. *)
Record pass_state : Type := {
  state_changes : nat;
  removedBindings : list string;
  changed : bool;
  scope_bindings : list (string * Binding);
  removedPaths : list NodePath
}.

(** The body of the loop for the name the enumeration has reached. *)
Definition process_binding (name : string) (s : pass_state) : pass_state :=
  match binding_of name (scope_bindings s) with
  | None => s
  | Some binding =>
      if removes binding then
        {| state_changes := S (state_changes s);
           removedBindings := removedBindings s ++ [name];
           changed := true;
           scope_bindings :=
             removeFromScope (path_node (path binding)) (scope_bindings s);
           removedPaths := removedPaths s ++ [path binding] |}
      else s
  end.

(** [processScope(scope, state, removedBindings, debugLog)]: the loop over
    the names of [scope.bindings].  The result holds the value of
    [changed] together with the updated counter and list. *)
Definition processScope (bindings : list (string * Binding))
    (changes0 : nat) (removed0 : list string) : pass_state :=
  fold_left (fun s name => process_binding name s)
    (map fst bindings)
    {| state_changes := changes0; removedBindings := removed0;
       changed := false; scope_bindings := bindings; removedPaths := [] |}.

End ProcessScope.

(** [t.isExpression] on the node kinds of the model. *)
Definition isExpression (n : node) : bool :=
  match type_of n with
  | KIdentifier _ | KStringLiteral _ _ | KNumericLiteral _ _
  | KBooleanLiteral _ | KThisExpression | KArrayExpression
  | KObjectExpression | KFunctionExpression _ | KArrowFunctionExpression _
  | KCallExpression | KNewExpression | KMemberExpression _
  | KAssignmentExpression _ | KBinaryExpression _ | KUnaryExpression _
  | KUpdateExpression _ _ | KConditionalExpression => true
  | _ => false
  end.

(** [isSafeInitializer] of the visitor variant of the pass: literals,
    functions, identifiers and member expressions are safe, arrays,
    objects, unary, binary and conditional expressions are when their
    parts are, everything else (calls, [new]) is not.  An absent
    initializer ([Null]) is safe. *)
Fixpoint isSafeInitializer (init : node) : bool :=
  match init with
  | Null => true
  | Node (KStringLiteral _ _) _ | Node (KNumericLiteral _ _) _
  | Node (KBooleanLiteral _) _ => true
  | Node (KFunctionExpression _) _ | Node (KArrowFunctionExpression _) _
  | Node (KFunctionDeclaration _) _ => true
  | Node (KIdentifier _) _ => true
  | ArrayExpression elements =>
      forallb (fun el =>
                 match el with
                 | Null => true
                 | _ => isExpression el && isSafeInitializer el
                 end) elements
  | ObjectExpression properties =>
      forallb (fun prop =>
                 match prop with
                 | ObjectProperty _ _ value =>
                     isExpression value && isSafeInitializer value
                 | _ => false
                 end) properties
  | Node (KMemberExpression _) _ => true
  | BinaryExpression _ lhs rhs =>
      (isExpression lhs && isSafeInitializer lhs)
      && (isExpression rhs && isSafeInitializer rhs)
  | UnaryExpression _ argument => isSafeInitializer argument
  | ConditionalExpression test consequent alternate =>
      isSafeInitializer test && isSafeInitializer consequent
      && isSafeInitializer alternate
  | _ => false
  end.

(** A program [var dead = 1; var kept = f(); function g(){}; var ghost = 2;
    var used = 3; used;] in which [ghost] is only mentioned from a node
    that an earlier transform detached from the program. *)
Definition program_path : NodePath := mkPath (Program []) None.

Definition declared (name : string) (init : node) : NodePath :=
  mkPath (VariableDeclarator (Identifier name) init)
    (Some (mkPath (VariableDeclaration []) (Some program_path))).

Definition ghost_reference : NodePath :=
  mkPath (Identifier "ghost")
    (Some (mkPath (CallExpression (Identifier "h") []) None)).

Definition live_reference : NodePath :=
  mkPath (Identifier "used")
    (Some (mkPath (ExpressionStatement (Identifier "used")) (Some program_path))).

Definition scenario_bindings : list (string * Binding) :=
  [ ("dead", {| path := declared "dead" (NumericLiteral 1 true);
                referencePaths := []; constantViolations := [] |});
    ("kept", {| path := declared "kept" (CallExpression (Identifier "f") []);
                referencePaths := []; constantViolations := [] |});
    ("g", {| path := mkPath (FunctionDeclaration (Identifier "g") []
                               (BlockStatement [])) (Some program_path);
             referencePaths := []; constantViolations := [] |});
    ("ghost", {| path := declared "ghost" (NumericLiteral 2 true);
                 referencePaths := [ghost_reference];
                 constantViolations := [] |});
    ("used", {| path := declared "used" (NumericLiteral 3 true);
                referencePaths := [live_reference];
                constantViolations := [] |}) ].

(** The program [var [a, b] = [1, 2]; use(b);]: one declarator binds [a]
    and [b], and [b] is referenced. *)
Definition shared_declarator : node :=
  VariableDeclarator (ArrayPattern [Identifier "a"; Identifier "b"])
    (ArrayExpression [NumericLiteral 1 true; NumericLiteral 2 true]).

Definition shared_use : node :=
  ExpressionStatement (CallExpression (Identifier "use") [Identifier "b"]).

Definition shared_program : node :=
  Program [VariableDeclaration [shared_declarator]; shared_use].

Definition shared_program_path : NodePath := mkPath shared_program None.

Definition shared_declarator_path : NodePath :=
  mkPath shared_declarator
    (Some (mkPath (VariableDeclaration [shared_declarator])
             (Some shared_program_path))).

Definition shared_reference : NodePath :=
  mkPath (Identifier "b")
    (Some (mkPath (CallExpression (Identifier "use") [Identifier "b"])
             (Some (mkPath shared_use (Some shared_program_path))))).

Definition shared_bindings : list (string * Binding) :=
  [ ("a", {| path := shared_declarator_path;
             referencePaths := []; constantViolations := [] |});
    ("b", {| path := shared_declarator_path;
             referencePaths := [shared_reference];
             constantViolations := [] |}) ].

End DeadCode.

(** ** Abba string-array extractor (abba-string-array-extractor) *)

Module Extractor.

(** What [executeInSandbox] (or [runInNewContext]) does with a piece of
    code: it throws or returns a value. *)
Inductive outcome (value : Type) : Type :=
  | Threw
  | Returned (result : value).
Arguments Threw {value}.
Arguments Returned {value} result.

Section Visitor.

(** The JavaScript engine and the code generator are the host's:
    - [value] are the values of the engine, [undefined] one of them;
    - [Host] is what an evaluation can read and change outside the tree:
      the clock behind [Date], the generator behind [Math.random];
    - [asArray v] is the list of items of [v] when [Array.isArray(v)];
    - [String_ v] is [String(v)], [None] when the conversion throws (an
      object without [toString], a [toString] that throws);
    - [generate n] is [generate(n).code];
    - [createSandbox] is the object a call of [createSandbox()] builds:
      the host globals and the browser stand-ins, keyed by name;
    - [executeInSandbox code sandbox h] evaluates [code] with the keys of
      [sandbox] bound to their values, in the host state [h]: it throws
      or returns a value, and leaves a host state. *)
Context {value Host : Type}.
Variable undefined : value.
Variable asArray : value -> option (list value).
Variable String_ : value -> option string.
Variable generate : node -> string.
Variable createSandbox : gmap string value.
Variable executeInSandbox :
  string -> gmap string value -> Host -> outcome value * Host.

Definition isFunctionExpression (n : node) : bool :=
  match type_of n with
  | KFunctionExpression _ => true
  | _ => false
  end.

(** The sandbox one evaluation runs in: a new one from [createSandbox()],
    with [sandbox[varName] = undefined] on top. *)
Definition sandbox_for (varName : string) : gmap string value :=
  <[varName := undefined]> createSandbox.

(** [t.arrayExpression(result.map((item) => t.stringLiteral(String(item))))]:
    [None] when [String] throws on an item. *)
Definition staticArray (items : list value) : option node :=
  match mapM String_ items with
  | Some strings => Some (ArrayExpression (map t_stringLiteral strings))
  | None => None
  end.

(** The [VariableDeclarator] handler (the version that evaluates in the
    sandbox of [createSandbox]): the node after the handler, the new
    [this.changes] and the host state it leaves.  The [try] block either
    assigns [path.node.init] and counts a change, returns early, or is
    left by an exception (of the evaluation, or of [String] on an item),
    in which case the handler only logs. *)
Definition visit_VariableDeclarator (n : node) (c : nat) (h : Host)
    : node * nat * Host :=
  match n with
  | VariableDeclarator (Identifier varName) init =>
      match init with
      | CallExpression callee arguments =>
          if negb (isFunctionExpression callee) then (n, c, h)
          else if negb (existsb isStringLiteral arguments) then (n, c, h)
          else
            let code := generate init in
            let sandbox := sandbox_for varName in
            match executeInSandbox code sandbox h with
            | (Threw, h') => (n, c, h')
            | (Returned result, h') =>
                match asArray result with
                | None => (n, c, h')
                | Some items =>
                    match staticArray items with
                    | None => (n, c, h')
                    | Some array =>
                        (VariableDeclarator (Identifier varName) array, S c, h')
                    end
                end
            end
      | _ => (n, c, h)
      end
  | _ => (n, c, h)
  end.

(** The first version of the handler, which evaluates with
    [runInNewContext(code, context)]: the context is a fixed object of
    globals, the declared name is not bound in it, and the identifier
    need not be one. *)
Variable vmContext : gmap string value.
Variable runInNewContext :
  string -> gmap string value -> Host -> outcome value * Host.

Definition visit_VariableDeclarator_runInNewContext (n : node) (c : nat)
    (h : Host) : node * nat * Host :=
  match n with
  | VariableDeclarator id init =>
      match init with
      | CallExpression callee arguments =>
          if negb (isFunctionExpression callee) then (n, c, h)
          else if negb (existsb isStringLiteral arguments) then (n, c, h)
          else
            match runInNewContext (generate init) vmContext h with
            | (Threw, h') => (n, c, h')
            | (Returned result, h') =>
                match asArray result with
                | None => (n, c, h')
                | Some items =>
                    match staticArray items with
                    | None => (n, c, h')
                    | Some array => (VariableDeclarator id array, S c, h')
                    end
                end
            end
      | _ => (n, c, h)
      end
  | _ => (n, c, h)
  end.

End Visitor.

(** A small engine for examples.  Values are [undefined], strings,
    objects [String] cannot convert ([Object.create(null)]) and arrays of
    strings and such objects; the host state is a clock.  The engine
    knows three pieces of code:
    - the IIFE of scenario 2, which it evaluates to [["alpha"; "beta"]]
      when the declared name is bound to [undefined];
    - an IIFE that returns [[Object.create(null)]];
    - an IIFE that returns an array or [undefined] by the parity of the
      clock, which it advances;
    anything else throws. *)
Inductive toy_value : Type :=
  | VUndefined
  | VString (s : string)
  | VBare
  | VArray (items : list (option string)).

Definition toy_item (i : option string) : toy_value :=
  match i with
  | Some s => VString s
  | None => VBare
  end.

Definition toy_asArray (v : toy_value) : option (list toy_value) :=
  match v with
  | VArray items => Some (map toy_item items)
  | _ => None
  end.

Definition toy_String (v : toy_value) : option string :=
  match v with
  | VUndefined => Some "undefined"
  | VString s => Some s
  | VBare => None
  | VArray items => option_map (String.concat ",") (mapM Datatypes.id items)
  end.

(** [var _0x1 = (function(a,b){return ["alpha","beta"];}(this,"\x42"));] *)
Definition scenario_iife : node :=
  CallExpression
    (FunctionExpression ["a"; "b"]
       (BlockStatement
          [ ReturnStatement
              (ArrayExpression [ StringLiteral "alpha" true;
                                 StringLiteral "beta" true ]) ]))
    [ ThisExpression; StringLiteral "B" true ].

Definition scenario_declarator : node :=
  VariableDeclarator (Identifier "_0x1") scenario_iife.

(** [var _0x2 = (function(a,b){return [Object.create(null)];}(this,"\x42"));] *)
Definition bare_iife : node :=
  CallExpression
    (FunctionExpression ["a"; "b"]
       (BlockStatement
          [ ReturnStatement
              (ArrayExpression
                 [ CallExpression
                     (MemberExpression (Identifier "Object")
                        (Identifier "create") false)
                     [Null] ]) ]))
    [ ThisExpression; StringLiteral "B" true ].

Definition bare_declarator : node :=
  VariableDeclarator (Identifier "_0x2") bare_iife.

(** [var _0x3 = (function(a,b){return Date.now() % 2 ? ["late"] : undefined;}(this,"B"));] *)
Definition clock_iife : node :=
  CallExpression
    (FunctionExpression ["a"; "b"]
       (BlockStatement
          [ ReturnStatement
              (ConditionalExpression
                 (BinaryExpression "%"
                    (CallExpression
                       (MemberExpression (Identifier "Date")
                          (Identifier "now") false) [])
                    (NumericLiteral 2 false))
                 (ArrayExpression [StringLiteral "late" false])
                 (Identifier "undefined")) ]))
    [ ThisExpression; StringLiteral "B" false ].

Definition clock_declarator : node :=
  VariableDeclarator (Identifier "_0x3") clock_iife.

Definition toy_generate (n : node) : string :=
  match n with
  | CallExpression (FunctionExpression _ (BlockStatement [ReturnStatement r])) _ =>
      match r with
      | ArrayExpression (StringLiteral _ _ :: _) => "scenario"
      | ArrayExpression (Node KCallExpression _ :: _) => "bare"
      | Node KConditionalExpression _ => "clock"
      | _ => "other"
      end
  | _ => "other"
  end.

Definition toy_execute (code : string) (sandbox : gmap string toy_value)
    (clock : nat) : outcome toy_value * nat :=
  if String.eqb code "scenario" then
    match sandbox !! "_0x1" with
    | Some VUndefined => (Returned (VArray [Some "alpha"; Some "beta"]), clock)
    | _ => (Threw, clock)
    end
  else if String.eqb code "bare" then (Returned (VArray [None]), clock)
  else if String.eqb code "clock" then
    (if Nat.odd clock then Returned (VArray [Some "late"])
     else Returned VUndefined,
     S clock)
  else (Threw, clock).

End Extractor.

(** ** The obfuscator.io target (targets/obfuscator-io.ts) *)

Module ObfuscatorIO.

(** The lines the target hands to [log]. *)
Inductive log_line : Type :=
  | LogStringArray (found : option (string * nat))
  | LogRotate (found : bool)
  | LogDecoders (names : list string).

Section Run.

(** The tree, the paths into it and the sandbox are those of the tree
    library and of the host; the probes and transforms the target imports
    are taken as they are:
    - [findStringArray], [findArrayRotator], [findDecoders] only read;
    - a transform maps the tree to the tree it leaves and the number of
      changes it reports ([applyTransform(...).changes]);
    - [remove p t] is the tree after [p.remove()]. *)
Context {File Path Sandbox StringArray : Type}.

Record Decoder : Type := {
  decoder_path : Path;
  decoder_originalName : string
}.

Variable stringArray_path : StringArray -> Path.
Variable stringArray_originalName : StringArray -> string.
Variable stringArray_length : StringArray -> nat.

Variable findStringArray : File -> option StringArray.
Variable findArrayRotator : StringArray -> option Path.
Variable findDecoders : StringArray -> list Decoder.

Variable inlineObjectProps : File -> File * nat.
Variable inlineDecoderWrappers : Path -> File -> File * nat.
Variable inlineDecodedStrings :
  Sandbox -> StringArray -> list Decoder -> option Path -> File -> File * nat.
Variable cleanup : File -> File * nat.
Variable remove : Path -> File -> File.

(** [DeobfuscatorContext], and what a run leaves of it. *)
Record context : Type := {
  ast : File;
  state : TransformState;
  sandbox : option Sandbox;
  logged : list log_line
}.

Definition add_changes (n : nat) (ctx : context) : context :=
  {| ast := ast ctx; state := {| changes := changes (state ctx) + n |};
     sandbox := sandbox ctx; logged := logged ctx |}.

Definition set_ast (t : File) (ctx : context) : context :=
  {| ast := t; state := state ctx; sandbox := sandbox ctx;
     logged := logged ctx |}.

Definition log (line : log_line) (ctx : context) : context :=
  {| ast := ast ctx; state := state ctx; sandbox := sandbox ctx;
     logged := logged ctx ++ [line] |}.

(** [state.changes += applyTransform(ast, t).changes]. *)
Definition apply (t : File -> File * nat) (ctx : context) : context :=
  let '(tree, n) := t (ast ctx) in add_changes n (set_ast tree ctx).

(** [decoders.forEach((decoder) => decoder.path.remove())]. *)
Definition remove_all (paths : list Path) (t : File) : File :=
  fold_left (fun t p => remove p t) paths t.

(** The [if (decoders.length > 0)] block. *)
Definition remove_infrastructure (stringArray : StringArray)
    (rotator : option Path) (decoders : list Decoder) (ctx : context)
    : context :=
  if 0 <? length decoders then
    let t1 := remove (stringArray_path stringArray) (ast ctx) in
    let t2 := match rotator with
              | Some r => remove r t1
              | None => t1
              end in
    let t3 := remove_all (map decoder_path decoders) t2 in
    add_changes (2 + length decoders) (set_ast t3 ctx)
  else ctx.

(** The run from the point where the string array has been found up to
    the removal block: the two remaining probes, their log lines, and the
    three inlining steps. *)
Definition before_removal (sb : Sandbox) (stringArray : StringArray)
    (ctx : context) : context :=
  let ctx :=
    log (LogStringArray (Some (stringArray_originalName stringArray,
                               stringArray_length stringArray))) ctx in
  let rotator := findArrayRotator stringArray in
  let ctx := log (LogRotate (present rotator)) ctx in
  let decoders := findDecoders stringArray in
  let ctx := log (LogDecoders (map decoder_originalName decoders)) ctx in
  let ctx := apply inlineObjectProps ctx in
  let ctx :=
    fold_left
      (fun ctx decoder =>
         apply (inlineDecoderWrappers (decoder_path decoder)) ctx)
      decoders ctx in
  apply (inlineDecodedStrings sb stringArray decoders rotator) ctx.

(** [deobfuscate.run(context)]. *)
Definition run (ctx : context) : context :=
  match sandbox ctx with
  | None => ctx
  | Some sb =>
      match findStringArray (ast ctx) with
      | None => log (LogStringArray None) ctx
      | Some stringArray =>
          let ctx := before_removal sb stringArray ctx in
          let ctx :=
            remove_infrastructure stringArray (findArrayRotator stringArray)
              (findDecoders stringArray) ctx in
          apply cleanup ctx
      end
  end.

(** A transform counts its changes when it leaves a tree it reports no
    change for as it was. *)
Definition counts_changes (t : File -> File * nat) : Prop :=
  forall tree, (t tree).2 = 0 -> (t tree).1 = tree.

End Run.

Arguments Decoder : clear implicits.
Arguments context : clear implicits.

(** A toy instance for examples: the tree is the list of the names it
    declares, a path is a name, removing a path deletes the name, and the
    imported transforms change nothing. *)
Record toy_array : Type := { toy_name : string; toy_rotator : option string;
                             toy_decoders : list string }.

Definition toy_find (t : list string) : option toy_array :=
  if bool_decide ("arr" ∈ t) then
    Some {| toy_name := "arr";
            toy_rotator := if bool_decide ("rot" ∈ t) then Some "rot" else None;
            toy_decoders := List.filter (String.prefix "dec") t |}
  else None.

Definition toy_remove (p : string) (t : list string) : list string :=
  List.filter (fun x => negb (String.eqb x p)) t.

Definition toy_identity (t : list string) : list string * nat := (t, 0).

Definition toy_run (ctx : context (list string) unit) : context (list string) unit :=
  run toy_name toy_name (fun _ => 0) toy_find toy_rotator
    (fun sa => map (fun d => {| decoder_path := d; decoder_originalName := d |})
                 (toy_decoders sa))
    toy_identity (fun _ => toy_identity) (fun _ _ _ _ => toy_identity)
    toy_identity toy_remove ctx.

Definition toy_context (t : list string) (sb : option unit)
    : context (list string) unit :=
  {| ast := t; state := {| changes := 0 |}; sandbox := sb; logged := [] |}.

End ObfuscatorIO.

(** ** Target registry and runner (registry.ts, runner.ts) *)

Module Runner.

Section Runner.

(** The tree and the sandbox are the caller's; [Transform] and
    [applyTransforms] are those of ast-utils. *)
Context {File Sandbox Transform : Type}.
Variable applyTransforms : list Transform -> File -> File * nat.

(** What a call of [target.detect(ast)] does: it throws, or returns a
    result whose [confidence] is a number. *)
Inductive detection : Type :=
  | DetectThrew
  | Detected (confidence : Q).

(** [DeobfuscatorTarget].  [deobfuscate_run] is [deobfuscate.run] as a
    function of the tree, of [state.changes] and of the sandbox of the
    context, returning the tree and the counter it leaves. *)
Record DeobfuscatorTarget : Type := {
  meta_id : string;
  detect : option (File -> detection);
  deobfuscate_run : File -> nat -> option Sandbox -> File * nat;
  postTransforms : option (list Transform)
}.

(** [DeobfuscatorRegistry]: the [Map] of targets in insertion order and
    the id of the default target. *)
Record DeobfuscatorRegistry : Type := {
  targets : list (string * DeobfuscatorTarget);
  defaultTargetId : option string
}.

Fixpoint map_get (id : string) (m : list (string * DeobfuscatorTarget))
    : option DeobfuscatorTarget :=
  match m with
  | [] => None
  | (k, v) :: rest => if String.eqb k id then Some v else map_get id rest
  end.

(** [Map.prototype.set]: an existing key keeps its place. *)
Fixpoint map_set (id : string) (t : DeobfuscatorTarget)
    (m : list (string * DeobfuscatorTarget))
    : list (string * DeobfuscatorTarget) :=
  match m with
  | [] => [(id, t)]
  | (k, v) :: rest =>
      if String.eqb k id then (k, t) :: rest else (k, v) :: map_set id t rest
  end.

Definition register (t : DeobfuscatorTarget) (r : DeobfuscatorRegistry)
    : DeobfuscatorRegistry :=
  {| targets := map_set (meta_id t) t (targets r);
     defaultTargetId := defaultTargetId r |}.

Definition get (r : DeobfuscatorRegistry) (id : string)
    : option DeobfuscatorTarget :=
  map_get id (targets r).

Definition list_ids (r : DeobfuscatorRegistry) : list string :=
  map fst (targets r).

Definition has (r : DeobfuscatorRegistry) (id : string) : bool :=
  match get r id with
  | Some _ => true
  | None => false
  end.

(** [setDefault]: [None] stands for the error it throws on an unknown id. *)
Definition setDefault (r : DeobfuscatorRegistry) (id : string)
    : option DeobfuscatorRegistry :=
  if has r id
  then Some {| targets := targets r; defaultTargetId := Some id |}
  else None.

Definition getDefault (r : DeobfuscatorRegistry) : option DeobfuscatorTarget :=
  match defaultTargetId r with
  | Some id => if String.eqb id "" then None else get r id
  | None => None
  end.

(** An entry of the list [detect] returns. *)
Record detected : Type := {
  detected_target : DeobfuscatorTarget;
  result_confidence : Q
}.

(** [results.sort((a, b) => b.result.confidence - a.result.confidence)]:
    a stable sort by descending confidence. *)
Fixpoint insert_by_confidence (d : detected) (l : list detected)
    : list detected :=
  match l with
  | [] => [d]
  | x :: rest =>
      if Qle_bool (result_confidence x) (result_confidence d)
      then d :: x :: rest
      else x :: insert_by_confidence d rest
  end.

Definition sort_by_confidence (l : list detected) : list detected :=
  foldr insert_by_confidence [] l.

(** Descending confidence: every later entry is at most an earlier one. *)
Fixpoint descending (l : list detected) : Prop :=
  match l with
  | [] => True
  | d :: rest =>
      Forall (fun d' => (result_confidence d' <= result_confidence d)%Q) rest
      /\ descending rest
  end.

(** The loop of [detect]: targets without [detect], targets whose
    [detect] throws and results of confidence 0 (or less) are left out. *)
Definition detect_one (ast : File) (t : DeobfuscatorTarget) : list detected :=
  match detect t with
  | Some f =>
      match f ast with
      | Detected confidence =>
          if Qle_bool confidence 0 then []
          else [{| detected_target := t; result_confidence := confidence |}]
      | DetectThrew => []
      end
  | None => []
  end.

Definition registry_detect (r : DeobfuscatorRegistry) (ast : File)
    : list detected :=
  sort_by_confidence (flat_map (fun kv => detect_one ast kv.2) (targets r)).

(** [DeobfuscateRunnerOptions.target]: a boolean or a string. *)
Inductive target_option : Type :=
  | TargetBool (b : bool)
  | TargetString (id : string).

Record DeobfuscateRunnerOptions : Type := {
  target : option target_option;
  threshold : option Q;
  sandbox : option Sandbox
}.

(** The error [resolveTarget] throws for an id that is not registered
    (the specification's UnknownTargetError): the id and the ids listed
    in the message. *)
Inductive error : Type :=
  | UnknownTargetError (id : string) (available : list string).

Definition is_auto (t : target_option) : bool :=
  match t with
  | TargetString id => String.eqb id "auto"
  | TargetBool b => b
  end.

(** [resolveTarget(ast, options)]. *)
Definition resolveTarget (r : DeobfuscatorRegistry) (ast : File)
    (options : DeobfuscateRunnerOptions)
    : error + option DeobfuscatorTarget :=
  let target := default (TargetBool true) (target options) in
  let threshold := default (3 # 10)%Q (threshold options) in
  match target with
  | TargetBool false => inr None
  | TargetString id =>
      if negb (String.eqb id "auto") then
        match get r id with
        | None => inl (UnknownTargetError id (list_ids r))
        | Some found => inr (Some found)
        end
      else
        match registry_detect r ast with
        | d :: _ =>
            if Qle_bool threshold (result_confidence d)
            then inr (Some (detected_target d))
            else inr (getDefault r)
        | [] => inr (getDefault r)
        end
  | TargetBool true =>
      match registry_detect r ast with
      | d :: _ =>
          if Qle_bool threshold (result_confidence d)
          then inr (Some (detected_target d))
          else inr (getDefault r)
      | [] => inr (getDefault r)
      end
  end.

(** [runTarget(target, ast, state, options)]: the tree and the state it
    leaves. *)
Definition runTarget (t : DeobfuscatorTarget) (ast : File)
    (state : TransformState) (options : DeobfuscateRunnerOptions)
    : File * TransformState :=
  let '(ast1, c1) := deobfuscate_run t ast (changes state) (sandbox options) in
  match postTransforms t with
  | Some (tr :: trs) =>
      let '(ast2, n) := applyTransforms (tr :: trs) ast1 in
      (ast2, {| changes := c1 + n |})
  | _ => (ast1, {| changes := c1 |})
  end.

(** [runDeobfuscation(ast, options)]. *)
Definition runDeobfuscation (r : DeobfuscatorRegistry) (ast : File)
    (options : DeobfuscateRunnerOptions) : error + File * TransformState :=
  let state := {| changes := 0 |} in
  match resolveTarget r ast options with
  | inl e => inl e
  | inr None => inr (ast, state)
  | inr (Some t) => inr (runTarget t ast state options)
  end.

End Runner.

Arguments detection : clear implicits.
Arguments DeobfuscatorTarget : clear implicits.
Arguments DeobfuscatorRegistry : clear implicits.
Arguments detected : clear implicits.
Arguments DeobfuscateRunnerOptions : clear implicits.

(** A registry in the image of targets/index.ts: [obfuscator.io] detects
    with confidence 0.5 on trees that satisfy [has_array], [abba] always
    answers 0, and [obfuscator.io] is the default. *)
Definition toy_target (id : string) (confidence : bool -> Q)
    : DeobfuscatorTarget bool unit unit :=
  {| meta_id := id;
     detect := Some (fun ast => Detected (confidence ast));
     deobfuscate_run := fun ast c _ => (ast, S c);
     postTransforms := None |}.

Definition obfuscatorIO : DeobfuscatorTarget bool unit unit :=
  toy_target "obfuscator.io" (fun has_array => if has_array then 1 # 2 else 0)%Q.

Definition abba : DeobfuscatorTarget bool unit unit :=
  toy_target "abba" (fun _ => 0%Q).

Definition builtin_registry : DeobfuscatorRegistry bool unit unit :=
  default {| targets := []; defaultTargetId := None |}
    (setDefault
       (register abba
          (register obfuscatorIO {| targets := []; defaultTargetId := None |}))
       "obfuscator.io").

Definition options_for (t : option target_option)
    : DeobfuscateRunnerOptions unit :=
  {| target := t; threshold := None; sandbox := None |}.

End Runner.

(** ** Traversal of a tree by a visitor (the tree library's [traverse])

    The transforms above are run on whole programs by [applyTransform],
    which walks the tree depth first and left to right, calls the [enter]
    handlers of a node before its children and its [exit] handlers after
    them, and lets a handler remove or rewrite the node it is called on.

    What the model keeps of the tree library:
    - scopes are the program and the functions; a scope binds the
      parameters, the names of the [var] declarators (an identifier, or
      the identifiers of an array pattern, each bound to the declarator)
      and the function declarations of its region, the first declaration
      of a name winning; scopes are computed from the tree when the
      traversal starts;
    - [path.remove()] splices the node out of a list, leaves [null] in a
      single slot, and runs the removal hooks for the node kinds of the
      model (an expression statement without expression goes, a [while]
      without test goes, a declaration without declarator goes, a binary
      expression is replaced by its other operand, the body of a loop or
      arrow function becomes an empty block);
    - nodes a handler builds are leaves or lists of leaves for the visitor
      that builds them, and are not walked again. *)

Module Traverse.

(** *** Scopes *)

Definition is_function (k : kind) : bool :=
  match k with
  | KFunctionExpression _ | KArrowFunctionExpression _
  | KFunctionDeclaration _ => true
  | _ => false
  end.

Definition is_scope (k : kind) : bool :=
  is_function k || match k with KProgram => true | _ => false end.

(** The declarations found in [n] that belong to the enclosing function
    or program: [var] declarators and function declarations, without
    entering nested functions. *)
Fixpoint hoisted (n : node) : list (string * node) :=
  let 'Node k cs := n in
  let inner :=
    (fix go (l : list node) : list (string * node) :=
       match l with
       | [] => []
       | c :: l' => hoisted c ++ go l'
       end) in
  match k, cs with
  | KFunctionDeclaration _, Identifier f :: _ => [(f, n)]
  | KFunctionDeclaration _, _ => []
  | KFunctionExpression _, _ | KArrowFunctionExpression _, _ => []
  | KVariableDeclarator, id :: _ =>
      map (fun x => (x, n)) (pattern_names id) ++ inner cs
  | _, _ => inner cs
  end.

Definition hoisted_list (l : list node) : list (string * node) :=
  flat_map hoisted l.

Definition params_of (k : kind) : list string :=
  match k with
  | KFunctionExpression params | KArrowFunctionExpression params
  | KFunctionDeclaration params => params
  | _ => []
  end.

(** The bindings of the scope a program or function node opens. *)
Definition own_bindings (n : node) : list (string * node) :=
  let 'Node k cs := n in
  match k with
  | KFunctionDeclaration params =>
      map (fun p => (p, Identifier p)) params ++ hoisted_list (tail cs)
  | KFunctionExpression params | KArrowFunctionExpression params =>
      map (fun p => (p, Identifier p)) params ++ hoisted_list cs
  | _ => hoisted_list cs
  end.

(** A scope: where its node is, and what it binds. *)
Record scope : Type := {
  owner : list nat;
  bindings : list (string * node)
}.

Fixpoint assoc (name : string) (l : list (string * node)) : option node :=
  match l with
  | [] => None
  | (k, v) :: rest => if String.eqb k name then Some v else assoc name rest
  end.

(** [scope.getBinding(name)]: walks outwards; returns the scope that owns
    the binding and the node of the binding path. *)
Fixpoint getBinding (scopes : list scope) (name : string)
    : option (list nat * node) :=
  match scopes with
  | [] => None
  | sc :: outer =>
      match assoc name (bindings sc) with
      | Some n => Some (owner sc, n)
      | None => getBinding outer name
      end
  end.

Definition binding_node (scopes : list scope) (name : string) : option node :=
  option_map snd (getBinding scopes name).

(** *** Removal *)

(** The number of single-child slots a kind starts with; the children
    after them form a list. *)
Definition fixed_slots (k : kind) : nat :=
  match k with
  | KCallExpression | KNewExpression => 1
  | KMemberExpression _ | KAssignmentExpression _ | KBinaryExpression _
  | KObjectProperty _ | KVariableDeclarator | KFunctionDeclaration _
  | KWhileStatement => 2
  | KUnaryExpression _ | KUpdateExpression _ _ | KSpreadElement
  | KReturnStatement | KExpressionStatement | KFunctionExpression _
  | KArrowFunctionExpression _ => 1
  | KConditionalExpression => 3
  | _ => 0
  end.

(** Children after some of them were removed ([None]): a removed child
    leaves [null] in a single slot and nothing in a list. *)
Fixpoint fill (slots : nat) (cs : list (option node)) : list node :=
  match cs with
  | [] => []
  | Some c :: rest => c :: fill (pred slots) rest
  | None :: rest =>
      if 0 <? slots then Null :: fill (pred slots) rest else fill 0 rest
  end.

Inductive rebuilt : Type :=
  | Gone
  | Became (n : node)
  | Built (n : node).

(** The node of kind [k] once its children have been walked, removal
    hooks included. *)
Definition rebuild (k : kind) (cs : list (option node)) : rebuilt :=
  match k, cs with
  | KExpressionStatement, [None] => Gone
  | KWhileStatement, None :: _ => Gone
  | KWhileStatement, [Some test; None] =>
      Built (WhileStatement test (BlockStatement []))
  | KArrowFunctionExpression _, [None] => Built (Node k [BlockStatement []])
  | KBinaryExpression _, [None; Some rhs] => Became rhs
  | KBinaryExpression _, [Some lhs; None] => Became lhs
  | KBinaryExpression _, [None; None] => Gone
  | KVariableDeclaration, None :: rest =>
      if forallb (fun c => negb (present c)) rest then Gone
      else Built (Node k (fill 0 cs))
  | _, _ => Built (Node k (fill (fixed_slots k) cs))
  end.

Fixpoint set_nth {A : Type} (i : nat) (x : A) (l : list A) : list A :=
  match l, i with
  | [], _ => []
  | _ :: rest, O => x :: rest
  | y :: rest, S j => y :: set_nth j x rest
  end.

(** [path.remove()] for the path at [loc] below [n]; [None] when [n]
    itself goes.  A location that no longer exists removes nothing. *)
Fixpoint remove_at (loc : list nat) (n : node) : option node :=
  match loc with
  | [] => None
  | i :: rest =>
      let 'Node k cs := n in
      match nth_error cs i with
      | None => Some n
      | Some c =>
          match rebuild k (set_nth i (remove_at rest c) (map Some cs)) with
          | Gone => None
          | Became n' | Built n' => Some n'
          end
      end
  end.

(** *** Visitors *)

(** What a handler is given: where the path is and [path.scope]. *)
Record context : Type := {
  location : list nat;
  scopes : list scope
}.

(** What an [enter] handler did to its node:
    - [Continue]: nothing;
    - [Removed]: [path.remove()];
    - [Rewrite k fresh]: the attributes became those of [k] and the child
      in slot [i] was overwritten by [n] when [fresh i = Some n]. *)
Inductive entered : Type :=
  | Continue
  | Removed
  | Rewrite (k : kind) (fresh : nat -> option node).

(** The children of a node, walked in order: the child in slot [i] is the
    fresh node [n] when [fresh i = Some n], and is visited otherwise. *)
Fixpoint walk_children {S : Type}
    (visit : nat -> node -> S -> option node * S)
    (fresh : nat -> option node) (i : nat) (l : list node) (s : S)
    : list (option node) * S :=
  match l with
  | [] => ([], s)
  | c :: l' =>
      match fresh i with
      | Some f =>
          let '(r, s') := walk_children visit fresh (Datatypes.S i) l' s in
          (Some f :: r, s')
      | None =>
          let '(c', s') := visit i c s in
          let '(r, s'') := walk_children visit fresh (Datatypes.S i) l' s' in
          (c' :: r, s'')
      end
  end.

Definition no_fresh (_ : nat) : option node := None.

Section Walk.

Context {S : Type}.

(** The handlers of all kinds together; an [exit] handler returns the
    node [path.replaceWith] installed, if it did. *)
Variable enter : context -> node -> S -> entered * S.
Variable exit_ : context -> node -> S -> option node * S.

(** The end of the visit of a node of kind [k] whose children have been
    walked. *)
Definition leave (ctx : context) (k : kind) (walked : list (option node) * S)
    : option node * S :=
  let '(cs', s2) := walked in
  match rebuild k cs' with
  | Gone => (None, s2)
  | Became n' => (Some n', s2)
  | Built n' =>
      match exit_ ctx n' s2 with
      | (Some replacement, s3) => (Some replacement, s3)
      | (None, s3) => (Some n', s3)
      end
  end.

(** [path.scope] of a node at [loc] inside the scopes [outer]. *)
Definition scopes_at (loc : list nat) (outer : list scope) (n : node)
    : list scope :=
  if is_scope (type_of n)
  then {| owner := loc; bindings := own_bindings n |} :: outer
  else outer.

Fixpoint traverse (loc : list nat) (outer : list scope) (n : node) (s : S)
    : option node * S :=
  let 'Node k cs := n in
  let scopes := scopes_at loc outer (Node k cs) in
  let ctx := {| location := loc; scopes := scopes |} in
  let visit i c s := traverse (loc ++ [i]) scopes c s in
  match enter ctx (Node k cs) s with
  | (Removed, s1) => (None, s1)
  | (Continue, s1) => leave ctx k (walk_children visit no_fresh 0 cs s1)
  | (Rewrite k' fresh, s1) => leave ctx k' (walk_children visit fresh 0 cs s1)
  end.

(** [traverse(ast, visitor)] on a program; a program that is removed as
    a whole leaves an empty one. *)
Definition traverse_program (ast : node) (s : S) : node * S :=
  match traverse [] [] ast s with
  | (Some ast', s') => (ast', s')
  | (None, s') => (Program [], s')
  end.

End Walk.

(** *** Visitors that count what they do

    A visitor counts its changes when its counter never goes down and a
    handler that leaves the counter where it was has left the node alone.
    [clean] singles out the states in which nothing is waiting to be
    shown in the tree. *)
Section Counting.

Context {S : Type}.
Variable count : S -> nat.
Variable clean : S -> Prop.

Definition enter_counts (enter : context -> node -> S -> entered * S) : Prop :=
  forall ctx n s,
    count s <= count (enter ctx n s).2
    /\ (clean s -> count (enter ctx n s).2 = count s ->
        (enter ctx n s).1 = Continue /\ clean (enter ctx n s).2).

Definition exit_counts (exit_ : context -> node -> S -> option node * S) : Prop :=
  forall ctx n s,
    count s <= count (exit_ ctx n s).2
    /\ (clean s -> count (exit_ ctx n s).2 = count s ->
        (exit_ ctx n s).1 = None /\ clean (exit_ ctx n s).2).

End Counting.

(** The [clean] of a visitor that never has anything waiting. *)
Definition always {S : Type} (_ : S) : Prop := True.

End Traverse.

(** ** The Abba target (targets/abba.ts) and its transforms on programs *)

Module Abba.

Import Traverse.

(** A handler that does nothing. *)
Definition no_exit {S : Type} (_ : context) (_ : node) (s : S)
    : option node * S := (None, s).

(** *** Step 1: string-array extractor *)

Section Extractor.

Context {value Host : Type}.
Variable undefined : value.
Variable asArray : value -> option (list value).
Variable String_ : value -> option string.
Variable generate : node -> string.
Variable createSandbox : gmap string value.
Variable executeInSandbox :
  string -> gmap string value -> Host -> Extractor.outcome value * Host.

(** The state of the extractor on a program: [this.changes] and the
    state of the host the evaluations run in. *)
Definition extractor_enter (_ : context) (n : node) (s : nat * Host)
    : entered * (nat * Host) :=
  let '(c, h) := s in
  match type_of n with
  | KVariableDeclarator =>
      match Extractor.visit_VariableDeclarator undefined asArray String_
              generate createSandbox executeInSandbox n c h with
      | (Node k' [_; init'], c', h') =>
          if c' =? c then (Continue, (c, h'))
          else
            (Rewrite k' (fun i => if i =? 1 then Some init' else None),
             (c', h'))
      | (_, _, h') => (Continue, (c, h'))
      end
  | _ => (Continue, s)
  end.

(** [applyTransform(ast, stringArrayExtractor)] in the host state [host]:
    the tree and the number of changes of the transform. *)
Definition stringArrayExtractor (host : Host) (ast : node) : node * nat :=
  let '(ast', (c, _)) :=
    traverse_program extractor_enter no_exit ast (0, host) in
  (ast', c).

End Extractor.

(** *** Step 2: string-array rotator *)

(** The state of the rotator on a program: [this.changes], and the
    element lists the handler has written into bindings of scopes that
    are still open, newest first.  A scope owns the declarators of its
    bindings; the tree shows a write when the scope is left. *)
Record rotator_state : Type := {
  rotator_changes : nat;
  written : list (list nat * string * list node)
}.

Fixpoint latest (w : list (list nat * string * list node)) (owner : list nat)
    (name : string) : option (list node) :=
  match w with
  | [] => None
  | (o, a, elements) :: rest =>
      if bool_decide (o = owner) && String.eqb a name then Some elements
      else latest rest owner name
  end.

Definition set_elements (declarator : node) (elements : list node) : node :=
  match declarator with
  | VariableDeclarator id (ArrayExpression _) =>
      VariableDeclarator id (ArrayExpression elements)
  | _ => declarator
  end.

(** The node of the binding of [name] as the handler sees it now. *)
Definition current_binding (w : list (list nat * string * list node))
    (scopes : list scope) (name : string) : option node :=
  match getBinding scopes name with
  | Some (owner, declarator) =>
      Some (match latest w owner name with
            | Some elements => set_elements declarator elements
            | None => declarator
            end)
  | None => None
  end.

Definition rotator_enter (ctx : context) (n : node) (s : rotator_state)
    : entered * rotator_state :=
  match type_of n with
  | KCallExpression =>
      let '(eff, c') :=
        Rotator.visit_CallExpression (current_binding (written s) (scopes ctx))
          n (rotator_changes s) in
      if Rotator.removed eff then
        let w :=
          match Rotator.array_elements eff with
          | Some (a, elements) =>
              match getBinding (scopes ctx) a with
              | Some (owner, _) => (owner, a, elements) :: written s
              | None => written s
              end
          | None => written s
          end in
        (Removed, {| rotator_changes := c'; written := w |})
      else (Continue, s)
  | _ => (Continue, s)
  end.

(** Puts [elements] into the declarator that binds [name] in the region
    [n]: the first declarator of that name outside nested functions.
    [None] when the region has none. *)
Fixpoint write_binding (name : string) (elements : list node) (n : node)
    : option node :=
  let 'Node k cs := n in
  let inner :=
    (fix go (l : list node) : option (list node) :=
       match l with
       | [] => None
       | c :: l' =>
           match write_binding name elements c with
           | Some c' => Some (c' :: l')
           | None => option_map (cons c) (go l')
           end
       end) in
  if is_function k then None
  else
    match k, cs with
    | KVariableDeclarator, id :: _ =>
        if existsb (String.eqb name) (pattern_names id)
        then Some (set_elements n elements)
        else option_map (Node k) (inner cs)
    | _, _ => option_map (Node k) (inner cs)
    end.

Fixpoint write_bindings (name : string) (elements : list node)
    (region : list node) : list node :=
  match region with
  | [] => []
  | c :: rest =>
      match write_binding name elements c with
      | Some c' => c' :: rest
      | None => c :: write_bindings name elements rest
      end
  end.

(** The writes of one scope, oldest first, shown in its node. *)
Definition show_writes (w : list (list nat * string * list node)) (n : node)
    : node :=
  fold_right
    (fun '(_, a, elements) n =>
       let 'Node k cs := n in Node k (write_bindings a elements cs))
    n w.

Definition rotator_exit (ctx : context) (n : node) (s : rotator_state)
    : option node * rotator_state :=
  if is_scope (type_of n) then
    let mine (e : list nat * string * list node) : bool :=
      bool_decide (e.1.1 = location ctx) in
    match List.filter mine (written s) with
    | [] => (None, s)
    | w =>
        (Some (show_writes w n),
         {| rotator_changes := rotator_changes s;
            written := List.filter (fun e => negb (mine e)) (written s) |})
    end
  else (None, s).

Definition stringArrayRotator (ast : node) : node * nat :=
  let '(ast', s) :=
    traverse_program rotator_enter rotator_exit ast
      {| rotator_changes := 0; written := [] |} in
  (ast', rotator_changes s).

(** *** Step 3: proxy inliner *)

Definition proxy_state : Type := ProxyInliner.state (list nat) * nat.

Definition proxy_enter (ctx : context) (n : node) (s : proxy_state)
    : entered * proxy_state :=
  let '(st, c) := s in
  match type_of n with
  | KFunctionDeclaration _ =>
      (Continue,
       (ProxyInliner.visit_FunctionDeclaration (location ctx) n
          (binding_node (scopes ctx)) st, c))
  | KVariableDeclarator =>
      (Continue,
       (ProxyInliner.visit_VariableDeclarator (location ctx) n
          (binding_node (scopes ctx)) st, c))
  | _ => (Continue, s)
  end.

Definition proxy_exit (_ : context) (n : node) (s : proxy_state)
    : option node * proxy_state :=
  let '(st, c) := s in
  match type_of n with
  | KCallExpression =>
      let '(replacement, c') := ProxyInliner.exit_CallExpression n st c in
      (replacement, (st, c'))
  | KProgram =>
      match ProxyInliner.exit_Program st c with
      | (Some path, c') =>
          (Some (default (Program []) (remove_at path n)), (st, c'))
      | (None, c') => (None, (st, c'))
      end
  | _ => (None, s)
  end.

Definition proxyInliner (ast : node) : node * nat :=
  let '(ast', (_, c)) :=
    traverse_program proxy_enter proxy_exit ast (ProxyInliner.initial, 0) in
  (ast', c).

(** *** Step 3.5: string and numeric normalizer (abba-string-normalizer) *)

Definition normalizer_enter (_ : context) (n : node) (c : nat) : entered * nat :=
  match type_of n with
  | KStringLiteral value true =>
      (Rewrite (KStringLiteral value false) (fun _ => None), S c)
  | KNumericLiteral value true =>
      (Rewrite (KNumericLiteral value false) (fun _ => None), S c)
  | _ => (Continue, c)
  end.

Definition stringNormalizer (ast : node) : node * nat :=
  traverse_program normalizer_enter no_exit ast 0.

(** *** Step 4: member-expression simplifier *)

Definition is_identifier_start (a : ascii) : bool :=
  let n := nat_of_ascii a in
  ((97 <=? n) && (n <=? 122)) || ((65 <=? n) && (n <=? 90))
  || (n =? 95) || (n =? 36).

Definition is_identifier_part (a : ascii) : bool :=
  let n := nat_of_ascii a in
  is_identifier_start a || ((48 <=? n) && (n <=? 57)).

Fixpoint all_chars (p : ascii -> bool) (s : string) : bool :=
  match s with
  | EmptyString => true
  | String a rest => p a && all_chars p rest
  end.

(** [VALID_IDENTIFIER_REGEX.test(s)] for [/^[a-zA-Z_$][a-zA-Z0-9_$]*$/]. *)
Definition VALID_IDENTIFIER_REGEX (s : string) : bool :=
  match s with
  | EmptyString => false
  | String a rest => is_identifier_start a && all_chars is_identifier_part rest
  end.

Section Simplifier.

(** [t.isValidIdentifier(name, reserved)] of the tree library. *)
Variable isValidIdentifier : string -> bool -> bool.

Definition simplifier_enter (_ : context) (n : node) (c : nat) : entered * nat :=
  match n with
  | MemberExpression _ (StringLiteral propName _) true =>
      if negb (VALID_IDENTIFIER_REGEX propName) then (Continue, c)
      else if negb (isValidIdentifier propName false) then (Continue, c)
      else
        (Rewrite (KMemberExpression false)
           (fun i => if i =? 1 then Some (t_identifier propName) else None),
         S c)
  | _ => (Continue, c)
  end.

Definition memberExpressionSimplifier (ast : node) : node * nat :=
  traverse_program simplifier_enter no_exit ast 0.

End Simplifier.

(** *** Step 5: module-loader resolver (abba-module-resolver) *)

Record resolver_state : Type := {
  loaderName : string;
  loaderPath : option (list nat);
  registryName : string;
  resolver_changes : nat
}.

(** [s.split('.')]. *)
Fixpoint split_dot (s : string) (current : string) : list string :=
  match s with
  | EmptyString => [current]
  | String a rest =>
      if Ascii.eqb a "."%char then current :: split_dot rest ""
      else split_dot rest (current ++ String a "")
  end.

(** [buildMemberExpression(parts)]: [registry["a"]["b"]...]. *)
Definition buildMemberExpression (registryName : string) (parts : list string)
    : node :=
  fold_left
    (fun expr part => MemberExpression expr (t_stringLiteral part) true)
    parts (t_identifier registryName).

(** The inner traversal of phase 1: the first declarator [var m = r]
    whose initializer is an identifier that is not a parameter. *)
Definition registry_alias (params : list string) (n : node) : option string :=
  match n with
  | VariableDeclarator (Identifier _) (Identifier init) =>
      if existsb (String.eqb init) params then None
      else if ProxyInliner.truthy init then Some init else None
  | _ => None
  end.

Definition resolver_enter (ctx : context) (n : node) (s : resolver_state)
    : entered * resolver_state :=
  match n with
  | Node (KFunctionDeclaration params) (Identifier funcName :: body :: _) =>
      if ProxyInliner.truthy (loaderName s) then (Continue, s)
      else if negb (length params =? 2) then (Continue, s)
      else if negb (json_includes "split" body) then (Continue, s)
      else
        match head (omap (registry_alias params) (descendants n)) with
        | None => (Continue, s)
        | Some detectedRegistry =>
            match getBinding (scopes ctx) detectedRegistry with
            | None => (Continue, s)
            | Some _ =>
                (Continue,
                 {| loaderName := funcName;
                    loaderPath := Some (location ctx);
                    registryName := detectedRegistry;
                    resolver_changes := resolver_changes s |})
            end
        end
  | _ => (Continue, s)
  end.

Definition is_factory (n : node) : bool :=
  match type_of n with
  | KFunctionExpression _ | KArrowFunctionExpression _ => true
  | _ => false
  end.

Definition bump (s : resolver_state) : resolver_state :=
  {| loaderName := loaderName s; loaderPath := loaderPath s;
     registryName := registryName s;
     resolver_changes := S (resolver_changes s) |}.

Definition resolver_exit (_ : context) (n : node) (s : resolver_state)
    : option node * resolver_state :=
  match n with
  | CallExpression (Identifier callee)
      (StringLiteral modulePath _ :: factoryNode :: _) =>
      if negb (ProxyInliner.truthy (loaderName s))
         || negb (ProxyInliner.truthy (registryName s))
      then (None, s)
      else if negb (String.eqb callee (loaderName s)) then (None, s)
      else if negb (is_factory factoryNode) then (None, s)
      else
        let pathParts := split_dot modulePath "" in
        let memberExpr := buildMemberExpression (registryName s) pathParts in
        let iife := CallExpression factoryNode [memberExpr] in
        (Some (AssignmentExpression "=" memberExpr iife), bump s)
  | Program _ =>
      match loaderPath s with
      | Some path =>
          if ProxyInliner.truthy (loaderName s)
          then (Some (default (Program []) (remove_at path n)), bump s)
          else (None, s)
      | None => (None, s)
      end
  | _ => (None, s)
  end.

Definition moduleResolver (ast : node) : node * nat :=
  let '(ast', s) :=
    traverse_program resolver_enter resolver_exit ast
      {| loaderName := ""; loaderPath := None; registryName := "";
         resolver_changes := 0 |} in
  (ast', resolver_changes s).

(** *** The target *)

Section Run.

Context {value Host : Type}.
Variable undefined : value.
Variable asArray : value -> option (list value).
Variable String_ : value -> option string.
Variable generate : node -> string.
Variable createSandbox : gmap string value.
Variable executeInSandbox :
  string -> gmap string value -> Host -> Extractor.outcome value * Host.
Variable isValidIdentifier : string -> bool -> bool.

(** The state of the host when the run starts. *)
Variable host : Host.

(** [state.changes += applyTransform(ast, t).changes; log(...)]. *)
Definition step (label : string) (t : node -> node * nat)
    (acc : node * TransformState * list (string * nat))
    : node * TransformState * list (string * nat) :=
  let '(ast, state, logged) := acc in
  let '(ast', n) := t ast in
  (ast', {| changes := changes state + n |}, logged ++ [(label, n)]).

(** [abbaTarget.deobfuscate.run(context)]: the tree, the state and the
    lines logged. *)
Definition run (ast : node) (state : TransformState)
    : node * TransformState * list (string * nat) :=
  let acc := (ast, state, []) in
  let acc :=
    step "String Array Extractor"
      (stringArrayExtractor undefined asArray String_ generate createSandbox
         executeInSandbox host) acc in
  let acc := step "String Array Rotator" stringArrayRotator acc in
  let acc := step "Proxy Inliner" proxyInliner acc in
  let acc := step "String Normalizer" stringNormalizer acc in
  let acc :=
    step "Member Expression Simplifier"
      (memberExpressionSimplifier isValidIdentifier) acc in
  step "Module Resolver" moduleResolver acc.

End Run.

(** The pipeline with the small engine of the extractor examples, the
    clock at [clock] when the run starts. *)
Definition toy_run_at (clock : nat) (ast : node) (state : TransformState)
    : node * TransformState * list (string * nat) :=
  run Extractor.VUndefined Extractor.toy_asArray Extractor.toy_String
    Extractor.toy_generate ∅ Extractor.toy_execute (fun _ _ => true) clock
    ast state.

Definition toy_run (ast : node) (state : TransformState)
    : node * TransformState * list (string * nat) :=
  toy_run_at 0 ast state.

(** [function name(d){d=d-0x0;var f=a[d];return f;}] *)
Definition proxy_function (name : string) : node :=
  FunctionDeclaration (Identifier name) ["d"]
    (BlockStatement
       [ ExpressionStatement
           (AssignmentExpression "=" (Identifier "d")
              (BinaryExpression "-" (Identifier "d") (NumericLiteral 0 true)));
         VariableDeclaration
           [ VariableDeclarator (Identifier "f")
               (MemberExpression (Identifier "a") (Identifier "d") true) ];
         ReturnStatement (Identifier "f") ]).

(** A program with two proxy functions over one string array:
    [var a = ["X","Y"]; function b(d){...} function c(d){...} b(0); c(1);] *)
Definition two_proxies : node :=
  Program
    [ VariableDeclaration
        [ VariableDeclarator (Identifier "a")
            (ArrayExpression [StringLiteral "X" true; StringLiteral "Y" true]) ];
      proxy_function "b";
      proxy_function "c";
      ExpressionStatement (CallExpression (Identifier "b") [NumericLiteral 0 true]);
      ExpressionStatement (CallExpression (Identifier "c") [NumericLiteral 1 true]) ].

(** A proxy function that is called before it is declared:
    [var a = ["X","Y"]; b(1); function b(d){...} b(0);] *)
Definition early_call : node :=
  Program
    [ VariableDeclaration
        [ VariableDeclarator (Identifier "a")
            (ArrayExpression [StringLiteral "X" true; StringLiteral "Y" true]) ];
      ExpressionStatement (CallExpression (Identifier "b") [NumericLiteral 1 true]);
      proxy_function "b";
      ExpressionStatement (CallExpression (Identifier "b") [NumericLiteral 0 true]) ].

(** Scenario 5: [var R = {}; function M(j,k){var m=R; j.split(".");}
    M("A.B", function(v){return v;});] *)
Definition loader_program : node :=
  Program
    [ VariableDeclaration
        [ VariableDeclarator (Identifier "R") (ObjectExpression []) ];
      FunctionDeclaration (Identifier "M") ["j"; "k"]
        (BlockStatement
           [ VariableDeclaration
               [ VariableDeclarator (Identifier "m") (Identifier "R") ];
             ExpressionStatement
               (CallExpression
                  (MemberExpression (Identifier "j") (Identifier "split") false)
                  [StringLiteral "." true]) ]);
      ExpressionStatement
        (CallExpression (Identifier "M")
           [ StringLiteral "A.B" true;
             FunctionExpression ["v"]
               (BlockStatement [ReturnStatement (Identifier "v")]) ]) ].

Definition fresh_state : TransformState := {| changes := 0 |}.

End Abba.

(** ** More of the registry (registry.ts) *)

Module Registry.

Import Runner.

Section Registry.

Context {File Sandbox Transform : Type}.

Let Target := DeobfuscatorTarget File Sandbox Transform.
Let RegistryT := DeobfuscatorRegistry File Sandbox Transform.

(** [Map.prototype.delete]: the entry of the key goes; the result says
    whether there was one. *)
Definition map_delete (id : string) (m : list (string * Target))
    : list (string * Target) :=
  List.filter (fun kv => negb (String.eqb kv.1 id)) m.

(** [unregister(id)]: the value returned and the registry afterwards.
    The default id is not touched. *)
Definition unregister (r : RegistryT) (id : string) : bool * RegistryT :=
  (has r id,
   {| targets := map_delete id (targets r);
      defaultTargetId := defaultTargetId r |}).

(** [getAll()]. *)
Definition getAll (r : RegistryT) : list Target := map snd (targets r).

(** A new [DeobfuscatorRegistry()]. *)
Definition empty : RegistryT := {| targets := []; defaultTargetId := None |}.

(** The keys of a [Map] are distinct. *)
Definition well_formed (r : RegistryT) : Prop := NoDup (list_ids r).

(** The detections of the registered targets before they are sorted. *)
Definition detections (r : RegistryT) (ast : File)
    : list (detected File Sandbox Transform) :=
  flat_map (fun kv => detect_one ast kv.2) (targets r).

(** The registries a program can get hold of: the empty one the module
    creates, and what [register], [unregister] and a [setDefault] that
    does not throw make of one. *)
Inductive reachable : RegistryT -> Prop :=
  | reachable_empty : reachable empty
  | reachable_register (t : Target) (r : RegistryT) :
      reachable r -> reachable (register t r)
  | reachable_unregister (id : string) (r : RegistryT) :
      reachable r -> reachable (unregister r id).2
  | reachable_setDefault (id : string) (r r' : RegistryT) :
      reachable r -> setDefault r id = Some r' -> reachable r'.

End Registry.

End Registry.

(** ** The built-in targets and the registry they are loaded into
    (targets/obfuscator-io.ts, targets/abba.ts, targets/index.ts) *)

Module Targets.

Import Runner.

Section Builtin.

(** The tree is a [node]; what the two targets import from outside the
    deobfuscation core is taken as it is (see [ObfuscatorIO] and
    [Extractor]). *)
Context {Path Sandbox Transform StringArray value Host : Type}.

Variable stringArray_path : StringArray -> Path.
Variable stringArray_originalName : StringArray -> string.
Variable stringArray_length : StringArray -> nat.
Variable findStringArray : node -> option StringArray.
Variable findArrayRotator : StringArray -> option Path.
Variable findDecoders : StringArray -> list (ObfuscatorIO.Decoder Path).
Variable inlineObjectProps : node -> node * nat.
Variable inlineDecoderWrappers : Path -> node -> node * nat.
Variable inlineDecodedStrings :
  Sandbox -> StringArray -> list (ObfuscatorIO.Decoder Path) -> option Path ->
  node -> node * nat.
Variable cleanup : node -> node * nat.
Variable remove : Path -> node -> node.

Variable undefined : value.
Variable asArray : value -> option (list value).
Variable String_ : value -> option string.
Variable generate : node -> string.
Variable createSandbox : gmap string value.
Variable executeInSandbox :
  string -> gmap string value -> Host -> Extractor.outcome value * Host.
Variable isValidIdentifier : string -> bool -> bool.

(** The state of the host when a target is run. *)
Variable host : Host.

(** [Math.min(a, b)] on the confidences. *)
Definition Math_min (a b : Q) : Q := if Qle_bool a b then a else b.

(** [obfuscatorIOTarget.detect(ast)]. *)
Definition obfuscatorIO_detect (ast : node) : detection :=
  let confidence := 0%Q in
  let confidence :=
    if present (findStringArray ast) then (confidence + (1 # 2))%Q
    else confidence in
  Detected (Math_min confidence 1).

Definition obfuscatorIOTarget : DeobfuscatorTarget node Sandbox Transform :=
  {| meta_id := "obfuscator.io";
     detect := Some obfuscatorIO_detect;
     deobfuscate_run := fun ast c sb =>
       let ctx :=
         ObfuscatorIO.run stringArray_path stringArray_originalName
           stringArray_length findStringArray findArrayRotator findDecoders
           inlineObjectProps inlineDecoderWrappers inlineDecodedStrings
           cleanup remove
           {| ObfuscatorIO.ast := ast;
              ObfuscatorIO.state := {| changes := c |};
              ObfuscatorIO.sandbox := sb;
              ObfuscatorIO.logged := [] |} in
       (ObfuscatorIO.ast ctx, changes (ObfuscatorIO.state ctx));
     postTransforms := None |}.

(** [abbaTarget]: [detect] always answers confidence 0. *)
Definition abbaTarget : DeobfuscatorTarget node Sandbox Transform :=
  {| meta_id := "abba";
     detect := Some (fun _ => Detected 0);
     deobfuscate_run := fun ast c _ =>
       let '(ast', state, _) :=
         Abba.run undefined asArray String_ generate createSandbox
           executeInSandbox isValidIdentifier host ast {| changes := c |} in
       (ast', changes state);
     postTransforms := None |}.

(** targets/index.ts: the two [register] calls and [setDefault]; [None]
    stands for the error [setDefault] throws. *)
Definition load_builtin
    : option (DeobfuscatorRegistry node Sandbox Transform) :=
  let registry := Registry.empty in
  let registry := register obfuscatorIOTarget registry in
  let registry := register abbaTarget registry in
  setDefault registry "obfuscator.io".

Definition deobfuscatorRegistry : DeobfuscatorRegistry node Sandbox Transform :=
  default Registry.empty load_builtin.

End Builtin.

(** An instance for examples: a program whose first statement is a
    variable declaration counts as having a string array, the imported
    transforms of obfuscator.io change nothing, the engine is the small
    one of the extractor examples. *)
Definition toy_findStringArray (ast : node) : option unit :=
  match ast with
  | Program (VariableDeclaration _ :: _) => Some tt
  | _ => None
  end.

Definition toy_registry : DeobfuscatorRegistry node unit unit :=
  deobfuscatorRegistry (Path := unit)
    (fun _ => tt) (fun _ => "a") (fun _ => 0) toy_findStringArray
    (fun _ => None) (fun _ => []) (fun t => (t, 0)) (fun _ t => (t, 0))
    (fun _ _ _ _ t => (t, 0)) (fun t => (t, 0)) (fun _ t => t)
    Extractor.VUndefined Extractor.toy_asArray Extractor.toy_String
    Extractor.toy_generate ∅ Extractor.toy_execute (fun _ _ => true) 0.

Definition toy_obfuscatorIO : DeobfuscatorTarget node unit unit :=
  obfuscatorIOTarget (Path := unit)
    (fun _ => tt) (fun _ => "a") (fun _ => 0) toy_findStringArray
    (fun _ => None) (fun _ => []) (fun t => (t, 0)) (fun _ t => (t, 0))
    (fun _ _ _ _ t => (t, 0)) (fun t => (t, 0)) (fun _ t => t).

(** [var a = ["x"];] *)
Definition toy_program : node :=
  Program
    [ VariableDeclaration
        [ VariableDeclarator (Identifier "a")
            (ArrayExpression [StringLiteral "x" true]) ] ].

Definition toy_options (t : option target_option) (sb : option unit)
    : DeobfuscateRunnerOptions unit :=
  {| target := t; threshold := None; sandbox := sb |}.

End Targets.

(** ** The [log] callback of [runTarget] (runner.ts) *)

Module RunnerLog.

Section Format.

(** [String(x)] of the host, [None] standing for [undefined]. *)
Context {value : Type}.
Variable String_ : option value -> string.

(** The characters [sdifjoO%] of the pattern [/%[sdifjoO%]/g]. *)
Definition is_placeholder (a : ascii) : bool :=
  existsb (Ascii.eqb a) ["s"; "d"; "i"; "f"; "j"; "o"; "O"; "%"]%char.

(** [message.replace(/%[sdifjoO%]/g, () => String(args.shift()))]: the
    matches are found from left to right and do not overlap; every match
    takes the next argument, [undefined] once there is none left. *)
Fixpoint replace (message : string) (args : list value) : string :=
  match message with
  | EmptyString => EmptyString
  | String a rest =>
      match rest with
      | String b rest' =>
          if Ascii.eqb a "%" && is_placeholder b
          then String_ (head args) ++ replace rest' (tail args)
          else String a (replace rest args)
      | EmptyString => String a EmptyString
      end
  end.

(** [formattedMessage]. *)
Definition formattedMessage (message : string) (args : list value) : string :=
  if 0 <? length args then replace message args else message.

End Format.

(** Arguments that are strings already. *)
Definition String_of_string (v : option string) : string :=
  default "undefined" v.

End RunnerLog.

(** ** Dead-code removal, visitor variant (abba/dead-code-removal.ts) *)

Module DeadCodeVisitor.

(** The proper ancestors of a path, nearest first ([path.parentPath],
    its parent, ...). *)
Fixpoint ancestors (p : DeadCode.NodePath) : list DeadCode.NodePath :=
  match p with
  | DeadCode.mkPath _ None => []
  | DeadCode.mkPath _ (Some parent) => parent :: ancestors parent
  end.

(** A binding of the program scope after [path.scope.crawl()]: its
    [referenced] flag and the node of its path. *)
Record Binding : Type := {
  referenced : bool;
  binding_node : node
}.

(** The body of the loop of [Program.exit] for one binding: does it call
    [bindingPath.remove()]? *)
Definition removes (binding : Binding) : bool :=
  if referenced binding then false
  else
    match binding_node binding with
    | Node (KFunctionDeclaration _) _ => true
    | VariableDeclarator _ init => DeadCode.isSafeInitializer init
    | _ => false
    end.

(** The state of the loop of [Program.exit]: [removedBindings],
    [this.changes], [path.scope.bindings] as the removals leave it, and
    the nodes [remove()] took out of the tree. *)
Record exit_state : Type := {
  removedBindings : list string;
  changes : nat;
  scope_bindings : list (string * Binding);
  removedNodes : list node
}.

(** The body of the loop for the name the enumeration has reached. *)
Definition exit_binding (name : string) (s : exit_state) : exit_state :=
  match DeadCode.binding_of name (scope_bindings s) with
  | None => s
  | Some binding =>
      if removes binding then
        {| removedBindings := removedBindings s ++ [name];
           changes := S (changes s);
           scope_bindings :=
             DeadCode.removeFromScope (binding_node binding)
               (scope_bindings s);
           removedNodes := removedNodes s ++ [binding_node binding] |}
      else s
  end.

(** [Program.exit]: the loop over the names of [path.scope.bindings]
    (see [DeadCode.binding_of] for the object and its enumeration). *)
Definition exit_Program (bindings : list (string * Binding))
    (removedBindings0 : list string) (c : nat) : exit_state :=
  fold_left (fun s name => exit_binding name s)
    (map fst bindings)
    {| removedBindings := removedBindings0; changes := c;
       scope_bindings := bindings; removedNodes := [] |}.

(** The program scope of [var dead = 1; var kept = f(); var used = 3;
    used;] after the crawl. *)
Definition scenario_bindings : list (string * Binding) :=
  [ ("dead", {| referenced := false;
                binding_node :=
                  VariableDeclarator (Identifier "dead")
                    (NumericLiteral 1 true) |});
    ("kept", {| referenced := false;
                binding_node :=
                  VariableDeclarator (Identifier "kept")
                    (CallExpression (Identifier "f") []) |});
    ("used", {| referenced := true;
                binding_node :=
                  VariableDeclarator (Identifier "used")
                    (NumericLiteral 3 true) |}) ].

(** The program scope of [var [a, b] = [1, 2]; use(b);] after the crawl. *)
Definition shared_bindings : list (string * Binding) :=
  [ ("a", {| referenced := false;
             binding_node := DeadCode.shared_declarator |});
    ("b", {| referenced := true;
             binding_node := DeadCode.shared_declarator |}) ].

(** The [EmptyStatement] handler as an [enter] handler of a traversal. *)
Definition enter_EmptyStatement (_ : Traverse.context) (n : node) (c : nat)
    : Traverse.entered * nat :=
  match type_of n with
  | KEmptyStatement => (Traverse.Removed, S c)
  | _ => (Traverse.Continue, c)
  end.

(** The traversal of the [EmptyStatement] handler alone. *)
Definition removeEmptyStatements (ast : node) (c : nat) : node * nat :=
  Traverse.traverse_program enter_EmptyStatement Abba.no_exit ast c.

End DeadCodeVisitor.

(** ** What the per-node transforms compute, by recursion on the tree

    The normalizer and the simplifier look at one node at a time; the
    functions below say what a whole tree becomes and how many nodes are
    touched.  They are what the traversals of [Abba] are compared with. *)

Module Whole.

(** The kind of a literal once [delete path.node.extra] has run. *)
Definition without_extra (k : kind) : kind :=
  match k with
  | KStringLiteral value _ => KStringLiteral value false
  | KNumericLiteral value _ => KNumericLiteral value false
  | _ => k
  end.

(** [path.node.extra] is set, on a string or numeric literal. *)
Definition has_extra (k : kind) : bool :=
  match k with
  | KStringLiteral _ extra | KNumericLiteral _ extra => extra
  | _ => false
  end.

Fixpoint normalized (n : node) : node :=
  let 'Node k cs := n in Node (without_extra k) (map normalized cs).

Fixpoint count_extra (n : node) : nat :=
  let 'Node k cs := n in
  (if has_extra k then 1 else 0) + list_sum (map count_extra cs).

Section Simplified.

Variable isValidIdentifier : string -> bool -> bool.

(** The property name of a member expression the simplifier converts. *)
Definition convertible (n : node) : option string :=
  match n with
  | MemberExpression _ (StringLiteral propName _) true =>
      if Abba.VALID_IDENTIFIER_REGEX propName
         && isValidIdentifier propName false
      then Some propName
      else None
  | _ => None
  end.

Fixpoint simplified (n : node) : node :=
  let 'Node k cs := n in
  match convertible (Node k cs), cs with
  | Some propName, object :: _ =>
      MemberExpression (simplified object) (t_identifier propName) false
  | _, _ => Node k (map simplified cs)
  end.

Fixpoint count_convertible (n : node) : nat :=
  let 'Node k cs := n in
  match convertible (Node k cs), cs with
  | Some _, object :: _ => S (count_convertible object)
  | _, _ => list_sum (map count_convertible cs)
  end.

End Simplified.

(** Reading a chain [r["a"]["b"]...] back: the identifier at its root and
    the property names from the root outwards.  Only computed accesses by
    string literals built by [t.stringLiteral] are read. *)
Fixpoint member_path (n : node) : option (string * list string) :=
  match n with
  | Identifier registry => Some (registry, [])
  | MemberExpression object (StringLiteral part false) true =>
      match member_path object with
      | Some (registry, parts) => Some (registry, parts ++ [part])
      | None => None
      end
  | _ => None
  end.

Definition dot_free (s : string) : bool :=
  Abba.all_chars (fun a => negb (Ascii.eqb a "."%char)) s.

End Whole.
(** * Properties *)

(** Case analysis on every test and every scrutinee a handler goes
    through. *)
Ltac handler_cases :=
  repeat match goal with
         | |- context [if ?b then _ else _] => destruct b
         | |- context [match ?x with _ => _ end] => destruct x
         end.

(** ** The rotator *)

Lemma shift_push_length (l : list node) : length (Rotator.shift_push l) = length l.
Proof.
  destruct l as [|x l]; simpl; [reflexivity|].
  rewrite length_app. simpl. lia.
Qed.

Lemma iter_shift_push (r : nat) (l : list node) :
  r <= length l -> Nat.iter r Rotator.shift_push l = drop r l ++ take r l.
Proof.
  induction r as [|r IH]; intros Hr.
  - simpl. rewrite drop_0, take_0, app_nil_r. reflexivity.
  - simpl. rewrite IH by lia.
    destruct (drop r l) as [|x rest] eqn:Hd.
    + apply (f_equal length) in Hd. rewrite length_drop in Hd. simpl in Hd. lia.
    + simpl.
      assert (Hx : l !! r = Some x).
      { rewrite <- (Nat.add_0_r r), <- lookup_drop, Hd. reflexivity. }
      rewrite (take_S_r l r x Hx).
      assert (Hrest : drop (S r) l = rest).
      { replace (S r) with (r + 1) by lia. rewrite <- drop_drop, Hd.
        reflexivity. }
      rewrite Hrest, <- app_assoc. reflexivity.
Qed.

Lemma rotated_lookup (r : nat) (l : list node) (i : nat) :
  r < length l -> i < length l ->
  (drop r l ++ take r l) !! i = l !! ((r + i) mod length l).
Proof.
  intros Hr Hi.
  destruct (decide (i < length l - r)) as [Hlt|Hge].
  - rewrite lookup_app_l by (rewrite length_drop; lia).
    rewrite lookup_drop. rewrite Nat.mod_small by lia. reflexivity.
  - rewrite lookup_app_r by (rewrite length_drop; lia).
    rewrite length_drop.
    rewrite lookup_take_lt by lia.
    f_equal.
    assert (E : r + i = (i - (length l - r)) + 1 * length l) by lia.
    rewrite E, Nat.Div0.mod_add. rewrite Nat.mod_small by lia. reflexivity.
Qed.


Lemma match_nonempty {A B : Type} (l : list A) (a b : B) :
  l <> [] -> match l with [] => a | _ :: _ => b end = b.
Proof. destruct l; [congruence | reflexivity]. Qed.

Lemma effective_rotation (n : N) (inc : bool) (L : nat) :
  N.to_nat ((if inc then (n + 1)%N else n) mod N.of_nat L)%N
  = (N.to_nat n + (if inc then 1 else 0)) mod L.
Proof.
  rewrite N2Nat.inj_mod, Nat2N.id.
  destruct inc; [rewrite N2Nat.inj_add | rewrite Nat.add_0_r]; reflexivity.
Qed.

(** C1 as stated fails: the handler looks for the call that passes a
    prefix [++] among the statements of the IIFE body only.  In
    [var a = ["one","two","three","four"];
     (function(e,f){var g=function(h){...};return g(++f);}(a,2));]
    an inner call passes [++f] first, yet the array is rotated by 2, not
    by 3. *)
Lemma rotator_ignores_nested_increment :
  json_includes "push" (BlockStatement Rotator.returning_body) = true
  /\ json_includes "shift" (BlockStatement Rotator.returning_body) = true
  /\ Rotator.spec_increment Rotator.returning_body = true
  /\ Rotator.detect_increment Rotator.returning_body = false
  /\ Rotator.visit_CallExpression (Rotator.scenario_scope Rotator.four_strings)
       Rotator.returning_iife 0
     = ({| Rotator.array_elements :=
             Some ("a", [ StringLiteral "three" true; StringLiteral "four" true;
                          StringLiteral "one" true; StringLiteral "two" true ]);
           Rotator.removed := true |}, 1)
  /\ [ StringLiteral "three" true; StringLiteral "four" true;
       StringLiteral "one" true; StringLiteral "two" true ]
     <> drop ((2 + 1) mod 4) Rotator.four_strings
        ++ take ((2 + 1) mod 4) Rotator.four_strings
  /\ Abba.stringArrayRotator
       (Program [ VariableDeclaration
                    [Rotator.scenario_array Rotator.four_strings];
                  ExpressionStatement Rotator.returning_iife ])
     = (Program [ VariableDeclaration
                    [Rotator.scenario_array
                       [ StringLiteral "three" true; StringLiteral "four" true;
                         StringLiteral "one" true; StringLiteral "two" true ]] ],
        1).
Proof. vm_compute. repeat split; try reflexivity. discriminate. Qed.

(** C2 as stated fails: on a matched rotator IIFE whose array is empty the
    handler returns before [path.remove()], so the IIFE is not removed;
    the transform leaves [var a = []; (function(e,f){...}(a,2));] as it is
    and reports no change. *)
Lemma rotator_empty_array_keeps_iife :
  json_includes "push" (BlockStatement Rotator.scenario_body) = true
  /\ json_includes "shift" (BlockStatement Rotator.scenario_body) = true
  /\ Rotator.scenario_scope [] "a"
     = Some (VariableDeclarator (Identifier "a") (ArrayExpression []))
  /\ Rotator.removed
       (fst (Rotator.visit_CallExpression (Rotator.scenario_scope [])
               Rotator.scenario_iife 0)) = false
  /\ Abba.stringArrayRotator
       (Program [ VariableDeclaration [Rotator.scenario_array []];
                  ExpressionStatement Rotator.scenario_iife ])
     = (Program [ VariableDeclaration [Rotator.scenario_array []];
                  ExpressionStatement Rotator.scenario_iife ], 0).
Proof. vm_compute. repeat split; reflexivity. Qed.

(** C2, amended.  When the array expression the identifier resolves to has
    zero elements, the handler returns without touching anything: the IIFE
    stays in the tree, the empty element list is unchanged and no change
    is counted. *)
Theorem rotator_empty_array_untouched
    (getBinding : string -> option node) (params : list string)
    (body : node) (a : string) (n : N) (extra : bool) (id : node) (c : nat) :
  getBinding a = Some (VariableDeclarator id (ArrayExpression [])) ->
  Rotator.visit_CallExpression getBinding
    (CallExpression (FunctionExpression params body)
       [Identifier a; NumericLiteral n extra]) c
  = (Rotator.untouched, c).
Proof.
  intros Hbind. unfold Rotator.visit_CallExpression.
  destruct body as [k stmts]. destruct k; try reflexivity.
  rewrite Hbind.
  destruct (negb _ || negb _); reflexivity.
Qed.

Lemma rotator_empty_array_untouched_witness :
  Rotator.visit_CallExpression (Rotator.scenario_scope [])
    Rotator.scenario_iife 7
  = (Rotator.untouched, 7).
Proof.
  refine (rotator_empty_array_untouched (Rotator.scenario_scope [])
            ["e"; "f"] (BlockStatement Rotator.scenario_body) "a" 2%N true
            (Identifier "a") 7 _).
  vm_compute; reflexivity.
Defined.

(** ** The proxy inliner *)

Example parseInt_hex : ProxyInliner.parseInt "0x1a" 16 = Some 26%Z.
Proof. reflexivity. Qed.

Example parseInt_decimal : ProxyInliner.parseInt "26" 10 = Some 26%Z.
Proof. reflexivity. Qed.

Example parseInt_signed_prefix : ProxyInliner.parseInt "  -12px" 10 = Some (-12)%Z.
Proof. reflexivity. Qed.

Example parseInt_nan : ProxyInliner.parseInt "0x" 16 = None.
Proof. reflexivity. Qed.

Lemma truthy_true (s : string) : s <> "" -> ProxyInliner.truthy s = true.
Proof.
  intros H. unfold ProxyInliner.truthy.
  destruct (String.eqb_spec s ""); [contradiction | reflexivity].
Qed.

(** The exit handler once a proxy has been detected.  With a detected
    proxy [p] (the captured name is not empty), offset [o] and captured
    strings [S] of length [L],
    the exit handler on a call [p(arg, ...)] whose first argument is a
    string literal (read in base 16 when it starts with [0x] or [0X],
    in base 10 otherwise) or a numeric literal (taken as it is) of value
    [v] replaces the call by the string literal [S[v - o]] and counts one
    change when [0 <= v - o < L], and leaves the call alone otherwise;
    so it does when the string literal does not parse. *)
Theorem proxy_call_inlined {Path : Type}
    (st : ProxyInliner.state Path) (firstArg : node) (rest : list node)
    (c : nat) :
  ProxyInliner.proxyName st <> "" ->
  let p := ProxyInliner.proxyName st in
  let o := Z.of_N (ProxyInliner.offset st) in
  let S := ProxyInliner.stringArray st in
  let L := Z.of_nat (length S) in
  let call := CallExpression (Identifier p) (firstArg :: rest) in
  let parsed (val : string) :=
    if startsWith val "0x" || startsWith val "0X"
    then ProxyInliner.parseInt val 16 else ProxyInliner.parseInt val 10 in
  forall value : option Z,
    (exists val extra, firstArg = StringLiteral val extra /\ value = parsed val)
    \/ (exists n extra, firstArg = NumericLiteral n extra
                        /\ value = Some (Z.of_N n)) ->
    match value with
    | Some v =>
        if decide (0 <= v - o < L)%Z
        then exists s, S !! Z.to_nat (v - o) = Some s
                       /\ ProxyInliner.exit_CallExpression call st c
                          = (Some (StringLiteral s false), Datatypes.S c)
        else ProxyInliner.exit_CallExpression call st c = (None, c)
    | None => ProxyInliner.exit_CallExpression call st c = (None, c)
    end.
Proof.
  intros Hp p o S L call parsed value Hval.
  assert (Hidx : ProxyInliner.exit_CallExpression call st c
    = match value with
      | Some v =>
          if ((v - o <? 0) || (L <=? v - o))%Z then (None, c)
          else (Some (t_stringLiteral (nth (Z.to_nat (v - o)) S "")),
                Datatypes.S c)
      | None => (None, c)
      end).
  { unfold ProxyInliner.exit_CallExpression, call.
    rewrite (truthy_true _ Hp). simpl negb. rewrite orb_false_l.
    destruct (length (ProxyInliner.stringArray st) =? 0) eqn:Hlen.
    - apply Nat.eqb_eq in Hlen.
      assert (HL0 : L = 0%Z) by (subst L S; rewrite Hlen; reflexivity).
      destruct value as [v|]; [|reflexivity].
      destruct (v - o <? 0)%Z eqn:E1; [reflexivity|].
      destruct (L <=? v - o)%Z eqn:E2; [reflexivity|]. lia.
    - fold p. rewrite String.eqb_refl. simpl negb. cbv iota.
      destruct Hval as [(val & extra & -> & ->) | (n & extra & -> & ->)].
      + subst parsed. cbv beta.
        destruct (startsWith val "0x" || startsWith val "0X"); reflexivity.
      + reflexivity. }
  rewrite Hidx. clear Hidx.
  destruct value as [v|]; [|reflexivity].
  destruct (decide (0 <= v - o < L)%Z) as [Hin|Hout].
  - destruct (v - o <? 0)%Z eqn:E1; [lia|].
    destruct (L <=? v - o)%Z eqn:E2; [lia|]. simpl orb. cbv iota.
    assert (Hlt : Z.to_nat (v - o) < length S) by (subst L; lia).
    destruct (lookup_lt_is_Some_2 S _ Hlt) as [s Hs].
    exists s. split; [exact Hs|].
    rewrite (nth_lookup_Some _ _ _ _ Hs). reflexivity.
  - destruct (v - o <? 0)%Z eqn:E1; [reflexivity|].
    destruct (L <=? v - o)%Z eqn:E2; [reflexivity|]. lia.
Qed.

(** Scenario 4: [b(0x11)] becomes ["Y"], [b(0x20)] stays. *)
Lemma proxy_call_inlined_witness :
  (exists s, ["X"; "Y"; "Z"] !! 1 = Some s
     /\ ProxyInliner.exit_CallExpression
          (CallExpression (Identifier "b") [NumericLiteral 17 true])
          ProxyInliner.scenario_state 0
        = (Some (StringLiteral s false), 1))
  /\ ProxyInliner.exit_CallExpression
       (CallExpression (Identifier "b") [StringLiteral "0x20" true])
       ProxyInliner.scenario_state 0
     = (None, 0).
Proof.
  split.
  - refine (proxy_call_inlined ProxyInliner.scenario_state
              (NumericLiteral 17 true) [] 0 _ (Some 17%Z) _).
    + discriminate.
    + right. exists 17%N, true. split; reflexivity.
  - refine (proxy_call_inlined ProxyInliner.scenario_state
              (StringLiteral "0x20" true) [] 0 _ (Some 32%Z) _).
    + discriminate.
    + left. exists "0x20", true. split; reflexivity.
Defined.

(** C4 (call-site inlining), on the program
    [var a = ["X","Y"]; b(1); function b(d){d=d-0x0;var f=a[d];return f;}
     b(0);].
    The call [b(1)] is exited before the declaration of [b] is entered:
    no proxy is known yet, the handler returns at its first test and the
    call stays, although its index is in range.  The call [b(0)] after
    the declaration becomes ["X"].  When the program is left the proxy
    function is removed all the same: [b(1)] is left calling a function
    that is gone.  Two changes are counted. *)
Theorem proxy_call_before_declaration_is_kept :
  ProxyInliner.exit_CallExpression
    (CallExpression (Identifier "b") [NumericLiteral 1 true])
    (ProxyInliner.initial (Path := list nat)) 0
  = (None, 0)
  /\ Abba.proxyInliner Abba.early_call
     = (Program
          [ VariableDeclaration
              [ VariableDeclarator (Identifier "a")
                  (ArrayExpression
                     [StringLiteral "X" true; StringLiteral "Y" true]) ];
            ExpressionStatement
              (CallExpression (Identifier "b") [NumericLiteral 1 true]);
            ExpressionStatement (StringLiteral "X" false) ],
        2).
Proof. split; vm_compute; reflexivity. Qed.

Example second_candidate_is_a_proxy :
  ProxyInliner.visit_FunctionDeclaration 2 ProxyInliner.second_candidate
    ProxyInliner.scenario_scope ProxyInliner.initial
  = {| ProxyInliner.proxyName := "c"; ProxyInliner.proxyPath := Some 2;
       ProxyInliner.arrayName := "a"; ProxyInliner.offset := 0%N;
       ProxyInliner.stringArray := ["X"; "Y"; "Z"] |}.
Proof. reflexivity. Qed.

Lemma step_after_detection {Path : Type} (st : ProxyInliner.state Path)
    (c : nat) (e : ProxyInliner.event Path) :
  ProxyInliner.proxyName st <> "" ->
  (ProxyInliner.step st c e).1.1 = st.
Proof.
  intros Hp. pose proof (truthy_true _ Hp) as Ht.
  destruct e as [path n gb | path n gb | path n |]; simpl.
  - unfold ProxyInliner.visit_FunctionDeclaration. rewrite Ht. reflexivity.
  - unfold ProxyInliner.visit_VariableDeclarator. rewrite Ht. reflexivity.
  - destruct (ProxyInliner.exit_CallExpression n st c) as [[r|] c']; reflexivity.
  - destruct (ProxyInliner.exit_Program st c) as [[p|] c']; reflexivity.
Qed.

Lemma step_actions_from_detection {Path : Type} (st : ProxyInliner.state Path)
    (c : nat) (e : ProxyInliner.event Path) :
  Forall (ProxyInliner.from_detection st) (ProxyInliner.step st c e).2.
Proof.
  destruct e as [path n gb | path n gb | path n |]; simpl;
    try (apply Forall_nil; exact I).
  - destruct (ProxyInliner.exit_CallExpression n st c) as [[r|] c'] eqn:E;
      simpl; [|apply Forall_nil; exact I].
    apply Forall_cons; split; [|apply Forall_nil; exact I].
    exists n, c. rewrite E. f_equal.
    unfold ProxyInliner.exit_CallExpression in E.
    repeat match type of E with
           | (if ?b then _ else _) = _ => destruct b
           | match ?x with _ => _ end = _ => destruct x
           end; congruence.
  - unfold ProxyInliner.exit_Program.
    destruct (ProxyInliner.proxyPath st) as [p|] eqn:E; simpl;
      [|apply Forall_nil; exact I].
    destruct (ProxyInliner.truthy _); simpl; [|apply Forall_nil; exact I].
    apply Forall_cons; split; [assumption | apply Forall_nil; exact I].
Qed.

(** C10 (one proxy per application).  Once a function declaration or a
    function-expression declarator has matched (the captured name is not
    empty), whatever the traversal visits afterwards: every later candidate
    is skipped, the captured name, path, offset and strings stay those of
    the first match, every inlined call is computed from them, and the
    program exit handler removes that one declaration and nothing else. *)
Theorem proxy_single_detection {Path : Type} (st : ProxyInliner.state Path)
    (c : nat) (events : list (ProxyInliner.event Path)) :
  ProxyInliner.proxyName st <> "" ->
  (forall path n getBinding,
      ProxyInliner.visit_FunctionDeclaration path n getBinding st = st
      /\ ProxyInliner.visit_VariableDeclarator path n getBinding st = st)
  /\ (ProxyInliner.run st c events).1.1 = st
  /\ Forall (ProxyInliner.from_detection st) (ProxyInliner.run st c events).2
  /\ forall c0,
       ProxyInliner.exit_Program st c0
       = match ProxyInliner.proxyPath st with
         | Some path => (Some path, S c0)
         | None => (None, c0)
         end.
Proof.
  intros Hp. pose proof (truthy_true _ Hp) as Ht.
  split; [|split; [|split]].
  - intros path n gb.
    unfold ProxyInliner.visit_FunctionDeclaration,
      ProxyInliner.visit_VariableDeclarator.
    rewrite Ht. split; reflexivity.
  - revert c. induction events as [|e rest IH]; intros c; [reflexivity|].
    simpl. pose proof (step_after_detection st c e Hp) as Hs.
    destruct (ProxyInliner.step st c e) as [[st1 c1] acts1]. simpl in Hs.
    subst st1. specialize (IH c1).
    destruct (ProxyInliner.run st c1 rest) as [[st2 c2] acts2]. exact IH.
  - revert c. induction events as [|e rest IH]; intros c;
      [apply Forall_nil; exact I|].
    simpl. pose proof (step_after_detection st c e Hp) as Hs.
    pose proof (step_actions_from_detection st c e) as Ha.
    destruct (ProxyInliner.step st c e) as [[st1 c1] acts1]. simpl in Hs, Ha.
    subst st1. specialize (IH c1).
    destruct (ProxyInliner.run st c1 rest) as [[st2 c2] acts2]. simpl in *.
    apply Forall_app; split; assumption.
  - intros c0. unfold ProxyInliner.exit_Program. rewrite Ht.
    destruct (ProxyInliner.proxyPath st); reflexivity.
Qed.

Lemma proxy_single_detection_witness :
  ProxyInliner.run ProxyInliner.scenario_state 0 ProxyInliner.scenario_events
  = (ProxyInliner.scenario_state, 2,
     [ ProxyInliner.ReplaceWith 3 (StringLiteral "Y" false);
       ProxyInliner.Remove 1 ])
  /\ (ProxyInliner.run ProxyInliner.scenario_state 0
        ProxyInliner.scenario_events).1.1
     = ProxyInliner.scenario_state.
Proof.
  split; [vm_compute; reflexivity|].
  refine (proj1 (proj2 (proxy_single_detection ProxyInliner.scenario_state 0
                          ProxyInliner.scenario_events _))).
  discriminate.
Defined.
(** ** The dead-code pass *)

(** A ghost reference does not count, a live one does. *)
Example ghost_reference_is_filtered :
  DeadCode.isValidReference DeadCode.ghost_reference = false
  /\ DeadCode.isValidReference DeadCode.live_reference = true.
Proof. split; reflexivity. Qed.

(** C5 (only dead, pure bindings are removed), on the program
    [var [a, b] = [1, 2]; use(b);].  The scope holds [a] and [b], both
    declared by the one declarator, and [b] has a reference that reaches
    the program.  The loop comes to [a] first: it has no reference and
    the initializer is pure, so [remove()] takes the declarator out of
    the tree, and with it the declaration of [b]; [b] is deleted from
    [scope.bindings] and the loop never looks at its reference.  Only
    [a] is pushed to [removedBindings] and one change is counted.  Both
    variants of the pass do so. *)
Theorem dead_code_removes_live_binding_of_shared_declarator :
  DeadCode.binding_of "b" DeadCode.shared_bindings
  = Some {| DeadCode.path := DeadCode.shared_declarator_path;
            DeadCode.referencePaths := [DeadCode.shared_reference];
            DeadCode.constantViolations := [] |}
  /\ DeadCode.isValidReference DeadCode.shared_reference = true
  /\ (forall isPure : node -> bool,
        isPure (ArrayExpression [NumericLiteral 1 true; NumericLiteral 2 true])
        = true ->
        DeadCode.processScope isPure DeadCode.shared_bindings 0 []
        = {| DeadCode.state_changes := 1;
             DeadCode.removedBindings := ["a"];
             DeadCode.changed := true;
             DeadCode.scope_bindings := [];
             DeadCode.removedPaths := [DeadCode.shared_declarator_path] |})
  /\ DeadCode.binding_of "b" DeadCodeVisitor.shared_bindings
     = Some {| DeadCodeVisitor.referenced := true;
               DeadCodeVisitor.binding_node := DeadCode.shared_declarator |}
  /\ DeadCodeVisitor.exit_Program DeadCodeVisitor.shared_bindings [] 0
     = {| DeadCodeVisitor.removedBindings := ["a"];
          DeadCodeVisitor.changes := 1;
          DeadCodeVisitor.scope_bindings := [];
          DeadCodeVisitor.removedNodes := [DeadCode.shared_declarator] |}.
Proof.
  split; [reflexivity|]. split; [reflexivity|]. split.
  - intros isPure Hpure.
    unfold DeadCode.processScope, DeadCode.shared_bindings.
    cbn [map fst fold_left].
    unfold DeadCode.process_binding at 2.
    cbn [DeadCode.scope_bindings]. unfold DeadCode.binding_of at 1.
    cbn [find String.eqb Ascii.eqb Bool.eqb fst snd].
    unfold DeadCode.removes.
    cbn [DeadCode.validRefs DeadCode.validConstantViolations
         DeadCode.referencePaths DeadCode.constantViolations List.filter
         length Nat.add Nat.ltb Nat.leb DeadCode.path DeadCode.path_node
         DeadCode.shared_declarator_path DeadCode.shared_declarator].
    rewrite Hpure. reflexivity.
  - split; reflexivity.
Qed.

(** ** The string-array extractor *)




(** ** The obfuscator.io target *)

Section ObfuscatorIOFacts.

Context {File Path Sandbox StringArray : Type}.
Variable stringArray_path : StringArray -> Path.
Variable stringArray_originalName : StringArray -> string.
Variable stringArray_length : StringArray -> nat.
Variable findStringArray : File -> option StringArray.
Variable findArrayRotator : StringArray -> option Path.
Variable findDecoders : StringArray -> list (ObfuscatorIO.Decoder Path).
Variable inlineObjectProps : File -> File * nat.
Variable inlineDecoderWrappers : Path -> File -> File * nat.
Variable inlineDecodedStrings :
  Sandbox -> StringArray -> list (ObfuscatorIO.Decoder Path) -> option Path ->
  File -> File * nat.
Variable cleanup : File -> File * nat.
Variable remove : Path -> File -> File.

Let run :=
  ObfuscatorIO.run stringArray_path stringArray_originalName
    stringArray_length findStringArray findArrayRotator findDecoders
    inlineObjectProps inlineDecoderWrappers inlineDecodedStrings cleanup
    remove.

Let before_removal :=
  ObfuscatorIO.before_removal stringArray_originalName stringArray_length
    findArrayRotator findDecoders inlineObjectProps inlineDecoderWrappers
    inlineDecodedStrings.

(** C7 (no evaluator, or no string array: no-op).  When the context has no
    sandbox, or [findStringArray] finds nothing in the tree, the run
    returns with the tree as it was and [state.changes] as it was (at
    most a line has been logged). *)
Theorem obfuscator_io_noop_without_sandbox_or_array
    (ctx : ObfuscatorIO.context File Sandbox) :
  ObfuscatorIO.sandbox ctx = None
  \/ findStringArray (ObfuscatorIO.ast ctx) = None ->
  ObfuscatorIO.ast (run ctx) = ObfuscatorIO.ast ctx
  /\ ObfuscatorIO.state (run ctx) = ObfuscatorIO.state ctx
  /\ ObfuscatorIO.sandbox (run ctx) = ObfuscatorIO.sandbox ctx.
Proof.
  intros H. subst run. unfold ObfuscatorIO.run.
  destruct (ObfuscatorIO.sandbox ctx) as [sb|] eqn:Hsb.
  - destruct H as [H|H]; [discriminate|]. rewrite H. simpl.
    rewrite Hsb. repeat split; reflexivity.
  - rewrite Hsb. repeat split; reflexivity.
Qed.

(** C8 (removal of the decoder infrastructure).  When [findDecoders]
    returned at least one decoder, the removal block removes the path of
    the string array, the rotator when there is one, and the path of
    every decoder, and adds exactly [2 + |decoders|] to [state.changes],
    with or without a rotator; the run then ends with the cleanup pass. *)
Theorem obfuscator_io_removes_decoder_infrastructure
    (ctx : ObfuscatorIO.context File Sandbox) (sb : Sandbox)
    (stringArray : StringArray) :
  ObfuscatorIO.sandbox ctx = Some sb ->
  findStringArray (ObfuscatorIO.ast ctx) = Some stringArray ->
  findDecoders stringArray <> [] ->
  let decoders := findDecoders stringArray in
  let before := before_removal sb stringArray ctx in
  let removal rotator :=
    ObfuscatorIO.remove_infrastructure stringArray_path remove stringArray
      rotator decoders before in
  (forall rotator,
      changes (ObfuscatorIO.state (removal rotator))
      = changes (ObfuscatorIO.state before) + (2 + length decoders))
  /\ ObfuscatorIO.ast (removal None)
     = ObfuscatorIO.remove_all remove
         (map ObfuscatorIO.decoder_path decoders)
         (remove (stringArray_path stringArray) (ObfuscatorIO.ast before))
  /\ (forall r,
        ObfuscatorIO.ast (removal (Some r))
        = ObfuscatorIO.remove_all remove
            (map ObfuscatorIO.decoder_path decoders)
            (remove r (remove (stringArray_path stringArray)
                         (ObfuscatorIO.ast before))))
  /\ run ctx
     = ObfuscatorIO.apply cleanup (removal (findArrayRotator stringArray)).
Proof.
  intros Hsb Hsa Hdec decoders before removal.
  assert (Hlen : (0 <? length decoders) = true).
  { apply Nat.ltb_lt. subst decoders.
    destruct (findDecoders stringArray); [congruence | simpl; lia]. }
  split; [|split; [|split]].
  - intros rotator. subst removal. cbv beta.
    unfold ObfuscatorIO.remove_infrastructure. rewrite Hlen. reflexivity.
  - subst removal. cbv beta.
    unfold ObfuscatorIO.remove_infrastructure. rewrite Hlen. reflexivity.
  - intros r. subst removal. cbv beta.
    unfold ObfuscatorIO.remove_infrastructure. rewrite Hlen. reflexivity.
  - subst run removal before before_removal decoders.
    unfold ObfuscatorIO.run. rewrite Hsb, Hsa. reflexivity.
Qed.

End ObfuscatorIOFacts.

Lemma obfuscator_io_noop_without_sandbox_or_array_witness :
  ObfuscatorIO.ast
    (ObfuscatorIO.toy_run
       (ObfuscatorIO.toy_context ["arr"; "dec1"; "main"] None))
  = ["arr"; "dec1"; "main"]
  /\ ObfuscatorIO.state
       (ObfuscatorIO.toy_run (ObfuscatorIO.toy_context ["main"] (Some tt)))
     = {| changes := 0 |}.
Proof.
  split.
  - refine (proj1 (obfuscator_io_noop_without_sandbox_or_array
              ObfuscatorIO.toy_name ObfuscatorIO.toy_name (fun _ => 0)
              ObfuscatorIO.toy_find ObfuscatorIO.toy_rotator _
              ObfuscatorIO.toy_identity (fun _ => ObfuscatorIO.toy_identity)
              (fun _ _ _ _ => ObfuscatorIO.toy_identity)
              ObfuscatorIO.toy_identity ObfuscatorIO.toy_remove
              (ObfuscatorIO.toy_context ["arr"; "dec1"; "main"] None) _)).
    left. reflexivity.
  - refine (proj1 (proj2 (obfuscator_io_noop_without_sandbox_or_array
              ObfuscatorIO.toy_name ObfuscatorIO.toy_name (fun _ => 0)
              ObfuscatorIO.toy_find ObfuscatorIO.toy_rotator _
              ObfuscatorIO.toy_identity (fun _ => ObfuscatorIO.toy_identity)
              (fun _ _ _ _ => ObfuscatorIO.toy_identity)
              ObfuscatorIO.toy_identity ObfuscatorIO.toy_remove
              (ObfuscatorIO.toy_context ["main"] (Some tt)) _))).
    right. vm_compute. reflexivity.
Defined.

(** Two decoders and no rotator: [2 + 2] changes, and only [main] stays. *)
Lemma obfuscator_io_removes_decoder_infrastructure_witness :
  ObfuscatorIO.toy_run
    (ObfuscatorIO.toy_context ["arr"; "dec1"; "dec2"; "main"] (Some tt))
  = {| ObfuscatorIO.ast := ["main"];
       ObfuscatorIO.state := {| changes := 4 |};
       ObfuscatorIO.sandbox := Some tt;
       ObfuscatorIO.logged :=
         [ ObfuscatorIO.LogStringArray (Some ("arr", 0));
           ObfuscatorIO.LogRotate false;
           ObfuscatorIO.LogDecoders ["dec1"; "dec2"] ] |}.
Proof.
  pose proof (obfuscator_io_removes_decoder_infrastructure
                ObfuscatorIO.toy_name ObfuscatorIO.toy_name (fun _ => 0)
                ObfuscatorIO.toy_find ObfuscatorIO.toy_rotator
                (fun sa => map (fun d => {| ObfuscatorIO.decoder_path := d;
                                            ObfuscatorIO.decoder_originalName := d |})
                             (ObfuscatorIO.toy_decoders sa))
                ObfuscatorIO.toy_identity (fun _ => ObfuscatorIO.toy_identity)
                (fun _ _ _ _ => ObfuscatorIO.toy_identity)
                ObfuscatorIO.toy_identity ObfuscatorIO.toy_remove
                (ObfuscatorIO.toy_context ["arr"; "dec1"; "dec2"; "main"] (Some tt))
                tt
                {| ObfuscatorIO.toy_name := "arr";
                   ObfuscatorIO.toy_rotator := None;
                   ObfuscatorIO.toy_decoders := ["dec1"; "dec2"] |}
                eq_refl) as H.
  assert (Hfind : ObfuscatorIO.toy_find ["arr"; "dec1"; "dec2"; "main"]
                  = Some {| ObfuscatorIO.toy_name := "arr";
                            ObfuscatorIO.toy_rotator := None;
                            ObfuscatorIO.toy_decoders := ["dec1"; "dec2"] |})
    by (vm_compute; reflexivity).
  specialize (H Hfind).
  assert (Hdec : map (fun d => {| ObfuscatorIO.decoder_path := d;
                                  ObfuscatorIO.decoder_originalName := d |})
                   ["dec1"; "dec2"] <> []) by discriminate.
  specialize (H Hdec).
  destruct H as (_ & _ & _ & Hrun).
  unfold ObfuscatorIO.toy_run. rewrite Hrun. vm_compute. reflexivity.
Defined.

(** *** Change-free runs of the obfuscator.io target *)

Section ObfuscatorIOFixedPoint.

Context {File Path Sandbox StringArray : Type}.
Variable stringArray_path : StringArray -> Path.
Variable stringArray_originalName : StringArray -> string.
Variable stringArray_length : StringArray -> nat.
Variable findStringArray : File -> option StringArray.
Variable findArrayRotator : StringArray -> option Path.
Variable findDecoders : StringArray -> list (ObfuscatorIO.Decoder Path).
Variable inlineObjectProps : File -> File * nat.
Variable inlineDecoderWrappers : Path -> File -> File * nat.
Variable inlineDecodedStrings :
  Sandbox -> StringArray -> list (ObfuscatorIO.Decoder Path) -> option Path ->
  File -> File * nat.
Variable cleanup : File -> File * nat.
Variable remove : Path -> File -> File.

Hypothesis inlineObjectProps_counts :
  ObfuscatorIO.counts_changes inlineObjectProps.
Hypothesis inlineDecoderWrappers_counts :
  forall p, ObfuscatorIO.counts_changes (inlineDecoderWrappers p).
Hypothesis inlineDecodedStrings_counts :
  forall sb sa ds r,
    ObfuscatorIO.counts_changes (inlineDecodedStrings sb sa ds r).
Hypothesis cleanup_counts : ObfuscatorIO.counts_changes cleanup.

Let context := ObfuscatorIO.context File Sandbox.

Let run : context -> context :=
  ObfuscatorIO.run stringArray_path stringArray_originalName
    stringArray_length findStringArray findArrayRotator findDecoders
    inlineObjectProps inlineDecoderWrappers inlineDecodedStrings cleanup
    remove.

(** [ctx'] comes from [ctx] by steps that count their changes. *)
Let counted (ctx ctx' : context) : Prop :=
  ObfuscatorIO.sandbox ctx' = ObfuscatorIO.sandbox ctx
  /\ changes (ObfuscatorIO.state ctx) <= changes (ObfuscatorIO.state ctx')
  /\ (changes (ObfuscatorIO.state ctx') = changes (ObfuscatorIO.state ctx) ->
      ObfuscatorIO.ast ctx' = ObfuscatorIO.ast ctx).

Lemma counted_trans (a b c : context) : counted a b -> counted b c -> counted a c.
Proof.
  intros (S1 & M1 & E1) (S2 & M2 & E2).
  split; [congruence|]. split; [lia|].
  intros H. rewrite E2 by lia. apply E1. lia.
Qed.

Lemma counted_log (line : ObfuscatorIO.log_line) (ctx : context) :
  counted ctx (ObfuscatorIO.log line ctx).
Proof. split; [reflexivity|]. split; simpl; [lia | reflexivity]. Qed.

Lemma counted_apply (t : File -> File * nat) (ctx : context) :
  ObfuscatorIO.counts_changes t -> counted ctx (ObfuscatorIO.apply t ctx).
Proof.
  intros Ht. unfold ObfuscatorIO.apply. specialize (Ht (ObfuscatorIO.ast ctx)).
  destruct (t (ObfuscatorIO.ast ctx)) as [tree n].
  split; [reflexivity|]. split; simpl in *; [lia|].
  intros H. apply Ht. lia.
Qed.

Lemma counted_wrappers (decoders : list (ObfuscatorIO.Decoder Path))
    (ctx : context) :
  counted ctx
    (fold_left
       (fun ctx decoder =>
          ObfuscatorIO.apply
            (inlineDecoderWrappers (ObfuscatorIO.decoder_path decoder)) ctx)
       decoders ctx).
Proof.
  revert ctx. induction decoders as [|d ds IH]; intros ctx; simpl.
  - split; [reflexivity|]. split; [lia | reflexivity].
  - eapply counted_trans; [|apply IH].
    apply counted_apply, inlineDecoderWrappers_counts.
Qed.

Lemma counted_removal (sa : StringArray) (rotator : option Path)
    (decoders : list (ObfuscatorIO.Decoder Path)) (ctx : context) :
  counted ctx
    (ObfuscatorIO.remove_infrastructure stringArray_path remove sa rotator
       decoders ctx).
Proof.
  unfold ObfuscatorIO.remove_infrastructure.
  destruct (0 <? length decoders); (split; [reflexivity|]);
    split; simpl; try lia; reflexivity.
Qed.

Lemma counted_run (ctx : context) : counted ctx (run ctx).
Proof.
  subst run. unfold ObfuscatorIO.run.
  destruct (ObfuscatorIO.sandbox ctx) as [sb|];
    [|split; [reflexivity|]; split; [lia | reflexivity]].
  destruct (findStringArray (ObfuscatorIO.ast ctx)) as [sa|];
    [|apply counted_log].
  eapply counted_trans; [|apply counted_apply, cleanup_counts].
  eapply counted_trans; [|apply counted_removal].
  unfold ObfuscatorIO.before_removal.
  eapply counted_trans; [|apply counted_apply, inlineDecodedStrings_counts].
  eapply counted_trans; [|apply counted_wrappers].
  eapply counted_trans; [|apply counted_apply, inlineObjectProps_counts].
  eapply counted_trans; [|apply counted_log].
  eapply counted_trans; [|apply counted_log].
  apply counted_log.
Qed.

(** A run of the obfuscator.io target that adds nothing to
    [state.changes] has left the tree as it was, as long as the
    transforms the target imports count their changes. *)
Lemma obfuscator_io_change_free_run_leaves_tree (ctx : context) :
  changes (ObfuscatorIO.state (run ctx)) = changes (ObfuscatorIO.state ctx) ->
  ObfuscatorIO.ast (run ctx) = ObfuscatorIO.ast ctx.
Proof.
  intros Hfree. destruct (counted_run ctx) as (_ & _ & Hsame).
  exact (Hsame Hfree).
Qed.

End ObfuscatorIOFixedPoint.

(** ** Registry and runner *)

Section RunnerFacts.

Context {File Sandbox Transform : Type}.
Variable applyTransforms : list Transform -> File -> File * nat.

Let detected := Runner.detected File Sandbox Transform.

Lemma insert_by_confidence_Forall (P : detected -> Prop) (d : detected)
    (l : list detected) :
  P d -> Forall P l -> Forall P (Runner.insert_by_confidence d l).
Proof.
  intros Hd Hl. induction Hl as [|x l Hx Hl IH]; simpl.
  - apply Forall_cons; split; [assumption | apply Forall_nil; exact I].
  - destruct (Qle_bool _ _).
    + repeat (apply Forall_cons; split; try assumption).
    + apply Forall_cons; split; assumption.
Qed.

Lemma insert_by_confidence_descending (d : detected) (l : list detected) :
  Runner.descending l -> Runner.descending (Runner.insert_by_confidence d l).
Proof.
  induction l as [|x l IH]; intros Hdesc; simpl.
  - split; [apply Forall_nil; exact I | exact I].
  - destruct Hdesc as [Hx Hl]. specialize (IH Hl).
    destruct (Qle_bool (Runner.result_confidence x) (Runner.result_confidence d))
      eqn:Hle.
    + apply Qle_bool_iff in Hle.
      split; [|split; assumption].
      apply Forall_cons; split; [exact Hle|].
      eapply Forall_impl; [exact Hx|].
      intros d' Hd'. simpl in Hd'. eapply Qle_trans; eassumption.
    + assert (Hlt : (Runner.result_confidence d < Runner.result_confidence x)%Q).
      { apply Qnot_le_lt. intros Hc. apply Qle_bool_iff in Hc. congruence. }
      split; [|exact IH].
      apply insert_by_confidence_Forall; [|exact Hx].
      apply Qlt_le_weak. exact Hlt.
Qed.

Lemma sort_by_confidence_descending (l : list detected) :
  Runner.descending (Runner.sort_by_confidence l).
Proof.
  induction l as [|d l IH]; simpl; [exact I|].
  apply insert_by_confidence_descending. exact IH.
Qed.

(** C9 (target resolution).  An explicit id other than ['auto'] that is
    not registered makes the run fail with the unknown-target error.  In
    auto mode ([target] absent, [true] or ['auto']) the first entry of the
    detection list has the highest confidence of all detected targets and
    is selected when that confidence is at least the threshold (0.3 when
    the option is absent); otherwise the registered default is selected;
    and when nothing is selected the run touches nothing and returns a
    state with zero changes. *)
Theorem run_deobfuscation_resolves_target
    (r : Runner.DeobfuscatorRegistry File Sandbox Transform) (ast : File)
    (options : Runner.DeobfuscateRunnerOptions Sandbox) :
  (forall id,
      Runner.target options = Some (Runner.TargetString id) ->
      id <> "auto" ->
      Runner.get r id = None ->
      Runner.runDeobfuscation applyTransforms r ast options
      = inl (Runner.UnknownTargetError id (Runner.list_ids r)))
  /\ (Runner.is_auto (default (Runner.TargetBool true) (Runner.target options))
      = true ->
      let threshold := default (3 # 10)%Q (Runner.threshold options) in
      match Runner.registry_detect r ast with
      | best :: others =>
          Forall (fun d => (Runner.result_confidence d
                            <= Runner.result_confidence best)%Q) others
          /\ ((threshold <= Runner.result_confidence best)%Q ->
              Runner.resolveTarget r ast options
              = inr (Some (Runner.detected_target best)))
          /\ (~ (threshold <= Runner.result_confidence best)%Q ->
              Runner.resolveTarget r ast options = inr (Runner.getDefault r))
      | [] => Runner.resolveTarget r ast options = inr (Runner.getDefault r)
      end)
  /\ (Runner.resolveTarget r ast options = inr None ->
      Runner.runDeobfuscation applyTransforms r ast options
      = inr (ast, {| changes := 0 |})).
Proof.
  split; [|split].
  - intros id Htarget Hauto Hget.
    unfold Runner.runDeobfuscation, Runner.resolveTarget.
    rewrite Htarget.
    assert (E : String.eqb id "auto" = false)
      by (apply String.eqb_neq; assumption).
    unfold default, from_option, Datatypes.id. rewrite E. simpl negb. cbv iota.
    rewrite Hget. reflexivity.
  - intros Hauto threshold.
    pose proof (sort_by_confidence_descending
                  (flat_map (fun kv => Runner.detect_one ast kv.2)
                     (Runner.targets r))) as Hsorted.
    fold (Runner.registry_detect r ast) in Hsorted.
    assert (Hres : Runner.resolveTarget r ast options
      = match Runner.registry_detect r ast with
        | d :: _ =>
            if Qle_bool threshold (Runner.result_confidence d)
            then inr (Some (Runner.detected_target d))
            else inr (Runner.getDefault r)
        | [] => inr (Runner.getDefault r)
        end).
    { unfold Runner.resolveTarget. fold threshold.
      destruct (default (Runner.TargetBool true) (Runner.target options))
        as [[|]|id]; simpl in Hauto; try discriminate; [reflexivity|].
      rewrite Hauto. reflexivity. }
    rewrite Hres.
    destruct (Runner.registry_detect r ast) as [|best others]; [reflexivity|].
    destruct Hsorted as [Hmax _].
    split; [exact Hmax|]. split.
    + intros Hle. apply Qle_bool_iff in Hle. rewrite Hle. reflexivity.
    + intros Hnle.
      destruct (Qle_bool threshold (Runner.result_confidence best)) eqn:E;
        [|reflexivity].
      apply Qle_bool_iff in E. contradiction.
  - intros Hnone. unfold Runner.runDeobfuscation. rewrite Hnone. reflexivity.
Qed.

End RunnerFacts.

Example builtin_registry_ids :
  Runner.list_ids Runner.builtin_registry = ["obfuscator.io"; "abba"].
Proof. reflexivity. Qed.

(** On the built-in registry: an unknown id fails; a tree with a string
    array is detected with confidence 0.5 >= 0.3. *)
Lemma run_deobfuscation_resolves_target_witness :
  Runner.runDeobfuscation (fun _ ast => (ast, 0)) Runner.builtin_registry true
    (Runner.options_for (Some (Runner.TargetString "cloudflare")))
  = inl (Runner.UnknownTargetError "cloudflare" ["obfuscator.io"; "abba"])
  /\ Runner.resolveTarget Runner.builtin_registry true
       (Runner.options_for (Some (Runner.TargetString "auto")))
     = inr (Some Runner.obfuscatorIO).
Proof.
  pose proof (run_deobfuscation_resolves_target (fun _ ast => (ast, 0))
                Runner.builtin_registry true
                (Runner.options_for (Some (Runner.TargetString "cloudflare"))))
    as [Hunknown _].
  pose proof (run_deobfuscation_resolves_target (fun _ ast => (ast, 0))
                Runner.builtin_registry true
                (Runner.options_for (Some (Runner.TargetString "auto"))))
    as (_ & Hauto & _).
  split.
  - apply Hunknown; [reflexivity | discriminate | reflexivity].
  - specialize (Hauto eq_refl). simpl in Hauto.
    destruct Hauto as (_ & Hsel & _). apply Hsel.
    unfold Qle. simpl. lia.
Defined.

(** ** The Abba pipeline on programs *)

Lemma node_ind' (P : node -> Prop) :
  (forall k cs, Forall P cs -> P (Node k cs)) -> forall n, P n.
Proof.
  intros H. fix IH 1. intros [k cs]. apply H.
  induction cs as [|c cs IHcs].
  - apply Forall_nil. exact I.
  - apply Forall_cons. split; [apply IH | exact IHcs].
Qed.

Lemma fill_all_present (slots : nat) (cs : list node) :
  Traverse.fill slots (map Some cs) = cs.
Proof.
  revert slots. induction cs as [|c cs IH]; intros slots; simpl;
    [reflexivity | rewrite IH; reflexivity].
Qed.

Lemma rebuild_all_present (k : kind) (cs : list node) :
  Traverse.rebuild k (map Some cs) = Traverse.Built (Node k cs).
Proof.
  unfold Traverse.rebuild.
  destruct k; try (rewrite fill_all_present; reflexivity);
    destruct cs as [|c1 [|c2 [|c3 cs]]]; simpl;
    rewrite ?fill_all_present; reflexivity.
Qed.

Section CountingFacts.

Context {S : Type}.
Variable count : S -> nat.
Variable clean : S -> Prop.
Variable enter : Traverse.context -> node -> S -> Traverse.entered * S.
Variable exit_ : Traverse.context -> node -> S -> option node * S.
Hypothesis Henter : Traverse.enter_counts count clean enter.
Hypothesis Hexit : Traverse.exit_counts count clean exit_.

(** What the visit of one node has to satisfy. *)
Let visit_counts (c : node) (visit : node -> S -> option node * S) : Prop :=
  forall s,
    count s <= count (visit c s).2
    /\ (clean s -> count (visit c s).2 = count s ->
        (visit c s).1 = Some c /\ clean (visit c s).2).

Lemma walk_children_monotone
    (visit : nat -> node -> S -> option node * S)
    (fresh : nat -> option node) (l : list node) :
  Forall (fun c => forall i, visit_counts c (visit i)) l ->
  forall i s, count s <= count (Traverse.walk_children visit fresh i l s).2.
Proof.
  induction 1 as [|c l Hc Hl IH]; intros i s; simpl; [lia|].
  destruct (fresh i) as [f|].
  - specialize (IH (Datatypes.S i) s).
    destruct (Traverse.walk_children visit fresh (Datatypes.S i) l s).
    exact IH.
  - pose proof (proj1 (Hc i s)) as H1.
    destruct (visit i c s) as [c' s'] eqn:E. simpl in H1.
    specialize (IH (Datatypes.S i) s').
    destruct (Traverse.walk_children visit fresh (Datatypes.S i) l s').
    simpl in *. lia.
Qed.

Lemma walk_children_untouched
    (visit : nat -> node -> S -> option node * S) (l : list node) :
  Forall (fun c => forall i, visit_counts c (visit i)) l ->
  forall i s,
    clean s ->
    count (Traverse.walk_children visit Traverse.no_fresh i l s).2 = count s ->
    (Traverse.walk_children visit Traverse.no_fresh i l s).1 = map Some l
    /\ clean (Traverse.walk_children visit Traverse.no_fresh i l s).2.
Proof.
  induction 1 as [|c l Hc Hl IH]; intros i s Hclean Hcount; simpl in *;
    [split; [reflexivity | assumption]|].
  pose proof (walk_children_monotone visit Traverse.no_fresh l Hl) as Hmono.
  destruct (Hc i s) as [H1 H2].
  destruct (visit i c s) as [c' s'] eqn:E. simpl in H1, H2.
  specialize (Hmono (Datatypes.S i) s').
  specialize (IH (Datatypes.S i) s').
  destruct (Traverse.walk_children visit Traverse.no_fresh (Datatypes.S i) l s')
    as [r s''] eqn:E'.
  simpl in *.
  assert (Hs' : count s' = count s) by lia.
  destruct (H2 Hclean Hs') as [-> Hclean'].
  destruct (IH Hclean' ltac:(lia)) as [-> Hclean''].
  split; [reflexivity | assumption].
Qed.

Lemma leave_monotone (ctx : Traverse.context) (k : kind)
    (cs' : list (option node)) (s : S) :
  count s <= count (Traverse.leave exit_ ctx k (cs', s)).2.
Proof.
  unfold Traverse.leave.
  destruct (Traverse.rebuild k cs') as [|n'|n']; simpl; try lia.
  pose proof (proj1 (Hexit ctx n' s)) as H.
  destruct (exit_ ctx n' s) as [[r|] s3]; simpl in *; lia.
Qed.

Lemma leave_untouched (ctx : Traverse.context) (k : kind) (cs : list node)
    (s : S) :
  clean s ->
  count (Traverse.leave exit_ ctx k (map Some cs, s)).2 = count s ->
  (Traverse.leave exit_ ctx k (map Some cs, s)).1 = Some (Node k cs)
  /\ clean (Traverse.leave exit_ ctx k (map Some cs, s)).2.
Proof.
  unfold Traverse.leave. rewrite rebuild_all_present.
  intros Hclean Hcount.
  destruct (Hexit ctx (Node k cs) s) as [_ H].
  destruct (exit_ ctx (Node k cs) s) as [[r|] s3]; simpl in *.
  - destruct (H Hclean Hcount) as [Hr _]. discriminate.
  - destruct (H Hclean Hcount) as [_ Hc]. split; [reflexivity | assumption].
Qed.

(** A visitor that counts its changes leaves a tree it reports no change
    for exactly as it was. *)
Lemma traverse_counts (n : node) :
  forall loc outer s,
    count s <= count (Traverse.traverse enter exit_ loc outer n s).2
    /\ (clean s ->
        count (Traverse.traverse enter exit_ loc outer n s).2 = count s ->
        (Traverse.traverse enter exit_ loc outer n s).1 = Some n
        /\ clean (Traverse.traverse enter exit_ loc outer n s).2).
Proof.
  induction n as [k cs IH] using node_ind'. intros loc outer s.
  simpl.
  set (scopes := Traverse.scopes_at loc outer (Node k cs)).
  set (ctx := {| Traverse.location := loc; Traverse.scopes := scopes |}).
  set (visit := fun (i : nat) (c : node) (s : S) =>
                  Traverse.traverse enter exit_ (loc ++ [i]) scopes c s).
  assert (Hvisit : Forall (fun c => forall i, visit_counts c (visit i)) cs).
  { eapply Forall_impl; [exact IH|].
    intros c Hc i s0. exact (Hc (loc ++ [i]) scopes s0). }
  destruct (Henter ctx (Node k cs) s) as [Hm Hid].
  destruct (enter ctx (Node k cs) s) as [[| |k' fresh] s1] eqn:E;
    simpl in Hm, Hid.
  - (* Continue *)
    pose proof (walk_children_monotone visit Traverse.no_fresh cs Hvisit 0 s1)
      as Hw.
    pose proof (walk_children_untouched visit cs Hvisit 0 s1) as Hu.
    destruct (Traverse.walk_children visit Traverse.no_fresh 0 cs s1)
      as [cs' s2] eqn:Ew. simpl in Hw, Hu.
    pose proof (leave_monotone ctx k cs' s2) as Hl.
    split; [lia|].
    intros Hclean Hcount.
    destruct (Hid Hclean ltac:(lia)) as [_ Hclean1].
    destruct (Hu Hclean1 ltac:(lia)) as [-> Hclean2].
    apply leave_untouched; [assumption | lia].
  - (* Removed *)
    simpl. split; [lia|].
    intros Hclean Hcount. destruct (Hid Hclean Hcount) as [Hr _]. discriminate.
  - (* Rewrite *)
    pose proof (walk_children_monotone visit fresh cs Hvisit 0 s1) as Hw.
    destruct (Traverse.walk_children visit fresh 0 cs s1) as [cs' s2] eqn:Ew.
    simpl in Hw.
    pose proof (leave_monotone ctx k' cs' s2) as Hl.
    split; [lia|].
    intros Hclean Hcount.
    destruct (Hid Hclean ltac:(lia)) as [Hr _]. discriminate.
Qed.

Lemma traverse_program_counts (ast : node) (s : S) :
  clean s ->
  count (Traverse.traverse_program enter exit_ ast s).2 = count s ->
  (Traverse.traverse_program enter exit_ ast s).1 = ast.
Proof.
  intros Hclean. unfold Traverse.traverse_program.
  destruct (traverse_counts ast [] [] s) as [_ H].
  destruct (Traverse.traverse enter exit_ [] [] ast s) as [[ast'|] s'];
    simpl in *; intros Hcount; destruct (H Hclean Hcount) as [Hr _];
    congruence.
Qed.

End CountingFacts.

(** *** Every transform of the pipeline counts its changes *)

Lemma no_exit_counts {S : Type} (count : S -> nat) (clean : S -> Prop) :
  Traverse.exit_counts count clean Abba.no_exit.
Proof. intros ctx n s. simpl. split; [lia | intros; split; [reflexivity | assumption]]. Qed.

Section ExtractorCounts.

Context {value Host : Type}.
Variable undefined : value.
Variable asArray : value -> option (list value).
Variable String_ : value -> option string.
Variable generate : node -> string.
Variable createSandbox : gmap string value.
Variable executeInSandbox :
  string -> gmap string value -> Host -> Extractor.outcome value * Host.

Lemma extractor_visit_counts (n : node) (c : nat) (h : Host) :
  c <= (Extractor.visit_VariableDeclarator undefined asArray String_ generate
          createSandbox executeInSandbox n c h).1.2.
Proof.
  unfold Extractor.visit_VariableDeclarator.
  repeat match goal with
         | |- context [match ?x with _ => _ end] => destruct x; simpl; try lia
         end.
Qed.

Lemma extractor_enter_counts :
  Traverse.enter_counts (fun s : nat * Host => s.1) Traverse.always
    (Abba.extractor_enter undefined asArray String_ generate createSandbox
       executeInSandbox).
Proof.
  intros ctx n [c h]. unfold Abba.extractor_enter.
  destruct (type_of n); simpl;
    try (split; [lia | intros; split; [reflexivity | exact I]]).
  pose proof (extractor_visit_counts n c h) as Hm.
  destruct (Extractor.visit_VariableDeclarator _ _ _ _ _ _ n c h)
    as [[[k' cs'] c'] h'].
  simpl in Hm.
  destruct cs' as [|x [|init' [|? ?]]]; simpl;
    try (split; [lia | intros; split; [reflexivity | exact I]]).
  destruct (c' =? c) eqn:E; simpl.
  - split; [lia | intros; split; [reflexivity | exact I]].
  - apply Nat.eqb_neq in E. split; [lia | intros _ Hc; congruence].
Qed.

Lemma stringArrayExtractor_counts (host : Host) (ast : node) :
  (Abba.stringArrayExtractor undefined asArray String_ generate createSandbox
     executeInSandbox host ast).2 = 0 ->
  (Abba.stringArrayExtractor undefined asArray String_ generate createSandbox
     executeInSandbox host ast).1 = ast.
Proof.
  unfold Abba.stringArrayExtractor.
  pose proof (traverse_program_counts (fun s : nat * Host => s.1)
                Traverse.always _ _ extractor_enter_counts
                (no_exit_counts _ _) ast (0, host) I) as H.
  destruct (Traverse.traverse_program _ _ ast (0, host)) as [ast' [c h']].
  simpl in *. exact H.
Qed.

End ExtractorCounts.

Lemma rotator_visit_counts (getBinding : string -> option node) (n : node)
    (c : nat) :
  (Rotator.removed (Rotator.visit_CallExpression getBinding n c).1 = false
   /\ (Rotator.visit_CallExpression getBinding n c).2 = c)
  \/ (Rotator.removed (Rotator.visit_CallExpression getBinding n c).1 = true
      /\ (Rotator.visit_CallExpression getBinding n c).2 = S c).
Proof.
  unfold Rotator.visit_CallExpression.
  handler_cases; simpl; auto.
Qed.

Lemma rotator_enter_counts :
  Traverse.enter_counts Abba.rotator_changes (fun s => Abba.written s = [])
    Abba.rotator_enter.
Proof.
  intros ctx n s. unfold Abba.rotator_enter.
  destruct (type_of n); simpl;
    try (split; [lia | intros; split; [reflexivity | assumption]]).
  pose proof (rotator_visit_counts
                (Abba.current_binding (Abba.written s) (Traverse.scopes ctx))
                n (Abba.rotator_changes s)) as Hv.
  destruct (Rotator.visit_CallExpression _ n (Abba.rotator_changes s))
    as [eff c']. simpl in Hv.
  destruct Hv as [[-> ->] | [-> ->]]; simpl.
  - split; [lia | intros; split; [reflexivity | assumption]].
  - split; [lia | intros; lia].
Qed.

Lemma rotator_exit_counts :
  Traverse.exit_counts Abba.rotator_changes (fun s => Abba.written s = [])
    Abba.rotator_exit.
Proof.
  intros ctx n s. unfold Abba.rotator_exit.
  destruct (Traverse.is_scope (type_of n)); simpl;
    [|split; [lia | intros; split; [reflexivity | assumption]]].
  destruct (List.filter _ (Abba.written s)) as [|e w] eqn:E; simpl.
  - split; [lia | intros; split; [reflexivity | assumption]].
  - split; [lia|]. intros Hclean _. rewrite Hclean in E. discriminate.
Qed.

Lemma stringArrayRotator_counts (ast : node) :
  (Abba.stringArrayRotator ast).2 = 0 -> (Abba.stringArrayRotator ast).1 = ast.
Proof.
  unfold Abba.stringArrayRotator.
  pose proof (traverse_program_counts Abba.rotator_changes
                (fun s => Abba.written s = []) _ _ rotator_enter_counts
                rotator_exit_counts ast
                {| Abba.rotator_changes := 0; Abba.written := [] |} eq_refl)
    as H.
  destruct (Traverse.traverse_program Abba.rotator_enter Abba.rotator_exit ast _)
    as [ast' s]. simpl in *. exact H.
Qed.

Lemma exit_CallExpression_counts {Path : Type} (n : node)
    (st : ProxyInliner.state Path) (c : nat) :
  ProxyInliner.exit_CallExpression n st c = (None, c)
  \/ exists r, ProxyInliner.exit_CallExpression n st c = (Some r, S c).
Proof.
  unfold ProxyInliner.exit_CallExpression.
  handler_cases; eauto.
Qed.

Lemma exit_Program_counts {Path : Type} (st : ProxyInliner.state Path) (c : nat) :
  ProxyInliner.exit_Program st c = (None, c)
  \/ exists p, ProxyInliner.exit_Program st c = (Some p, S c).
Proof.
  unfold ProxyInliner.exit_Program.
  destruct (ProxyInliner.proxyPath st); [|eauto].
  destruct (ProxyInliner.truthy _); eauto.
Qed.

Lemma proxy_enter_counts :
  Traverse.enter_counts (fun s : Abba.proxy_state => s.2) Traverse.always Abba.proxy_enter.
Proof.
  intros ctx n [st c]. unfold Abba.proxy_enter.
  destruct (type_of n); simpl;
    split; try lia; intros; split; try reflexivity; exact I.
Qed.

Lemma proxy_exit_counts :
  Traverse.exit_counts (fun s : Abba.proxy_state => s.2) Traverse.always Abba.proxy_exit.
Proof.
  intros ctx n [st c]. unfold Abba.proxy_exit.
  destruct (type_of n); simpl;
    try (split; [lia | intros; split; [reflexivity | exact I]]).
  - destruct (exit_CallExpression_counts n st c) as [E | [r E]]; rewrite E; simpl.
    + split; [lia | intros; split; [reflexivity | exact I]].
    + split; [lia | intros; lia].
  - destruct (exit_Program_counts st c) as [E | [p E]]; rewrite E; simpl.
    + split; [lia | intros; split; [reflexivity | exact I]].
    + split; [lia | intros; lia].
Qed.

Lemma proxyInliner_counts (ast : node) :
  (Abba.proxyInliner ast).2 = 0 -> (Abba.proxyInliner ast).1 = ast.
Proof.
  unfold Abba.proxyInliner.
  pose proof (traverse_program_counts (fun s : Abba.proxy_state => s.2) Traverse.always
                _ _ proxy_enter_counts proxy_exit_counts ast
                (ProxyInliner.initial, 0) I) as H.
  destruct (Traverse.traverse_program Abba.proxy_enter Abba.proxy_exit ast _)
    as [ast' [st c]]. simpl in *. exact H.
Qed.

Lemma normalizer_enter_counts :
  Traverse.enter_counts (fun c : nat => c) Traverse.always Abba.normalizer_enter.
Proof.
  intros ctx n c. unfold Abba.normalizer_enter.
  destruct (type_of n) as
    [ | | v [|] | v [|] | | | | | | | | | | | | | | | | | | | | | | | | | | ];
    simpl; split; try lia; intros; try lia; split; try reflexivity; exact I.
Qed.

Lemma stringNormalizer_counts (ast : node) :
  (Abba.stringNormalizer ast).2 = 0 -> (Abba.stringNormalizer ast).1 = ast.
Proof.
  unfold Abba.stringNormalizer. intros H.
  apply (traverse_program_counts (fun c : nat => c) Traverse.always _ _
           normalizer_enter_counts (no_exit_counts _ _) ast 0 I H).
Qed.

Lemma simplifier_enter_counts (isValidIdentifier : string -> bool -> bool) :
  Traverse.enter_counts (fun c : nat => c) Traverse.always
    (Abba.simplifier_enter isValidIdentifier).
Proof.
  intros ctx n c. unfold Abba.simplifier_enter.
  handler_cases; simpl; split; try lia; intros; try lia;
    split; try reflexivity; exact I.
Qed.

Lemma memberExpressionSimplifier_counts
    (isValidIdentifier : string -> bool -> bool) (ast : node) :
  (Abba.memberExpressionSimplifier isValidIdentifier ast).2 = 0 ->
  (Abba.memberExpressionSimplifier isValidIdentifier ast).1 = ast.
Proof.
  unfold Abba.memberExpressionSimplifier. intros H.
  apply (traverse_program_counts (fun c : nat => c) Traverse.always _ _
           (simplifier_enter_counts isValidIdentifier) (no_exit_counts _ _)
           ast 0 I H).
Qed.

Lemma resolver_enter_counts :
  Traverse.enter_counts Abba.resolver_changes Traverse.always Abba.resolver_enter.
Proof.
  intros ctx n s. unfold Abba.resolver_enter.
  handler_cases; simpl; split; try lia; intros; split; try reflexivity; exact I.
Qed.

Lemma resolver_exit_counts :
  Traverse.exit_counts Abba.resolver_changes Traverse.always Abba.resolver_exit.
Proof.
  intros ctx n s. unfold Abba.resolver_exit.
  handler_cases; simpl; split; try lia; intros; try lia;
    split; try reflexivity; exact I.
Qed.

Lemma moduleResolver_counts (ast : node) :
  (Abba.moduleResolver ast).2 = 0 -> (Abba.moduleResolver ast).1 = ast.
Proof.
  unfold Abba.moduleResolver.
  pose proof (traverse_program_counts Abba.resolver_changes Traverse.always _ _
                resolver_enter_counts resolver_exit_counts ast
                {| Abba.loaderName := ""; Abba.loaderPath := None;
                   Abba.registryName := ""; Abba.resolver_changes := 0 |} I)
    as H.
  destruct (Traverse.traverse_program Abba.resolver_enter Abba.resolver_exit ast _)
    as [ast' s]. simpl in *. exact H.
Qed.

(** *** The target *)

Lemma step_counts (label : string) (t : node -> node * nat)
    (acc : node * TransformState * list (string * nat)) :
  (forall ast, (t ast).2 = 0 -> (t ast).1 = ast) ->
  changes acc.1.2 <= changes (Abba.step label t acc).1.2
  /\ (changes (Abba.step label t acc).1.2 = changes acc.1.2 ->
      (Abba.step label t acc).1.1 = acc.1.1).
Proof.
  intros Ht. destruct acc as [[ast state] logged]. unfold Abba.step.
  specialize (Ht ast). destruct (t ast) as [ast' n]. simpl in *.
  split; [lia|]. intros H. apply Ht. lia.
Qed.

(** Scenario 3 on a program: the array is rotated in the declaration and
    the IIFE statement is gone. *)
Example rotator_on_program :
  Abba.stringArrayRotator
    (Program [ VariableDeclaration [Rotator.scenario_array Rotator.four_strings];
               ExpressionStatement Rotator.scenario_iife ])
  = (Program
       [ VariableDeclaration
           [ Rotator.scenario_array
               [ StringLiteral "four" true; StringLiteral "one" true;
                 StringLiteral "two" true; StringLiteral "three" true ] ] ],
     1).
Proof. vm_compute. reflexivity. Qed.


(** The same on scenario 5: the member expressions the module resolver
    builds in the first run are simplified by the second. *)
Example abba_second_run_simplifies_resolved_modules :
  changes (Abba.toy_run (Abba.toy_run Abba.loader_program Abba.fresh_state).1.1
             Abba.fresh_state).1.2 = 4.
Proof. vm_compute. reflexivity. Qed.

(** A run that reports no change need not be followed by one: the IIFE
    of [var _0x3 = (function(a,b){return Date.now() % 2 ? ["late"] : undefined;}(this,"B"));]
    answers by the clock.  The run that starts at an even time reports
    nothing and leaves the tree as it was; the run after it, on the same
    tree, extracts the array. *)
Example abba_second_run_depends_on_the_host :
  let program := Program [VariableDeclaration [Extractor.clock_declarator]] in
  Abba.toy_run_at 0 program Abba.fresh_state
  = (program, {| changes := 0 |},
     [ ("String Array Extractor", 0); ("String Array Rotator", 0);
       ("Proxy Inliner", 0); ("String Normalizer", 0);
       ("Member Expression Simplifier", 0); ("Module Resolver", 0) ])
  /\ (Abba.toy_run_at 1 program Abba.fresh_state).2
     = [ ("String Array Extractor", 1); ("String Array Rotator", 0);
         ("Proxy Inliner", 0); ("String Normalizer", 0);
         ("Member Expression Simplifier", 0); ("Module Resolver", 0) ].
Proof. vm_compute. split; reflexivity. Qed.

Section AbbaRuns.

Context {value Host : Type}.
Variable undefined : value.
Variable asArray : value -> option (list value).
Variable String_ : value -> option string.
Variable generate : node -> string.
Variable createSandbox : gmap string value.
Variable executeInSandbox :
  string -> gmap string value -> Host -> Extractor.outcome value * Host.
Variable isValidIdentifier : string -> bool -> bool.

Let extractor (host : Host) : node -> node * nat :=
  Abba.stringArrayExtractor undefined asArray String_ generate createSandbox
    executeInSandbox host.

Let run (host : Host) :=
  Abba.run undefined asArray String_ generate createSandbox executeInSandbox
    isValidIdentifier host.

(** The five steps after the extractor, which read nothing but the tree,
    have nothing to do on [ast]. *)
Let settled (ast : node) : Prop :=
  (Abba.stringArrayRotator ast).2 = 0
  /\ (Abba.proxyInliner ast).2 = 0
  /\ (Abba.stringNormalizer ast).2 = 0
  /\ (Abba.memberExpressionSimplifier isValidIdentifier ast).2 = 0
  /\ (Abba.moduleResolver ast).2 = 0.

(** A run of the Abba pipeline reports no change exactly when none of its
    steps has anything to do on the tree it is given, and then it returns
    that tree. *)
Lemma abba_change_free_run (host : Host) (ast : node) :
  (changes (run host ast Abba.fresh_state).1.2 = 0
   <-> (extractor host ast).2 = 0 /\ settled ast)
  /\ (changes (run host ast Abba.fresh_state).1.2 = 0 ->
      (run host ast Abba.fresh_state).1.1 = ast).
Proof.
  subst run extractor settled. cbv beta. unfold Abba.run, Abba.step.
  pose proof (stringArrayExtractor_counts undefined asArray String_ generate
                createSandbox executeInSandbox host ast) as C1.
  destruct (Abba.stringArrayExtractor _ _ _ _ _ _ host ast) as [a1 n1].
  pose proof (stringArrayRotator_counts ast) as C2.
  pose proof (proxyInliner_counts ast) as C3.
  pose proof (stringNormalizer_counts ast) as C4.
  pose proof (memberExpressionSimplifier_counts isValidIdentifier ast) as C5.
  pose proof (moduleResolver_counts ast) as C6.
  simpl in C1.
  destruct (Nat.eq_dec n1 0) as [->|Hn1].
  - rewrite (C1 eq_refl).
    destruct (Abba.stringArrayRotator ast) as [a2 n2]. simpl in C2.
    destruct (Nat.eq_dec n2 0) as [->|Hn2].
    + rewrite (C2 eq_refl).
      destruct (Abba.proxyInliner ast) as [a3 n3]. simpl in C3.
      destruct (Nat.eq_dec n3 0) as [->|Hn3].
      * rewrite (C3 eq_refl).
        destruct (Abba.stringNormalizer ast) as [a4 n4]. simpl in C4.
        destruct (Nat.eq_dec n4 0) as [->|Hn4].
        -- rewrite (C4 eq_refl).
           destruct (Abba.memberExpressionSimplifier isValidIdentifier ast)
             as [a5 n5]. simpl in C5.
           destruct (Nat.eq_dec n5 0) as [->|Hn5].
           ++ rewrite (C5 eq_refl).
              destruct (Abba.moduleResolver ast) as [a6 n6]. simpl in C6.
              simpl. split; [split|].
              ** intros H. repeat split; lia.
              ** intros (_ & _ & _ & _ & _ & H). lia.
              ** intros H. apply C6. lia.
           ++ destruct (Abba.moduleResolver a5) as [a6 n6]. simpl.
              split; [split|]; intros; first [lia | tauto].
        -- destruct (Abba.memberExpressionSimplifier isValidIdentifier a4)
             as [a5 n5].
           destruct (Abba.moduleResolver a5) as [a6 n6]. simpl.
           split; [split|]; intros; first [lia | tauto].
      * destruct (Abba.stringNormalizer a3) as [a4 n4].
        destruct (Abba.memberExpressionSimplifier isValidIdentifier a4)
          as [a5 n5].
        destruct (Abba.moduleResolver a5) as [a6 n6]. simpl.
        split; [split|]; intros; first [lia | tauto].
    + destruct (Abba.proxyInliner a2) as [a3 n3].
      destruct (Abba.stringNormalizer a3) as [a4 n4].
      destruct (Abba.memberExpressionSimplifier isValidIdentifier a4)
        as [a5 n5].
      destruct (Abba.moduleResolver a5) as [a6 n6]. simpl.
      split; [split|]; intros; first [lia | tauto].
  - destruct (Abba.stringArrayRotator a1) as [a2 n2].
    destruct (Abba.proxyInliner a2) as [a3 n3].
    destruct (Abba.stringNormalizer a3) as [a4 n4].
    destruct (Abba.memberExpressionSimplifier isValidIdentifier a4)
      as [a5 n5].
    destruct (Abba.moduleResolver a5) as [a6 n6]. simpl.
    split; [split|]; intros; first [lia | tauto].
Qed.

Lemma abba_next_run (first next : Host) (ast : node) :
  changes (run first ast Abba.fresh_state).1.2 = 0 ->
  (run first ast Abba.fresh_state).1.1 = ast
  /\ ((extractor next ast).2 = 0 <->
      changes (run next (run first ast Abba.fresh_state).1.1
                 Abba.fresh_state).1.2 = 0).
Proof.
  intros Hzero.
  destruct (abba_change_free_run first ast) as [Hfirst Hsame].
  destruct (abba_change_free_run next ast) as [Hnext _].
  rewrite (Hsame Hzero). split; [reflexivity|].
  apply Hfirst in Hzero. destruct Hzero as [_ Hsettled].
  rewrite Hnext. tauto.
Qed.

End AbbaRuns.



(** ** More on the registry *)

Section RegistryFacts.

Context {File Sandbox Transform : Type}.

Let Target := Runner.DeobfuscatorTarget File Sandbox Transform.
Let RegistryT := Runner.DeobfuscatorRegistry File Sandbox Transform.
Let detected := Runner.detected File Sandbox Transform.

Lemma map_get_set_same (id : string) (t : Target) (m : list (string * Target)) :
  Runner.map_get id (Runner.map_set id t m) = Some t.
Proof.
  induction m as [|[k v] m IH]; simpl.
  - rewrite String.eqb_refl. reflexivity.
  - destruct (String.eqb k id) eqn:E; simpl; rewrite E; [reflexivity | exact IH].
Qed.

Lemma map_get_set_other (id id' : string) (t : Target)
    (m : list (string * Target)) :
  id' <> id ->
  Runner.map_get id' (Runner.map_set id t m) = Runner.map_get id' m.
Proof.
  intros Hne. induction m as [|[k v] m IH]; simpl.
  - destruct (String.eqb_spec id id'); [congruence | reflexivity].
  - destruct (String.eqb_spec k id) as [->|Hk]; simpl.
    + destruct (String.eqb_spec id id'); [congruence | reflexivity].
    + rewrite IH. reflexivity.
Qed.

Lemma map_get_None_ids (id : string) (m : list (string * Target)) :
  Runner.map_get id m = None <-> ~ In id (map fst m).
Proof.
  induction m as [|[k v] m IH]; simpl; [tauto|].
  destruct (String.eqb_spec k id) as [->|Hk].
  - split; [discriminate | intros H; exfalso; apply H; left; reflexivity].
  - rewrite IH. tauto.
Qed.

Lemma map_set_ids (id : string) (t : Target) (m : list (string * Target)) :
  map fst (Runner.map_set id t m)
  = if present (Runner.map_get id m) then map fst m else map fst m ++ [id].
Proof.
  induction m as [|[k v] m IH]; simpl; [reflexivity|].
  destruct (String.eqb_spec k id) as [->|Hk]; simpl; [reflexivity|].
  rewrite IH. destruct (present (Runner.map_get id m)); reflexivity.
Qed.

(** X1.  Registering a target makes it the one [get] returns for its id,
    whether the id was registered before or not, and changes what [get]
    returns for no other id. *)
Theorem registry_register_get (t : Target) (r : RegistryT) :
  Runner.get (Runner.register t r) (Runner.meta_id t) = Some t
  /\ forall id, id <> Runner.meta_id t ->
       Runner.get (Runner.register t r) id = Runner.get r id.
Proof.
  unfold Runner.get, Runner.register. simpl. split.
  - apply map_get_set_same.
  - intros id Hne. apply map_get_set_other. exact Hne.
Qed.

(** X2.  The ids of a registry stay distinct under [register]: a new id is
    appended at the end of [list()], an id that is already registered
    keeps its place (the target is overwritten) and the list does not
    grow. *)
Theorem registry_register_ids (t : Target) (r : RegistryT) :
  Registry.well_formed r ->
  Registry.well_formed (Runner.register t r)
  /\ Runner.list_ids (Runner.register t r)
     = if Runner.has r (Runner.meta_id t) then Runner.list_ids r
       else Runner.list_ids r ++ [Runner.meta_id t].
Proof.
  unfold Registry.well_formed, Runner.list_ids, Runner.register, Runner.has,
    Runner.get. simpl. intros Hnd.
  rewrite map_set_ids.
  destruct (Runner.map_get (Runner.meta_id t) (Runner.targets r)) eqn:E; simpl.
  - split; [exact Hnd | reflexivity].
  - split; [|reflexivity].
    apply NoDup_app. split; [exact Hnd|]. split.
    + intros x Hx Hin. apply list_elem_of_In in Hx, Hin.
      destruct Hin as [<-|[]].
      apply (proj1 (map_get_None_ids _ _) E). exact Hx.
    + apply NoDup_singleton.
Qed.

Lemma map_get_delete_same (id : string) (m : list (string * Target)) :
  Runner.map_get id (Registry.map_delete id m) = None.
Proof.
  induction m as [|[k v] m IH]; simpl; [reflexivity|].
  destruct (String.eqb k id) eqn:E; simpl; [exact IH|].
  rewrite E. exact IH.
Qed.

Lemma map_get_delete_other (id id' : string) (m : list (string * Target)) :
  id' <> id ->
  Runner.map_get id' (Registry.map_delete id m) = Runner.map_get id' m.
Proof.
  intros Hne. induction m as [|[k v] m IH]; simpl; [reflexivity|].
  destruct (String.eqb_spec k id) as [->|Hk]; simpl.
  - destruct (String.eqb_spec id id'); [congruence | exact IH].
  - rewrite IH. reflexivity.
Qed.

(** X3.  After [unregister(id)] the id is unknown and every other id is
    as before; the value returned says whether the id was registered.
    The default id is not cleared: when the default target itself is
    unregistered, [getDefault()] returns nothing from then on. *)
Theorem registry_unregister (r : RegistryT) (id : string) :
  let r' := (Registry.unregister r id).2 in
  (Registry.unregister r id).1 = Runner.has r id
  /\ Runner.get r' id = None
  /\ (forall id', id' <> id -> Runner.get r' id' = Runner.get r id')
  /\ (Runner.defaultTargetId r = Some id -> Runner.getDefault r' = None).
Proof.
  unfold Registry.unregister, Runner.get. simpl.
  split; [reflexivity|].
  split; [apply map_get_delete_same|].
  split; [intros id' Hne; apply map_get_delete_other; exact Hne|].
  intros Hdef. unfold Runner.getDefault, Runner.get. simpl. rewrite Hdef.
  destruct (String.eqb id ""); [reflexivity | apply map_get_delete_same].
Qed.

(** X4.  [setDefault(id)] fails exactly when the id is not registered.
    When it succeeds the targets are untouched and [getDefault()] returns
    the target registered under the id, except for the empty id, which
    [getDefault] treats as no default at all. *)
Theorem registry_setDefault (r : RegistryT) (id : string) :
  match Runner.setDefault r id with
  | None => Runner.get r id = None
  | Some r' =>
      Runner.targets r' = Runner.targets r
      /\ exists t, Runner.get r id = Some t
           /\ Runner.getDefault r'
              = if String.eqb id "" then None else Some t
  end.
Proof.
  unfold Runner.setDefault, Runner.has.
  destruct (Runner.get r id) as [t|] eqn:E; [|reflexivity].
  split; [reflexivity|]. exists t. split; [reflexivity|].
  unfold Runner.getDefault. simpl.
  destruct (String.eqb id ""); [reflexivity|].
  unfold Runner.get in *. simpl. exact E.
Qed.

Lemma insert_by_confidence_Permutation (d : detected) (l : list detected) :
  Permutation (Runner.insert_by_confidence d l) (d :: l).
Proof.
  induction l as [|x l IH]; simpl; [reflexivity|].
  destruct (Qle_bool _ _); [reflexivity|].
  rewrite IH. apply perm_swap.
Qed.

Lemma sort_by_confidence_Permutation (l : list detected) :
  Permutation (Runner.sort_by_confidence l) l.
Proof.
  induction l as [|d l IH]; simpl; [reflexivity|].
  rewrite insert_by_confidence_Permutation, IH. reflexivity.
Qed.

Lemma detect_one_spec (ast : File) (t : Target) (d : detected) :
  In d (Runner.detect_one ast t) <->
  Runner.detected_target d = t
  /\ (0 < Runner.result_confidence d)%Q
  /\ exists f, Runner.detect t = Some f
       /\ f ast = Runner.Detected (Runner.result_confidence d).
Proof.
  unfold Runner.detect_one.
  destruct (Runner.detect t) as [f|] eqn:Ef.
  - destruct (f ast) as [|c] eqn:Ec.
    + split; [intros [] | intros (_ & _ & g & Hg & Hd)].
      injection Hg as <-. congruence.
    + destruct (Qle_bool c 0) eqn:Ele.
      * split; [intros [] | intros (_ & Hpos & g & Hg & Hd)].
        injection Hg as <-. rewrite Ec in Hd. injection Hd as Hc.
        rewrite <- Hc in Hpos.
        apply Qle_bool_iff in Ele. apply Qlt_not_le in Hpos. contradiction.
      * split.
        -- intros [<-|[]]. simpl. split; [reflexivity|]. split.
           ++ apply Qnot_le_lt. intros H. apply Qle_bool_iff in H. congruence.
           ++ exists f. split; [reflexivity | exact Ec].
        -- intros (Ht & Hpos & g & Hg & Hd).
           injection Hg as <-. rewrite Ec in Hd. injection Hd as Hc.
           left. destruct d as [t' c']. simpl in *. subst. reflexivity.
  - split; [intros [] | intros (_ & _ & g & Hg & _); discriminate].
Qed.

(** X5.  [detect(ast)] returns the detections in descending order of
    confidence; an entry is in the list exactly when its target is
    registered, has a [detect] that returned (did not throw) and gave a
    confidence above 0, which is the confidence listed. *)
Theorem registry_detect_sorted_and_exact (r : RegistryT) (ast : File) :
  Runner.descending (Runner.registry_detect r ast)
  /\ Permutation (Runner.registry_detect r ast) (Registry.detections r ast)
  /\ forall d : detected,
       In d (Runner.registry_detect r ast) <->
       (exists id, In (id, Runner.detected_target d) (Runner.targets r))
       /\ (0 < Runner.result_confidence d)%Q
       /\ exists f, Runner.detect (Runner.detected_target d) = Some f
            /\ f ast = Runner.Detected (Runner.result_confidence d).
Proof.
  unfold Runner.registry_detect.
  split; [apply sort_by_confidence_descending|].
  split; [apply sort_by_confidence_Permutation|].
  intros d.
  assert (Hperm : In d (Runner.sort_by_confidence
                     (flat_map (fun kv => Runner.detect_one ast kv.2)
                        (Runner.targets r)))
                  <-> In d (flat_map (fun kv => Runner.detect_one ast kv.2)
                        (Runner.targets r))).
  { split; apply Permutation_in;
      [| symmetry]; apply sort_by_confidence_Permutation. }
  etransitivity; [exact Hperm|].
  etransitivity; [apply in_flat_map|]. split.
  - intros [[id t] [Hin Hd]]. simpl in Hd.
    apply detect_one_spec in Hd. destruct Hd as (<- & Hpos & Hf).
    split; [exists id; exact Hin|]. split; assumption.
  - intros ([id Hin] & Hpos & Hf).
    exists (id, Runner.detected_target d). split; [exact Hin|]. simpl.
    apply detect_one_spec. split; [reflexivity|]. split; assumption.
Qed.

End RegistryFacts.

Lemma registry_register_ids_witness :
  Runner.list_ids (Runner.register Runner.abba Runner.builtin_registry)
  = ["obfuscator.io"; "abba"]
  /\ Runner.list_ids
       (Runner.register (Runner.toy_target "cloudflare" (fun _ => 0%Q))
          Runner.builtin_registry)
     = ["obfuscator.io"; "abba"; "cloudflare"].
Proof.
  assert (Hwf : Registry.well_formed Runner.builtin_registry).
  { unfold Registry.well_formed.
    apply (bool_decide_unpack _). vm_compute. exact I. }
  split.
  - exact (proj2 (registry_register_ids Runner.abba Runner.builtin_registry Hwf)).
  - exact (proj2 (registry_register_ids
                    (Runner.toy_target "cloudflare" (fun _ => 0%Q))
                    Runner.builtin_registry Hwf)).
Defined.

Section RegistryInvariant.

Context {File Sandbox Transform : Type}.

Let Target := Runner.DeobfuscatorTarget File Sandbox Transform.
Let RegistryT := Runner.DeobfuscatorRegistry File Sandbox Transform.

(** Every entry is keyed by the id of its target. *)
Let keyed (m : list (string * Target)) : Prop :=
  Forall (fun kv => Runner.meta_id kv.2 = kv.1) m.

Lemma map_set_keyed (t : Target) (m : list (string * Target)) :
  keyed m -> keyed (Runner.map_set (Runner.meta_id t) t m).
Proof.
  induction 1 as [|[k v] m Hkv Hm IH]; simpl.
  - apply Forall_cons; split; [reflexivity | apply Forall_nil; exact I].
  - destruct (String.eqb_spec k (Runner.meta_id t)) as [->|Hne].
    + apply Forall_cons; split; [reflexivity | exact Hm].
    + apply Forall_cons; split; [exact Hkv | exact IH].
Qed.

Lemma map_delete_keyed (id : string) (m : list (string * Target)) :
  keyed m -> keyed (Registry.map_delete id m).
Proof.
  induction 1 as [|[k v] m Hkv Hm IH]; simpl; [apply Forall_nil; exact I|].
  destruct (negb (String.eqb k id)); [|exact IH].
  apply Forall_cons; split; assumption.
Qed.

Lemma map_delete_ids (id : string) (m : list (string * Target)) :
  map fst (Registry.map_delete id m)
  = List.filter (fun k => negb (String.eqb k id)) (map fst m).
Proof.
  induction m as [|[k v] m IH]; simpl; [reflexivity|].
  destruct (negb (String.eqb k id)); simpl; rewrite IH; reflexivity.
Qed.

Lemma NoDup_filter_ids (f : string -> bool) (l : list string) :
  NoDup l -> NoDup (List.filter f l).
Proof.
  induction 1 as [|x l Hx Hl IH]; simpl; [constructor|].
  destruct (f x); [|exact IH].
  constructor; [|exact IH].
  intros Hin. apply Hx. apply list_elem_of_In in Hin.
  apply filter_In in Hin. apply list_elem_of_In. tauto.
Qed.

Lemma map_get_keyed (id : string) (t : Target) (m : list (string * Target)) :
  keyed m -> Runner.map_get id m = Some t -> Runner.meta_id t = id.
Proof.
  induction 1 as [|[k v] m Hkv Hm IH]; simpl; [discriminate|].
  destruct (String.eqb_spec k id) as [->|Hne]; [|exact IH].
  intros H. injection H as <-. exact Hkv.
Qed.

(** X10.  The invariant of the registry.  In every registry obtained
    from the empty one by [register], [unregister] and successful
    [setDefault] calls, the ids are distinct, every target is stored
    under its own [meta.id], so that [get(id)] only ever returns a target
    with that id and [getAll()] lists the targets in the order of
    [list()]. *)
Theorem registry_invariant (r : RegistryT) :
  Registry.reachable r ->
  NoDup (Runner.list_ids r)
  /\ (forall id t, Runner.get r id = Some t -> Runner.meta_id t = id)
  /\ map Runner.meta_id (Registry.getAll r) = Runner.list_ids r.
Proof.
  intros Hreach.
  assert (Hinv : NoDup (Runner.list_ids r) /\ keyed (Runner.targets r)).
  { induction Hreach as [|t r Hr [IHnd IHk]|id r Hr [IHnd IHk]
                         |id r r' Hr [IHnd IHk] Hset].
    - split; [constructor | apply Forall_nil; exact I].
    - split.
      + unfold Runner.list_ids, Runner.register in *. simpl.
        rewrite map_set_ids.
        destruct (Runner.map_get (Runner.meta_id t) (Runner.targets r))
          eqn:E; simpl; [exact IHnd|].
        apply NoDup_app. split; [exact IHnd|]. split.
        * intros x Hx Hin. apply list_elem_of_In in Hx, Hin.
          destruct Hin as [<-|[]].
          apply (proj1 (map_get_None_ids _ _) E). exact Hx.
        * apply NoDup_singleton.
      + apply map_set_keyed. exact IHk.
    - split.
      + unfold Runner.list_ids, Registry.unregister in *. simpl.
        rewrite map_delete_ids. apply NoDup_filter_ids. exact IHnd.
      + apply map_delete_keyed. exact IHk.
    - unfold Runner.setDefault in Hset.
      destruct (Runner.has r id); [|discriminate].
      injection Hset as <-. split; assumption. }
  destruct Hinv as [Hnd Hk]. split; [exact Hnd|]. split.
  - intros id t Hget. exact (map_get_keyed id t _ Hk Hget).
  - unfold Registry.getAll, Runner.list_ids. rewrite map_map.
    apply map_ext_Forall. exact Hk.
Qed.

End RegistryInvariant.

Lemma registry_invariant_witness :
  NoDup (Runner.list_ids Targets.toy_registry)
  /\ (forall id t,
        Runner.get Targets.toy_registry id = Some t -> Runner.meta_id t = id)
  /\ map Runner.meta_id (Registry.getAll Targets.toy_registry)
     = Runner.list_ids Targets.toy_registry.
Proof.
  apply registry_invariant.
  unfold Targets.toy_registry, Targets.deobfuscatorRegistry,
    Targets.load_builtin.
  match goal with
  | |- Registry.reachable (default _ (Runner.setDefault ?r ?id)) =>
      apply (Registry.reachable_setDefault id r)
  end.
  - apply Registry.reachable_register. apply Registry.reachable_register.
    apply Registry.reachable_empty.
  - reflexivity.
Defined.

(** ** The built-in targets *)

Section TargetFacts.

Context {Path Sandbox Transform StringArray value Host : Type}.

Variable applyTransforms : list Transform -> node -> node * nat.

Variable stringArray_path : StringArray -> Path.
Variable stringArray_originalName : StringArray -> string.
Variable stringArray_length : StringArray -> nat.
Variable findStringArray : node -> option StringArray.
Variable findArrayRotator : StringArray -> option Path.
Variable findDecoders : StringArray -> list (ObfuscatorIO.Decoder Path).
Variable inlineObjectProps : node -> node * nat.
Variable inlineDecoderWrappers : Path -> node -> node * nat.
Variable inlineDecodedStrings :
  Sandbox -> StringArray -> list (ObfuscatorIO.Decoder Path) -> option Path ->
  node -> node * nat.
Variable cleanup : node -> node * nat.
Variable remove : Path -> node -> node.

Variable undefined : value.
Variable asArray : value -> option (list value).
Variable String_ : value -> option string.
Variable generate : node -> string.
Variable createSandbox : gmap string value.
Variable executeInSandbox :
  string -> gmap string value -> Host -> Extractor.outcome value * Host.
Variable isValidIdentifier : string -> bool -> bool.
Variable host : Host.

Let obfuscatorIO : Runner.DeobfuscatorTarget node Sandbox Transform :=
  Targets.obfuscatorIOTarget stringArray_path stringArray_originalName
    stringArray_length findStringArray findArrayRotator findDecoders
    inlineObjectProps inlineDecoderWrappers inlineDecodedStrings cleanup
    remove.

Let abba : Runner.DeobfuscatorTarget node Sandbox Transform :=
  Targets.abbaTarget undefined asArray String_ generate createSandbox
    executeInSandbox isValidIdentifier host.

Let registry : Runner.DeobfuscatorRegistry node Sandbox Transform :=
  Targets.deobfuscatorRegistry stringArray_path stringArray_originalName
    stringArray_length findStringArray findArrayRotator findDecoders
    inlineObjectProps inlineDecoderWrappers inlineDecodedStrings cleanup
    remove undefined asArray String_ generate createSandbox executeInSandbox
    isValidIdentifier host.

Let abba_run := Abba.run undefined asArray String_ generate createSandbox
  executeInSandbox isValidIdentifier host.

Lemma registry_targets :
  Runner.targets registry = [("obfuscator.io", obfuscatorIO); ("abba", abba)]
  /\ Runner.defaultTargetId registry = Some "obfuscator.io".
Proof. split; reflexivity. Qed.

Lemma builtin_detect (ast : node) :
  Runner.registry_detect registry ast
  = if present (findStringArray ast)
    then [ {| Runner.detected_target := obfuscatorIO;
              Runner.result_confidence := 1 # 2 |} ]
    else [].
Proof.
  unfold Runner.registry_detect. rewrite (proj1 registry_targets). simpl.
  unfold Runner.detect_one. simpl. unfold Targets.obfuscatorIO_detect.
  destruct (findStringArray ast); reflexivity.
Qed.

(** X6.  Loading the built-in targets does not throw and leaves
    [obfuscator.io] and [abba] registered in that order.  On any tree
    [detect] lists at most one target: [obfuscator.io] with confidence
    0.5 when [findStringArray] finds a string array, nothing otherwise;
    [abba], whose [detect] answers 0, is never listed. *)
Theorem builtin_detect_lists_only_obfuscator_io (ast : node) :
  Targets.load_builtin stringArray_path stringArray_originalName
    stringArray_length findStringArray findArrayRotator findDecoders
    inlineObjectProps inlineDecoderWrappers inlineDecodedStrings cleanup
    remove undefined asArray String_ generate createSandbox executeInSandbox
    isValidIdentifier host = Some registry
  /\ Runner.list_ids registry = ["obfuscator.io"; "abba"]
  /\ Runner.registry_detect registry ast
     = if present (findStringArray ast)
       then [ {| Runner.detected_target := obfuscatorIO;
                 Runner.result_confidence := 1 # 2 |} ]
       else [].
Proof.
  split; [reflexivity|]. split; [reflexivity|]. apply builtin_detect.
Qed.

Lemma builtin_auto_resolution (ast : node)
    (options : Runner.DeobfuscateRunnerOptions Sandbox) :
  Runner.is_auto (default (Runner.TargetBool true) (Runner.target options))
  = true ->
  Runner.resolveTarget registry ast options = inr (Some obfuscatorIO).
Proof.
  intros Hauto. unfold Runner.resolveTarget.
  assert (Hdefault : Runner.getDefault registry = Some obfuscatorIO)
    by reflexivity.
  destruct (default (Runner.TargetBool true) (Runner.target options))
    as [[|]|id]; simpl in Hauto; try discriminate.
  - rewrite builtin_detect, Hdefault.
    destruct (present (findStringArray ast)); [|reflexivity].
    simpl. destruct (Qle_bool _ _); reflexivity.
  - rewrite Hauto. simpl. rewrite builtin_detect, Hdefault.
    destruct (present (findStringArray ast)); [|reflexivity].
    simpl. destruct (Qle_bool _ _); reflexivity.
Qed.

(** X7.  With the built-in registry, auto mode ([target] absent, [true]
    or ['auto']) selects [obfuscator.io] for every tree and every
    threshold: either it is detected with enough confidence or it is the
    default the runner falls back to.  The Abba target is only ever
    selected by its id. *)
Theorem builtin_auto_resolves_to_obfuscator_io (ast : node)
    (options : Runner.DeobfuscateRunnerOptions Sandbox) :
  Runner.is_auto (default (Runner.TargetBool true) (Runner.target options))
  = true ->
  Runner.resolveTarget registry ast options = inr (Some obfuscatorIO).
Proof.
  intros Hauto. unfold Runner.resolveTarget.
  assert (Hdefault : Runner.getDefault registry = Some obfuscatorIO)
    by reflexivity.
  assert (Hdetected :
    match Runner.registry_detect registry ast with
    | d :: _ =>
        if Qle_bool (default (3 # 10)%Q (Runner.threshold options))
             (Runner.result_confidence d)
        then inr (Some (Runner.detected_target d))
        else inr (Runner.getDefault registry)
    | [] => inr (Runner.getDefault registry)
    end = (inr (Some obfuscatorIO) : Runner.error + _)).
  { rewrite builtin_detect, Hdefault.
    destruct (present (findStringArray ast)); [|reflexivity].
    simpl. destruct (Qle_bool _ _); reflexivity. }
  destruct (default (Runner.TargetBool true) (Runner.target options))
    as [[|]|id]; simpl in Hauto; try discriminate.
  - exact Hdetected.
  - rewrite Hauto. simpl. exact Hdetected.
Qed.

(** X8.  With the built-in registry, a run in auto mode whose options
    carry no sandbox returns the tree as it was and reports zero
    changes, whatever the tree and the threshold. *)
Theorem builtin_auto_without_sandbox_changes_nothing (ast : node)
    (options : Runner.DeobfuscateRunnerOptions Sandbox) :
  Runner.is_auto (default (Runner.TargetBool true) (Runner.target options))
  = true ->
  Runner.sandbox options = None ->
  Runner.runDeobfuscation applyTransforms registry ast options
  = inr (ast, {| changes := 0 |}).
Proof.
  intros Hauto Hsb. unfold Runner.runDeobfuscation.
  rewrite builtin_auto_resolution by exact Hauto.
  unfold Runner.runTarget. rewrite Hsb. reflexivity.
Qed.

Lemma step_accounting (label : string) (t : node -> node * nat)
    (acc : node * TransformState * list (string * nat)) :
  exists n,
    (Abba.step label t acc).2 = acc.2 ++ [(label, n)]
    /\ changes (Abba.step label t acc).1.2 = changes acc.1.2 + n.
Proof.
  destruct acc as [[ast state] logged]. unfold Abba.step.
  destruct (t ast) as [ast' n]. exists n. split; reflexivity.
Qed.

(** X9.  The Abba run logs its six steps in a fixed order, one line per
    step, and adds to [state.changes] exactly the sum of the counts it
    logs. *)
Theorem abba_run_accounting (ast : node) (state : TransformState) :
  let result := abba_run ast state in
  map fst result.2
  = [ "String Array Extractor"; "String Array Rotator"; "Proxy Inliner";
      "String Normalizer"; "Member Expression Simplifier"; "Module Resolver" ]
  /\ changes result.1.2 = changes state + list_sum (map snd result.2).
Proof.
  unfold abba_run, Abba.run.
  repeat match goal with
  | |- context [Abba.step ?l ?t ?acc] =>
      lazymatch acc with
      | context [Abba.step] => fail
      | _ =>
          let n := fresh "n" in
          let Hlog := fresh "Hlog" in
          let Hchanges := fresh "Hchanges" in
          destruct (step_accounting l t acc) as (n & Hlog & Hchanges);
          let r := fresh "r" in
          set (r := Abba.step l t acc) in *; clearbody r
      end
  end.
  simpl in *.
  repeat match goal with H : _.2 = _ |- _ => rewrite H in *; clear H end.
  simpl. split; [reflexivity | lia].
Qed.

End TargetFacts.

Lemma builtin_auto_resolves_to_obfuscator_io_witness :
  Runner.resolveTarget Targets.toy_registry Targets.toy_program
    (Targets.toy_options (Some (Runner.TargetString "auto")) None)
  = inr (Some Targets.toy_obfuscatorIO).
Proof.
  apply (builtin_auto_resolves_to_obfuscator_io (Path := unit)).
  reflexivity.
Defined.

Lemma builtin_auto_without_sandbox_changes_nothing_witness :
  Runner.runDeobfuscation (fun _ t => (t, 0)) Targets.toy_registry
    Targets.toy_program (Targets.toy_options None None)
  = inr (Targets.toy_program, {| changes := 0 |}).
Proof.
  apply (builtin_auto_without_sandbox_changes_nothing (Path := unit));
    reflexivity.
Defined.

(** ** More on the dead-code pass *)

(** *** The scope object *)

Lemma binding_of_In {B : Type} (k : string) (b : B)
    (bs : list (string * B)) :
  DeadCode.binding_of k bs = Some b -> In (k, b) bs.
Proof.
  unfold DeadCode.binding_of.
  destruct (find _ bs) as [[k' b']|] eqn:Hfind; [|discriminate].
  intros [= <-]. apply find_some in Hfind. destruct Hfind as [Hin Hk].
  simpl in Hk. apply String.eqb_eq in Hk. subst k'. exact Hin.
Qed.

Lemma In_binding_of {B : Type} (k : string) (b : B)
    (bs : list (string * B)) :
  NoDup (map fst bs) -> In (k, b) bs -> DeadCode.binding_of k bs = Some b.
Proof.
  unfold DeadCode.binding_of.
  induction bs as [|[k' b'] bs IH]; simpl; intros Hnd Hin; [destruct Hin|].
  apply NoDup_cons in Hnd. destruct Hnd as [Hk' Hnd].
  destruct (String.eqb_spec k' k) as [->|Hne].
  - destruct Hin as [[= <-]|Hin]; [reflexivity|].
    exfalso. apply Hk'. apply list_elem_of_In. apply in_map_iff.
    exists (k, b). split; [reflexivity | exact Hin].
  - destruct Hin as [[= -> _]|Hin]; [congruence|]. exact (IH Hnd Hin).
Qed.

Lemma binding_of_removeBinding {B : Type} (k name : string)
    (bs : list (string * B)) :
  DeadCode.binding_of k (DeadCode.removeBinding name bs)
  = if String.eqb k name then None else DeadCode.binding_of k bs.
Proof.
  unfold DeadCode.binding_of, DeadCode.removeBinding.
  induction bs as [|[k' b'] bs IH]; simpl.
  - destruct (String.eqb k name); reflexivity.
  - destruct (String.eqb_spec k' name) as [->|Hne]; simpl.
    + rewrite IH. destruct (String.eqb_spec k name) as [->|Hk];
        [reflexivity|].
      destruct (String.eqb_spec name k) as [->|_]; [congruence|reflexivity].
    + destruct (String.eqb_spec k' k) as [->|Hk'].
      * destruct (String.eqb_spec k name) as [->|_];
          [congruence | reflexivity].
      * exact IH.
Qed.

Lemma binding_of_removeFromScope {B : Type} (k : string) (n : node)
    (bs : list (string * B)) :
  DeadCode.binding_of k (DeadCode.removeFromScope n bs)
  = if existsb (String.eqb k) (DeadCode.getBindingIdentifiers n) then None
    else DeadCode.binding_of k bs.
Proof.
  unfold DeadCode.removeFromScope.
  generalize (DeadCode.getBindingIdentifiers n). intros names. revert bs.
  induction names as [|name names IH]; intros bs; simpl; [reflexivity|].
  rewrite IH, binding_of_removeBinding.
  destruct (String.eqb k name); simpl; [|reflexivity].
  destruct (existsb _ names); reflexivity.
Qed.

(** Removing a node that binds [name] alone leaves the other names of
    the scope where they are. *)
Lemma binding_of_removeFromScope_alone {B : Type} (k name : string)
    (n : node) (bs : list (string * B)) :
  Forall (fun name' => name' = name) (DeadCode.getBindingIdentifiers n) ->
  k <> name ->
  DeadCode.binding_of k (DeadCode.removeFromScope n bs)
  = DeadCode.binding_of k bs.
Proof.
  intros Halone Hk. rewrite binding_of_removeFromScope.
  replace (existsb _ _) with false; [reflexivity|].
  symmetry. induction Halone as [|name' names -> _ IH]; simpl;
    [reflexivity|].
  rewrite IH, orb_false_r. apply String.eqb_neq. exact Hk.
Qed.

Lemma NoDup_List_filter {A : Type} (f : A -> bool) (l : list A) :
  NoDup l -> NoDup (List.filter f l).
Proof.
  induction l as [|a l IH]; simpl; intros Hnd; [constructor|].
  apply NoDup_cons in Hnd. destruct Hnd as [Ha Hnd].
  destruct (f a); [|exact (IH Hnd)].
  apply NoDup_cons. split; [|exact (IH Hnd)].
  intros Hin. apply Ha. apply list_elem_of_In. apply list_elem_of_In in Hin.
  apply filter_In in Hin. tauto.
Qed.

(** *** The loop of [processScope] *)

Section ProcessScopeLoop.

Variable isPure : node -> bool.
Variable bindings : list (string * DeadCode.Binding).
Hypothesis alone :
  Forall (fun nb =>
            Forall (fun name' => name' = nb.1)
              (DeadCode.getBindingIdentifiers
                 (DeadCode.path_node (DeadCode.path nb.2))))
    bindings.

Let accepted (k : string) : bool :=
  match DeadCode.binding_of k bindings with
  | Some b => DeadCode.removes isPure b
  | None => false
  end.

Let path_of (k : string) : list DeadCode.NodePath :=
  match DeadCode.binding_of k bindings with
  | Some b => [DeadCode.path b]
  | None => []
  end.

Lemma alone_binding (k : string) (b : DeadCode.Binding) :
  DeadCode.binding_of k bindings = Some b ->
  Forall (fun name' => name' = k)
    (DeadCode.getBindingIdentifiers (DeadCode.path_node (DeadCode.path b))).
Proof.
  intros Hb. apply binding_of_In in Hb.
  rewrite List.Forall_forall in alone. exact (alone (k, b) Hb).
Qed.

Lemma processScope_loop (ks : list string) (s : DeadCode.pass_state) :
  NoDup ks ->
  (forall k, In k ks ->
     DeadCode.binding_of k (DeadCode.scope_bindings s)
     = DeadCode.binding_of k bindings) ->
  let s' :=
    fold_left (fun s name => DeadCode.process_binding isPure name s) ks s in
  DeadCode.removedBindings s'
  = DeadCode.removedBindings s ++ List.filter accepted ks
  /\ DeadCode.state_changes s'
     = DeadCode.state_changes s + length (List.filter accepted ks)
  /\ DeadCode.changed s'
     = DeadCode.changed s
       || negb (Nat.eqb (length (List.filter accepted ks)) 0)
  /\ DeadCode.removedPaths s'
     = DeadCode.removedPaths s ++ flat_map path_of (List.filter accepted ks)
  /\ (forall k, ~ In k ks ->
        DeadCode.binding_of k (DeadCode.scope_bindings s')
        = DeadCode.binding_of k (DeadCode.scope_bindings s))
  /\ (forall k, In k ks -> accepted k = false ->
        DeadCode.binding_of k (DeadCode.scope_bindings s')
        = DeadCode.binding_of k bindings).
Proof.
  revert s. induction ks as [|k ks IH]; intros s Hnd Hagree.
  - simpl. rewrite !app_nil_r, Nat.add_0_r, orb_false_r.
    repeat split; auto; intros ? [].
  - apply NoDup_cons in Hnd. destruct Hnd as [Hk Hnd].
    assert (Hk' : ~ In k ks) by (intros H; apply Hk, list_elem_of_In, H).
    pose proof (Hagree k (or_introl eq_refl)) as Hhere.
    cbv zeta. cbn [fold_left List.filter].
    remember (DeadCode.process_binding isPure k s) as s1 eqn:Hs1.
    unfold DeadCode.process_binding in Hs1. rewrite Hhere in Hs1.
    assert (Hacc : accepted k
                   = match DeadCode.binding_of k bindings with
                     | Some b => DeadCode.removes isPure b
                     | None => false
                     end) by reflexivity.
    assert (Hpath : path_of k
                    = match DeadCode.binding_of k bindings with
                      | Some b => [DeadCode.path b]
                      | None => []
                      end) by reflexivity.
    assert (Hkeep : s1 = s ->
      (forall k0, ~ In k0 (k :: ks) ->
         DeadCode.binding_of k0
           (DeadCode.scope_bindings
              (fold_left (fun s name => DeadCode.process_binding isPure name s)
                 ks s1))
         = DeadCode.binding_of k0 (DeadCode.scope_bindings s))
      /\ (forall k0, In k0 (k :: ks) -> accepted k0 = false ->
            DeadCode.binding_of k0
              (DeadCode.scope_bindings
                 (fold_left
                    (fun s name => DeadCode.process_binding isPure name s)
                    ks s1))
            = DeadCode.binding_of k0 bindings)
      /\ DeadCode.removedBindings
           (fold_left (fun s name => DeadCode.process_binding isPure name s)
              ks s1)
         = DeadCode.removedBindings s ++ List.filter accepted ks
      /\ DeadCode.state_changes
           (fold_left (fun s name => DeadCode.process_binding isPure name s)
              ks s1)
         = DeadCode.state_changes s + length (List.filter accepted ks)
      /\ DeadCode.changed
           (fold_left (fun s name => DeadCode.process_binding isPure name s)
              ks s1)
         = DeadCode.changed s
           || negb (Nat.eqb (length (List.filter accepted ks)) 0)
      /\ DeadCode.removedPaths
           (fold_left (fun s name => DeadCode.process_binding isPure name s)
              ks s1)
         = DeadCode.removedPaths s
           ++ flat_map path_of (List.filter accepted ks)).
    { intros ->.
      destruct (IH s Hnd (fun k0 H => Hagree k0 (or_intror H)))
        as (H1 & H2 & H3 & H4 & H5 & H6).
      split; [intros k0 Hk0; apply H5; simpl in Hk0; tauto|].
      split; [|auto].
      intros k0 [<-|Hk0] Hacc0; [|exact (H6 k0 Hk0 Hacc0)].
      rewrite (H5 k Hk'). exact Hhere. }
    destruct (DeadCode.binding_of k bindings) as [b|] eqn:Hb.
    + destruct (DeadCode.removes isPure b) eqn:Hrem.
      * assert (Hagree1 : forall k0, In k0 ks ->
                  DeadCode.binding_of k0 (DeadCode.scope_bindings s1)
                  = DeadCode.binding_of k0 bindings).
        { intros k0 Hk0. subst s1. cbn [DeadCode.scope_bindings].
          rewrite (binding_of_removeFromScope_alone k0 k).
          - apply Hagree. right. exact Hk0.
          - exact (alone_binding k b Hb).
          - intros ->. exact (Hk' Hk0). }
        destruct (IH s1 Hnd Hagree1) as (H1 & H2 & H3 & H4 & H5 & H6).
        rewrite H1, H2, H3, H4, Hacc. cbn [flat_map length]. rewrite Hpath.
        subst s1.
        cbn [DeadCode.removedBindings DeadCode.state_changes DeadCode.changed
             DeadCode.removedPaths DeadCode.scope_bindings] in *.
        rewrite <- !app_assoc.
        split; [reflexivity|]. split; [lia|].
        split; [simpl; rewrite orb_true_r; reflexivity|].
        split; [reflexivity|]. split.
        -- intros k0 Hk0. rewrite H5 by (simpl in Hk0; tauto).
           apply binding_of_removeFromScope_alone with (name := k).
           ++ exact (alone_binding k b Hb).
           ++ intros ->. apply Hk0. left. reflexivity.
        -- intros k0 [<-|Hk0] Hacc0.
           ++ rewrite Hacc in Hacc0. discriminate.
           ++ exact (H6 k0 Hk0 Hacc0).
      * rewrite Hacc.
        destruct (Hkeep Hs1) as (K5 & K6 & K1 & K2 & K3 & K4). auto 10.
    + rewrite Hacc.
      destruct (Hkeep Hs1) as (K5 & K6 & K1 & K2 & K3 & K4). auto 10.
Qed.

End ProcessScopeLoop.

(** X11.  In a scope where every declaration binds one name (no
    declarator with an array pattern that binds several), one run of
    [processScope] removes exactly the bindings the loop body accepts (no
    live reference or constant violation, and a function declaration or a
    declarator whose initializer is absent or pure), each once:
    [remove()] is called on their paths and on no other;
    [state.changes] grows by the number of names pushed to
    [removedBindings]; the value returned is [true] exactly when at least
    one binding was removed; and every binding the loop body does not
    accept is still in [scope.bindings] afterwards. *)
Theorem processScope_removes_exactly_the_dead (isPure : node -> bool)
    (bindings : list (string * DeadCode.Binding)) (changes0 : nat)
    (removed0 : list string) :
  NoDup (map fst bindings) ->
  Forall (fun nb =>
            Forall (fun name' => name' = nb.1)
              (DeadCode.getBindingIdentifiers
                 (DeadCode.path_node (DeadCode.path nb.2))))
    bindings ->
  let result := DeadCode.processScope isPure bindings changes0 removed0 in
  exists removed,
    DeadCode.removedBindings result = removed0 ++ removed
    /\ NoDup removed
    /\ (forall name,
          In name removed <->
          exists b, In (name, b) bindings
                    /\ DeadCode.removes isPure b = true)
    /\ (forall p,
          In p (DeadCode.removedPaths result) <->
          exists name b, In (name, b) bindings
                         /\ DeadCode.removes isPure b = true
                         /\ DeadCode.path b = p)
    /\ DeadCode.state_changes result = changes0 + length removed
    /\ (DeadCode.changed result = true <-> removed <> [])
    /\ (forall name b,
          In (name, b) bindings ->
          DeadCode.removes isPure b = false ->
          DeadCode.binding_of name (DeadCode.scope_bindings result)
          = Some b).
Proof.
  intros Hnd Halone result. subst result. unfold DeadCode.processScope.
  destruct (processScope_loop isPure bindings Halone (map fst bindings)
              {| DeadCode.state_changes := changes0;
                 DeadCode.removedBindings := removed0;
                 DeadCode.changed := false;
                 DeadCode.scope_bindings := bindings;
                 DeadCode.removedPaths := [] |} Hnd (fun _ _ => eq_refl))
    as (H1 & H2 & H3 & H4 & _ & H6).
  simpl in H1, H2, H3, H4.
  set (accepted := fun k : string =>
         match DeadCode.binding_of k bindings with
         | Some b => DeadCode.removes isPure b
         | None => false
         end) in *.
  assert (Hacc : forall name,
    In name (List.filter accepted (map fst bindings)) <->
    exists b, In (name, b) bindings /\ DeadCode.removes isPure b = true).
  { intros name. rewrite filter_In. unfold accepted. split.
    - intros [_ Hr].
      destruct (DeadCode.binding_of name bindings) as [b|] eqn:Hb;
        [|discriminate].
      exists b. split; [exact (binding_of_In _ _ _ Hb) | exact Hr].
    - intros (b & Hin & Hr). split.
      + apply in_map_iff. exists (name, b). split; [reflexivity | exact Hin].
      + rewrite (In_binding_of _ _ _ Hnd Hin). exact Hr. }
  exists (List.filter accepted (map fst bindings)).
  split; [exact H1|]. split; [apply NoDup_List_filter; exact Hnd|].
  split; [exact Hacc|]. split; [|split; [exact H2|split]].
  - intros p. rewrite H4. simpl. rewrite in_flat_map. split.
    + intros (name & Hname & Hp). apply Hacc in Hname.
      destruct Hname as (b & Hin & Hr).
      rewrite (In_binding_of _ _ _ Hnd Hin) in Hp.
      destruct Hp as [<-|[]]. exists name, b. auto.
    + intros (name & b & Hin & Hr & <-). exists name. split.
      * apply Hacc. exists b. auto.
      * rewrite (In_binding_of _ _ _ Hnd Hin). left. reflexivity.
  - rewrite H3. simpl.
    destruct (List.filter accepted (map fst bindings)); simpl; split;
      try discriminate; try congruence; auto.
  - intros name b Hin Hr.
    rewrite H6.
    + exact (In_binding_of _ _ _ Hnd Hin).
    + apply in_map_iff. exists (name, b). split; [reflexivity | exact Hin].
    + unfold accepted. rewrite (In_binding_of _ _ _ Hnd Hin). exact Hr.
Qed.

(** On the scenario scope: [dead], the function [g] and [ghost] go,
    [kept = f()] and [used] stay. *)
Lemma processScope_removes_exactly_the_dead_witness :
  exists removed,
    DeadCode.removedBindings
      (DeadCode.processScope DeadCode.isSafeInitializer
         DeadCode.scenario_bindings 0 [])
    = [] ++ removed
    /\ length removed = 3.
Proof.
  destruct (processScope_removes_exactly_the_dead
              DeadCode.isSafeInitializer DeadCode.scenario_bindings 0 [])
    as (removed & Hremoved & _).
  - apply (bool_decide_unpack _). vm_compute. exact I.
  - apply (bool_decide_unpack _). vm_compute. exact I.
  - exists removed. split; [exact Hremoved|].
    vm_compute in Hremoved. rewrite <- Hremoved. reflexivity.
Defined.

Lemma isValidReference_ancestors (p : DeadCode.NodePath) :
  DeadCode.isValidReference p
  = existsb DeadCode.isProgram (DeadCodeVisitor.ancestors p).
Proof.
  unfold DeadCode.isValidReference.
  induction p as [n parent IH] using
    (fix ind (P : DeadCode.NodePath -> Prop)
         (step : forall n parent,
             match parent with Some q => P q | None => True end ->
             P (DeadCode.mkPath n parent))
         (p : DeadCode.NodePath) {struct p} : P p :=
       match p with
       | DeadCode.mkPath n None => step n None I
       | DeadCode.mkPath n (Some q) => step n (Some q) (ind P step q)
       end).
  destruct parent as [q|]; simpl; [|reflexivity].
  destruct (DeadCode.isProgram q); [reflexivity | exact IH].
Qed.

Lemma filter_nil_iff {A : Type} (f : A -> bool) (l : list A) :
  List.filter f l = [] <-> forall x, In x l -> f x = false.
Proof.
  induction l as [|a l IH]; simpl; [tauto|].
  destruct (f a) eqn:E; split.
  - discriminate.
  - intros H. specialize (H a (or_introl eq_refl)). congruence.
  - intros H x [<-|Hx]; [exact E | apply IH; assumption].
  - intros H. apply IH. intros x Hx. apply H. right. exact Hx.
Qed.

(** X12.  Ghost references do not keep a binding alive: when none of the
    paths in [referencePaths] and [constantViolations] has a [Program]
    among its ancestors, [processScope] treats the binding as if both
    lists were empty; one path that still reaches a [Program] keeps the
    binding. *)
Theorem ghost_references_do_not_count (isPure : node -> bool)
    (b : DeadCode.Binding) :
  ((forall p,
       In p (DeadCode.referencePaths b ++ DeadCode.constantViolations b) ->
       existsb DeadCode.isProgram (DeadCodeVisitor.ancestors p) = false) ->
   DeadCode.removes isPure b
   = DeadCode.removes isPure
       {| DeadCode.path := DeadCode.path b;
          DeadCode.referencePaths := [];
          DeadCode.constantViolations := [] |})
  /\ ((exists p,
          In p (DeadCode.referencePaths b ++ DeadCode.constantViolations b)
          /\ existsb DeadCode.isProgram (DeadCodeVisitor.ancestors p) = true) ->
      DeadCode.removes isPure b = false).
Proof.
  split.
  - intros Hghost. unfold DeadCode.removes, DeadCode.validRefs,
      DeadCode.validConstantViolations. simpl.
    assert (H1 : List.filter DeadCode.isValidReference
                   (DeadCode.referencePaths b) = []).
    { apply filter_nil_iff. intros p Hp. rewrite isValidReference_ancestors.
      apply Hghost. apply in_or_app. left. exact Hp. }
    assert (H2 : List.filter DeadCode.isValidReference
                   (DeadCode.constantViolations b) = []).
    { apply filter_nil_iff. intros p Hp. rewrite isValidReference_ancestors.
      apply Hghost. apply in_or_app. right. exact Hp. }
    rewrite H1, H2. reflexivity.
  - intros (p & Hp & Hlive). rewrite <- isValidReference_ancestors in Hlive.
    unfold DeadCode.removes.
    assert (Hpos : 0 < length (DeadCode.validRefs b)
                       + length (DeadCode.validConstantViolations b)).
    { apply in_app_or in Hp. destruct Hp as [Hp|Hp].
      - assert (Hin : In p (DeadCode.validRefs b))
          by (apply filter_In; split; assumption).
        destruct (DeadCode.validRefs b); [destruct Hin | simpl; lia].
      - assert (Hin : In p (DeadCode.validConstantViolations b))
          by (apply filter_In; split; assumption).
        destruct (DeadCode.validConstantViolations b);
          [destruct Hin | simpl; lia]. }
    apply Nat.ltb_lt in Hpos. rewrite Hpos. reflexivity.
Qed.


(** *** The loop of [Program.exit] *)

Section ExitProgramLoop.

Variable bindings : list (string * DeadCodeVisitor.Binding).
Hypothesis alone :
  Forall (fun nb =>
            Forall (fun name' => name' = nb.1)
              (DeadCode.getBindingIdentifiers
                 (DeadCodeVisitor.binding_node nb.2)))
    bindings.

Let accepted (k : string) : bool :=
  match DeadCode.binding_of k bindings with
  | Some b => DeadCodeVisitor.removes b
  | None => false
  end.

Let node_of (k : string) : list node :=
  match DeadCode.binding_of k bindings with
  | Some b => [DeadCodeVisitor.binding_node b]
  | None => []
  end.

Lemma alone_visitor_binding (k : string) (b : DeadCodeVisitor.Binding) :
  DeadCode.binding_of k bindings = Some b ->
  Forall (fun name' => name' = k)
    (DeadCode.getBindingIdentifiers (DeadCodeVisitor.binding_node b)).
Proof.
  intros Hb. apply binding_of_In in Hb.
  rewrite List.Forall_forall in alone. exact (alone (k, b) Hb).
Qed.

Lemma exit_Program_loop (ks : list string) (s : DeadCodeVisitor.exit_state) :
  NoDup ks ->
  (forall k, In k ks ->
     DeadCode.binding_of k (DeadCodeVisitor.scope_bindings s)
     = DeadCode.binding_of k bindings) ->
  let s' :=
    fold_left (fun s name => DeadCodeVisitor.exit_binding name s) ks s in
  DeadCodeVisitor.removedBindings s'
  = DeadCodeVisitor.removedBindings s ++ List.filter accepted ks
  /\ DeadCodeVisitor.changes s'
     = DeadCodeVisitor.changes s + length (List.filter accepted ks)
  /\ DeadCodeVisitor.removedNodes s'
     = DeadCodeVisitor.removedNodes s
       ++ flat_map node_of (List.filter accepted ks)
  /\ (forall k, ~ In k ks ->
        DeadCode.binding_of k (DeadCodeVisitor.scope_bindings s')
        = DeadCode.binding_of k (DeadCodeVisitor.scope_bindings s))
  /\ (forall k, In k ks -> accepted k = false ->
        DeadCode.binding_of k (DeadCodeVisitor.scope_bindings s')
        = DeadCode.binding_of k bindings).
Proof.
  revert s. induction ks as [|k ks IH]; intros s Hnd Hagree.
  - simpl. rewrite !app_nil_r, Nat.add_0_r.
    repeat split; auto; intros ? [].
  - apply NoDup_cons in Hnd. destruct Hnd as [Hk Hnd].
    assert (Hk' : ~ In k ks) by (intros H; apply Hk, list_elem_of_In, H).
    pose proof (Hagree k (or_introl eq_refl)) as Hhere.
    cbv zeta. cbn [fold_left List.filter].
    remember (DeadCodeVisitor.exit_binding k s) as s1 eqn:Hs1.
    unfold DeadCodeVisitor.exit_binding in Hs1. rewrite Hhere in Hs1.
    assert (Hacc : accepted k
                   = match DeadCode.binding_of k bindings with
                     | Some b => DeadCodeVisitor.removes b
                     | None => false
                     end) by reflexivity.
    assert (Hnode : node_of k
                    = match DeadCode.binding_of k bindings with
                      | Some b => [DeadCodeVisitor.binding_node b]
                      | None => []
                      end) by reflexivity.
    assert (Hkeep : s1 = s ->
      (forall k0, ~ In k0 (k :: ks) ->
         DeadCode.binding_of k0
           (DeadCodeVisitor.scope_bindings
              (fold_left (fun s name => DeadCodeVisitor.exit_binding name s)
                 ks s1))
         = DeadCode.binding_of k0 (DeadCodeVisitor.scope_bindings s))
      /\ (forall k0, In k0 (k :: ks) -> accepted k0 = false ->
            DeadCode.binding_of k0
              (DeadCodeVisitor.scope_bindings
                 (fold_left
                    (fun s name => DeadCodeVisitor.exit_binding name s)
                    ks s1))
            = DeadCode.binding_of k0 bindings)
      /\ DeadCodeVisitor.removedBindings
           (fold_left (fun s name => DeadCodeVisitor.exit_binding name s)
              ks s1)
         = DeadCodeVisitor.removedBindings s ++ List.filter accepted ks
      /\ DeadCodeVisitor.changes
           (fold_left (fun s name => DeadCodeVisitor.exit_binding name s)
              ks s1)
         = DeadCodeVisitor.changes s + length (List.filter accepted ks)
      /\ DeadCodeVisitor.removedNodes
           (fold_left (fun s name => DeadCodeVisitor.exit_binding name s)
              ks s1)
         = DeadCodeVisitor.removedNodes s
           ++ flat_map node_of (List.filter accepted ks)).
    { intros ->.
      destruct (IH s Hnd (fun k0 H => Hagree k0 (or_intror H)))
        as (H1 & H2 & H3 & H4 & H5).
      split; [intros k0 Hk0; apply H4; simpl in Hk0; tauto|].
      split; [|auto].
      intros k0 [<-|Hk0] Hacc0; [|exact (H5 k0 Hk0 Hacc0)].
      rewrite (H4 k Hk'). exact Hhere. }
    destruct (DeadCode.binding_of k bindings) as [b|] eqn:Hb.
    + destruct (DeadCodeVisitor.removes b) eqn:Hrem.
      * assert (Hagree1 : forall k0, In k0 ks ->
                  DeadCode.binding_of k0 (DeadCodeVisitor.scope_bindings s1)
                  = DeadCode.binding_of k0 bindings).
        { intros k0 Hk0. subst s1. cbn [DeadCodeVisitor.scope_bindings].
          rewrite (binding_of_removeFromScope_alone k0 k).
          - apply Hagree. right. exact Hk0.
          - exact (alone_visitor_binding k b Hb).
          - intros ->. exact (Hk' Hk0). }
        destruct (IH s1 Hnd Hagree1) as (H1 & H2 & H3 & H4 & H5).
        rewrite H1, H2, H3, Hacc. cbn [flat_map length]. rewrite Hnode.
        subst s1.
        cbn [DeadCodeVisitor.removedBindings DeadCodeVisitor.changes
             DeadCodeVisitor.removedNodes DeadCodeVisitor.scope_bindings]
          in *.
        rewrite <- !app_assoc.
        split; [reflexivity|]. split; [lia|]. split; [reflexivity|]. split.
        -- intros k0 Hk0. rewrite H4 by (simpl in Hk0; tauto).
           apply binding_of_removeFromScope_alone with (name := k).
           ++ exact (alone_visitor_binding k b Hb).
           ++ intros ->. apply Hk0. left. reflexivity.
        -- intros k0 [<-|Hk0] Hacc0.
           ++ rewrite Hacc in Hacc0. discriminate.
           ++ exact (H5 k0 Hk0 Hacc0).
      * rewrite Hacc.
        destruct (Hkeep Hs1) as (K4 & K5 & K1 & K2 & K3). auto 10.
    + rewrite Hacc.
      destruct (Hkeep Hs1) as (K4 & K5 & K1 & K2 & K3). auto 10.
Qed.

End ExitProgramLoop.

Lemma visitor_removes_iff (b : DeadCodeVisitor.Binding) :
  DeadCodeVisitor.removes b = true <->
  DeadCodeVisitor.referenced b = false
  /\ ((exists params cs,
          DeadCodeVisitor.binding_node b
          = Node (KFunctionDeclaration params) cs)
      \/ (exists id init,
             DeadCodeVisitor.binding_node b = VariableDeclarator id init
             /\ DeadCode.isSafeInitializer init = true)).
Proof.
  unfold DeadCodeVisitor.removes.
  destruct (DeadCodeVisitor.referenced b).
  - split; [discriminate | intros [? _]; discriminate].
  - destruct (DeadCodeVisitor.binding_node b) as [k cs].
    split.
    + intros H. split; [reflexivity|].
      destruct k; try discriminate.
      * right. destruct cs as [|id [|init [|? ?]]]; try discriminate.
        exists id, init. split; [reflexivity | exact H].
      * left. eauto.
    + intros [_ [(params & cs' & Hf) | (id & init & Hv & Hsafe)]].
      * injection Hf as -> ->. reflexivity.
      * injection Hv as -> ->. exact Hsafe.
Qed.

(** X13.  In a program scope where every declaration binds one name (no
    declarator with an array pattern that binds several), [Program.exit]
    of the visitor variant removes exactly the bindings that are not
    referenced and are a function declaration or a declarator with a
    safe initializer, takes their nodes and no other out of the tree, and
    counts one change for each.  A referenced binding stays in the
    scope, and so does a variable whose initializer is a call or a [new]
    expression. *)
Theorem visitor_exit_Program_removes_exactly
    (bindings : list (string * DeadCodeVisitor.Binding))
    (removed0 : list string) (c : nat) :
  NoDup (map fst bindings) ->
  Forall (fun nb =>
            Forall (fun name' => name' = nb.1)
              (DeadCode.getBindingIdentifiers
                 (DeadCodeVisitor.binding_node nb.2)))
    bindings ->
  let result := DeadCodeVisitor.exit_Program bindings removed0 c in
  exists removed,
    DeadCodeVisitor.removedBindings result = removed0 ++ removed
    /\ DeadCodeVisitor.changes result = c + length removed
    /\ NoDup removed
    /\ (forall name,
          In name removed <->
          exists b, In (name, b) bindings
            /\ DeadCodeVisitor.referenced b = false
            /\ ((exists params cs,
                    DeadCodeVisitor.binding_node b
                    = Node (KFunctionDeclaration params) cs)
                \/ (exists id init,
                       DeadCodeVisitor.binding_node b
                       = VariableDeclarator id init
                       /\ DeadCode.isSafeInitializer init = true)))
    /\ (forall n,
          In n (DeadCodeVisitor.removedNodes result) <->
          exists name b, In (name, b) bindings
                         /\ DeadCodeVisitor.removes b = true
                         /\ DeadCodeVisitor.binding_node b = n)
    /\ (forall name b,
          In (name, b) bindings ->
          DeadCodeVisitor.referenced b = true
          \/ (exists id cs,
                 DeadCodeVisitor.binding_node b
                 = VariableDeclarator id (Node KCallExpression cs)
                 \/ DeadCodeVisitor.binding_node b
                    = VariableDeclarator id (Node KNewExpression cs)) ->
          ~ In name removed
          /\ DeadCode.binding_of name
               (DeadCodeVisitor.scope_bindings result) = Some b).
Proof.
  intros Hnd Halone result. subst result. unfold DeadCodeVisitor.exit_Program.
  destruct (exit_Program_loop bindings Halone (map fst bindings)
              {| DeadCodeVisitor.removedBindings := removed0;
                 DeadCodeVisitor.changes := c;
                 DeadCodeVisitor.scope_bindings := bindings;
                 DeadCodeVisitor.removedNodes := [] |} Hnd
              (fun _ _ => eq_refl))
    as (H1 & H2 & H3 & _ & H5).
  simpl in H1, H2, H3.
  set (accepted := fun k : string =>
         match DeadCode.binding_of k bindings with
         | Some b => DeadCodeVisitor.removes b
         | None => false
         end) in *.
  assert (Hacc : forall name,
    In name (List.filter accepted (map fst bindings)) <->
    exists b, In (name, b) bindings /\ DeadCodeVisitor.removes b = true).
  { intros name. rewrite filter_In. unfold accepted. split.
    - intros [_ Hr].
      destruct (DeadCode.binding_of name bindings) as [b|] eqn:Hb;
        [|discriminate].
      exists b. split; [exact (binding_of_In _ _ _ Hb) | exact Hr].
    - intros (b & Hin & Hr). split.
      + apply in_map_iff. exists (name, b). split; [reflexivity | exact Hin].
      + rewrite (In_binding_of _ _ _ Hnd Hin). exact Hr. }
  exists (List.filter accepted (map fst bindings)).
  split; [exact H1|]. split; [exact H2|].
  split; [apply NoDup_List_filter; exact Hnd|]. split; [|split].
  - intros name. rewrite Hacc. split.
    + intros (b & Hb & Hr). exists b. split; [exact Hb|].
      apply visitor_removes_iff. exact Hr.
    + intros (b & Hb & Hr). exists b. split; [exact Hb|].
      apply visitor_removes_iff. exact Hr.
  - intros n. rewrite H3. simpl. rewrite in_flat_map. split.
    + intros (name & Hname & Hn). apply Hacc in Hname.
      destruct Hname as (b & Hin & Hr).
      rewrite (In_binding_of _ _ _ Hnd Hin) in Hn.
      destruct Hn as [<-|[]]. exists name, b. auto.
    + intros (name & b & Hin & Hr & <-). exists name. split.
      * apply Hacc. exists b. auto.
      * rewrite (In_binding_of _ _ _ Hnd Hin). left. reflexivity.
  - intros name b Hin Hkept.
    assert (Hr : DeadCodeVisitor.removes b = false).
    { destruct (DeadCodeVisitor.removes b) eqn:Hr; [|reflexivity].
      apply visitor_removes_iff in Hr.
      destruct Hr as [Href [(params & cs' & Hf) | (id' & init & Hv & Hsafe)]];
        destruct Hkept as [Hk | (id & cs & [Hn|Hn])];
        try congruence;
        rewrite Hn in Hv; injection Hv as _ <-; discriminate. }
    split.
    + intros Hname. apply Hacc in Hname. destruct Hname as (b' & Hin' & Hr').
      pose proof (In_binding_of _ _ _ Hnd Hin) as E.
      rewrite (In_binding_of _ _ _ Hnd Hin') in E. congruence.
    + rewrite H5.
      * exact (In_binding_of _ _ _ Hnd Hin).
      * apply in_map_iff. exists (name, b). split; [reflexivity | exact Hin].
      * unfold accepted. rewrite (In_binding_of _ _ _ Hnd Hin). exact Hr.
Qed.

(** In the scope of [var dead = 1; var kept = f(); var used = 3; used;]
    the visitor removes [dead] alone. *)
Lemma visitor_exit_Program_removes_exactly_witness :
  exists removed,
    DeadCodeVisitor.removedBindings
      (DeadCodeVisitor.exit_Program DeadCodeVisitor.scenario_bindings [] 0)
    = [] ++ removed
    /\ removed = ["dead"].
Proof.
  destruct (visitor_exit_Program_removes_exactly
              DeadCodeVisitor.scenario_bindings [] 0)
    as (removed & Hremoved & _).
  - apply (bool_decide_unpack _). vm_compute. exact I.
  - apply (bool_decide_unpack _). vm_compute. exact I.
  - exists removed. split; [exact Hremoved|].
    vm_compute in Hremoved. rewrite <- Hremoved. reflexivity.
Defined.

Lemma ghost_references_do_not_count_witness :
  DeadCode.removes DeadCode.isSafeInitializer
    {| DeadCode.path := DeadCode.declared "ghost" (NumericLiteral 2 true);
       DeadCode.referencePaths := [DeadCode.ghost_reference];
       DeadCode.constantViolations := [] |}
  = true.
Proof.
  rewrite (proj1 (ghost_references_do_not_count DeadCode.isSafeInitializer _)).
  - reflexivity.
  - simpl. intros p [<-|[]]. reflexivity.
Defined.

(** ** More on the rotator *)

Lemma shift_push_Permutation (l : list node) :
  Permutation l (Rotator.shift_push l).
Proof.
  destruct l as [|x l]; simpl; [reflexivity|].
  apply Permutation_cons_append.
Qed.

Lemma iter_shift_push_Permutation (r : nat) (l : list node) :
  Permutation l (Nat.iter r Rotator.shift_push l).
Proof.
  induction r as [|r IH]; simpl; [reflexivity|].
  rewrite <- shift_push_Permutation. exact IH.
Qed.

(** X14.  The rotator handler is all or nothing, on any node and in any
    scope.  Either it leaves everything alone and counts nothing, or it
    removes the visited call, counts exactly one change and writes into
    the array the identifier argument resolves to a list that is a
    permutation of the non-empty list that was there: no element is
    dropped, duplicated or replaced. *)
Theorem rotator_all_or_nothing (getBinding : string -> option node)
    (n : node) (c : nat) :
  Rotator.visit_CallExpression getBinding n c = (Rotator.untouched, c)
  \/ exists a id elements rotated,
       Rotator.visit_CallExpression getBinding n c
       = ({| Rotator.array_elements := Some (a, rotated);
             Rotator.removed := true |}, S c)
       /\ getBinding a = Some (VariableDeclarator id (ArrayExpression elements))
       /\ elements <> []
       /\ Permutation elements rotated.
Proof.
  unfold Rotator.visit_CallExpression.
  repeat match goal with
  | |- context [match getBinding ?a with _ => _ end] =>
      destruct (getBinding a) eqn:?
  | |- context [if ?b then _ else _] => destruct b
  | |- context [match ?x with _ => _ end] => destruct x
  end; try (left; reflexivity).
  all: right; do 4 eexists; split; [reflexivity|].
  all: split; [eassumption|]; split; [discriminate|].
  all: apply iter_shift_push_Permutation.
Qed.

Lemma iter_shift_push_length (r : nat) (l : list node) :
  length (Nat.iter r Rotator.shift_push l) = length l.
Proof.
  induction r as [|r IH]; simpl; [reflexivity|].
  rewrite shift_push_length. exact IH.
Qed.

Lemma iter_shift_push_period (q : nat) (l : list node) :
  Nat.iter (q * length l) Rotator.shift_push l = l.
Proof.
  induction q as [|q IH]; simpl; [reflexivity|].
  rewrite Nat.iter_add, IH, iter_shift_push by lia.
  rewrite drop_all, firstn_all. reflexivity.
Qed.

Lemma iter_shift_push_mod (r : nat) (l : list node) :
  Nat.iter r Rotator.shift_push l
  = Nat.iter (r mod length l) Rotator.shift_push l.
Proof.
  pose proof (Nat.div_mod_eq r (length l)) as E.
  transitivity
    (Nat.iter (r mod length l + (r / length l) * length l)
       Rotator.shift_push l).
  - f_equal. lia.
  - rewrite Nat.iter_add, iter_shift_push_period. reflexivity.
Qed.

Lemma visit_rotator_iife (getBinding : string -> option node)
    (params : list string) (bodyStatements : list node) (a : string) (n : N)
    (extra : bool) (id : node) (elements : list node) (c : nat) :
  json_includes "push" (BlockStatement bodyStatements) = true ->
  json_includes "shift" (BlockStatement bodyStatements) = true ->
  getBinding a = Some (VariableDeclarator id (ArrayExpression elements)) ->
  elements <> [] ->
  Rotator.visit_CallExpression getBinding
    (CallExpression (FunctionExpression params (BlockStatement bodyStatements))
       [Identifier a; NumericLiteral n extra]) c
  = ({| Rotator.array_elements :=
          Some (a, Nat.iter
                     (N.to_nat n
                      + (if Rotator.detect_increment bodyStatements
                         then 1 else 0))
                     Rotator.shift_push elements);
        Rotator.removed := true |}, S c).
Proof.
  intros Hpush Hshift Hbind Hne.
  unfold Rotator.visit_CallExpression.
  rewrite Hpush, Hshift, Hbind. simpl negb. simpl orb. cbv iota.
  rewrite (match_nonempty elements) by assumption.
  rewrite (effective_rotation n (Rotator.detect_increment bodyStatements)
             (length elements)).
  rewrite <- iter_shift_push_mod. reflexivity.
Qed.

(** X15.  Rotations compose.  When a rotator IIFE of amount [R1] has run
    on a non-empty array and a second rotator IIFE of amount [R2] is
    visited in a scope where the identifier resolves to the rotated
    array, the list the second run writes is the original list rotated
    by [R1 + R2] modulo its length, and the two runs count two changes. *)
Theorem rotator_rotations_compose
    (getBinding : string -> option node)
    (params1 params2 : list string) (body1 body2 : list node) (a : string)
    (n1 n2 : N) (extra1 extra2 : bool) (id : node) (elements : list node)
    (c : nat) :
  json_includes "push" (BlockStatement body1) = true ->
  json_includes "shift" (BlockStatement body1) = true ->
  json_includes "push" (BlockStatement body2) = true ->
  json_includes "shift" (BlockStatement body2) = true ->
  getBinding a = Some (VariableDeclarator id (ArrayExpression elements)) ->
  elements <> [] ->
  let L := length elements in
  let R1 := N.to_nat n1 + (if Rotator.detect_increment body1 then 1 else 0) in
  let R2 := N.to_nat n2 + (if Rotator.detect_increment body2 then 1 else 0) in
  let first :=
    Rotator.visit_CallExpression getBinding
      (CallExpression (FunctionExpression params1 (BlockStatement body1))
         [Identifier a; NumericLiteral n1 extra1]) c in
  exists rotated1,
    Rotator.array_elements first.1 = Some (a, rotated1)
    /\ Rotator.visit_CallExpression
         (fun name =>
            if String.eqb name a
            then Some (VariableDeclarator id (ArrayExpression rotated1))
            else getBinding name)
         (CallExpression (FunctionExpression params2 (BlockStatement body2))
            [Identifier a; NumericLiteral n2 extra2]) first.2
       = ({| Rotator.array_elements :=
               Some (a, drop ((R1 + R2) mod L) elements
                        ++ take ((R1 + R2) mod L) elements);
             Rotator.removed := true |}, S (S c)).
Proof.
  intros Hpush1 Hshift1 Hpush2 Hshift2 Hbind Hne L R1 R2 first.
  assert (HL : 0 < L).
  { subst L. destruct elements; [congruence | simpl; lia]. }
  subst first.
  rewrite (visit_rotator_iife getBinding params1 body1 a n1 extra1 id
             elements c Hpush1 Hshift1 Hbind Hne).
  cbn [fst snd Rotator.array_elements]. eexists. split; [reflexivity|].
  rewrite (visit_rotator_iife _ params2 body2 a n2 extra2 id
             (Nat.iter R1 Rotator.shift_push elements) (S c) Hpush2 Hshift2).
  - fold R2. rewrite <- Nat.iter_add, (Nat.add_comm R2 R1).
    rewrite iter_shift_push_mod. fold L.
    rewrite iter_shift_push.
    + reflexivity.
    + fold L. pose proof (Nat.mod_upper_bound (R1 + R2) L). lia.
  - rewrite String.eqb_refl. reflexivity.
  - intros Hnil. apply (f_equal length) in Hnil.
    rewrite iter_shift_push_length in Hnil. fold L in Hnil. simpl in Hnil. lia.
Qed.

Lemma rotator_rotations_compose_witness :
  exists rotated1,
    Rotator.array_elements
      (Rotator.visit_CallExpression
         (Rotator.scenario_scope Rotator.four_strings)
         Rotator.scenario_iife 0).1
    = Some ("a", rotated1)
    /\ Rotator.visit_CallExpression
         (fun name =>
            if String.eqb name "a"
            then Some (VariableDeclarator (Identifier "a")
                         (ArrayExpression rotated1))
            else Rotator.scenario_scope Rotator.four_strings name)
         Rotator.scenario_iife
         (Rotator.visit_CallExpression
            (Rotator.scenario_scope Rotator.four_strings)
            Rotator.scenario_iife 0).2
       = ({| Rotator.array_elements :=
               Some ("a", [ StringLiteral "three" true;
                            StringLiteral "four" true;
                            StringLiteral "one" true;
                            StringLiteral "two" true ]);
             Rotator.removed := true |}, 2).
Proof.
  apply (rotator_rotations_compose
           (Rotator.scenario_scope Rotator.four_strings)
           ["e"; "f"] ["e"; "f"] Rotator.scenario_body Rotator.scenario_body
           "a" 2%N 2%N true true (Identifier "a") Rotator.four_strings 0).
  - vm_compute; reflexivity.
  - vm_compute; reflexivity.
  - vm_compute; reflexivity.
  - vm_compute; reflexivity.
  - reflexivity.
  - discriminate.
Defined.

(** ** More on the proxy inliner *)

Section ProxyFacts.

Context {Path : Type}.

Let state := ProxyInliner.state Path.
Let event := ProxyInliner.event Path.
Let action := ProxyInliner.action Path.

Lemma map_lookup_Some {A B : Type} (f : A -> B) (l : list A) (i : nat)
    (x : A) :
  l !! i = Some x -> map f l !! i = Some (f x).
Proof.
  revert i. induction l as [|a l IH]; intros [|i] H; simpl in *;
    try discriminate.
  - injection H as <-. reflexivity.
  - apply IH. exact H.
Qed.

Lemma analyzeProxyFunction_cases (funcName : string) (params : list string)
    (body : node) (getBinding : string -> option node) (st : state) :
  ProxyInliner.analyzeProxyFunction funcName params body getBinding st
  = (false, st)
  \/ exists detectedArrayName detectedOffset id elements,
       ProxyInliner.analyzeProxyFunction funcName params body getBinding st
       = (true,
          {| ProxyInliner.proxyName := funcName;
             ProxyInliner.proxyPath := ProxyInliner.proxyPath st;
             ProxyInliner.arrayName := detectedArrayName;
             ProxyInliner.offset := detectedOffset;
             ProxyInliner.stringArray :=
               map (fun el => match el with
                              | StringLiteral value _ => value
                              | _ => ""
                              end) elements |})
       /\ 1 <= length params <= 2
       /\ detectedArrayName <> ""
       /\ getBinding detectedArrayName
          = Some (VariableDeclarator id (ArrayExpression elements)).
Proof.
  unfold ProxyInliner.analyzeProxyFunction.
  destruct ((length params <? 1) || (2 <? length params)) eqn:Hparams;
    [left; reflexivity|].
  apply orb_false_elim in Hparams. destruct Hparams as [H1 H2].
  apply Nat.ltb_ge in H1, H2.
  set (name := default "" _). set (off := default 0%N _).
  destruct (ProxyInliner.truthy name) eqn:Hname; simpl;
    [|left; reflexivity].
  destruct (getBinding name) as [b|] eqn:Hbind; [|left; reflexivity].
  repeat match goal with
  | |- context [match ?x with _ => _ end] => is_var x; destruct x
  end; try (left; reflexivity).
  right. exists name, off. do 2 eexists.
  split; [reflexivity|]. split; [lia|]. split; [|exact Hbind].
  intros E. rewrite E in Hname. discriminate.
Qed.

(** X16.  A detection captures everything or nothing.  When
    [analyzeProxyFunction] answers [false] the captured state is what it
    was.  When it answers [true] the function has one or two parameters,
    the array name found in its body is not empty and resolves to a
    declarator initialised with an array expression, and the captured
    strings are that array, element by element: the value of a string
    literal, the empty string for anything else. *)
Theorem proxy_detection_all_or_nothing (funcName : string)
    (params : list string) (body : node)
    (getBinding : string -> option node) (st : state) :
  let result :=
    ProxyInliner.analyzeProxyFunction funcName params body getBinding st in
  (result.1 = false /\ result.2 = st)
  \/ (result.1 = true
      /\ 1 <= length params <= 2
      /\ ProxyInliner.proxyName result.2 = funcName
      /\ ProxyInliner.proxyPath result.2 = ProxyInliner.proxyPath st
      /\ ProxyInliner.arrayName result.2 <> ""
      /\ exists id elements,
           getBinding (ProxyInliner.arrayName result.2)
           = Some (VariableDeclarator id (ArrayExpression elements))
           /\ length (ProxyInliner.stringArray result.2) = length elements
           /\ forall i el,
                elements !! i = Some el ->
                ProxyInliner.stringArray result.2 !! i
                = Some (match el with
                        | StringLiteral value _ => value
                        | _ => ""
                        end)).
Proof.
  destruct (analyzeProxyFunction_cases funcName params body getBinding st)
    as [E | (name & off & id & elements & E & Hparams & Hname & Hbind)];
    simpl; rewrite E; simpl.
  - left. split; reflexivity.
  - right. split; [reflexivity|]. split; [exact Hparams|].
    split; [reflexivity|]. split; [reflexivity|]. split; [exact Hname|].
    exists id, elements. split; [exact Hbind|].
    split; [apply length_map|].
    intros i el Hel.
    exact (map_lookup_Some
             (fun el => match el with
                        | StringLiteral value _ => value
                        | _ => ""
                        end) elements i el Hel).
Qed.

Lemma truthy_nonempty (s : string) : ProxyInliner.truthy s = true -> s <> "".
Proof.
  unfold ProxyInliner.truthy. intros H ->. discriminate.
Qed.

Lemma exit_CallExpression_shape (n : node) (st : state) (c : nat) :
  ProxyInliner.exit_CallExpression n st c = (None, c)
  \/ exists s,
       ProxyInliner.exit_CallExpression n st c
       = (Some (StringLiteral s false), S c)
       /\ In s (ProxyInliner.stringArray st)
       /\ ProxyInliner.proxyName st <> "".
Proof.
  unfold ProxyInliner.exit_CallExpression.
  destruct (ProxyInliner.truthy (ProxyInliner.proxyName st)) eqn:Hname;
    simpl; [|left; reflexivity].
  apply truthy_nonempty in Hname.
  repeat match goal with
  | |- context [if ?b then _ else _] => destruct b eqn:?
  | |- context [match ?x with _ => _ end] => destruct x eqn:?
  end; try (left; reflexivity).
  all: right; eexists; split; [reflexivity|]; split; [|exact Hname].
  all: apply nth_In.
  all: match goal with
       | H : (_ <? 0)%Z || (_ <=? _)%Z = false |- _ =>
           apply orb_false_elim in H; destruct H as [Hlo Hhi];
           apply Z.ltb_ge in Hlo; apply Z.leb_gt in Hhi; lia
       end.
Qed.

Lemma exit_Program_shape (st : state) (c : nat) :
  ProxyInliner.exit_Program st c = (None, c)
  \/ exists path,
       ProxyInliner.exit_Program st c = (Some path, S c)
       /\ ProxyInliner.proxyPath st = Some path
       /\ ProxyInliner.proxyName st <> "".
Proof.
  unfold ProxyInliner.exit_Program.
  destruct (ProxyInliner.proxyPath st) as [path|]; [|left; reflexivity].
  destruct (ProxyInliner.truthy _) eqn:Hname; [|left; reflexivity].
  right. exists path. split; [reflexivity|]. split; [reflexivity|].
  apply truthy_nonempty. exact Hname.
Qed.

Lemma run_after_detection (st : state) (c : nat) (events : list event) :
  ProxyInliner.proxyName st <> "" -> (ProxyInliner.run st c events).1.1 = st.
Proof.
  intros Hp. revert c. induction events as [|e rest IH]; intros c;
    [reflexivity|].
  simpl. pose proof (step_after_detection st c e Hp) as Hs.
  destruct (ProxyInliner.step st c e) as [[st1 c1] acts1]. simpl in Hs.
  subst st1. specialize (IH c1).
  destruct (ProxyInliner.run st c1 rest) as [[st2 c2] acts2]. exact IH.
Qed.

(** What an edit has to do with a captured state. *)
Let edit_of (st : state) (a : action) : Prop :=
  match a with
  | ProxyInliner.ReplaceWith _ replacement =>
      exists s, replacement = StringLiteral s false
                /\ In s (ProxyInliner.stringArray st)
  | ProxyInliner.Remove path => ProxyInliner.proxyPath st = Some path
  end.

Lemma step_accounts (st : state) (c : nat) (e : event) :
  (ProxyInliner.step st c e).1.2 = c + length (ProxyInliner.step st c e).2
  /\ ((ProxyInliner.step st c e).2 = []
      \/ (ProxyInliner.proxyName st <> ""
          /\ Forall (edit_of st) (ProxyInliner.step st c e).2)).
Proof.
  destruct e as [path n gb | path n gb | path n |]; simpl;
    try (split; [lia | left; reflexivity]).
  - destruct (exit_CallExpression_shape n st c) as [E | (s & E & Hin & Hp)];
      rewrite E; simpl; [split; [lia | left; reflexivity]|].
    split; [lia|]. right. split; [exact Hp|].
    apply Forall_cons; split; [|apply Forall_nil; exact I].
    exists s. split; [reflexivity | exact Hin].
  - destruct (exit_Program_shape st c) as [E | (path & E & Hpath & Hp)];
      rewrite E; simpl; [split; [lia | left; reflexivity]|].
    split; [lia|]. right. split; [exact Hp|].
    apply Forall_cons; split; [exact Hpath | apply Forall_nil; exact I].
Qed.

(** X17.  Over any sequence of handler calls, from any state, the
    counter grows by exactly the number of edits the visitor asks for;
    every replacement is a string literal without formatting hint whose
    value is one of the captured strings, and every removal is that of
    the captured declaration. *)
Theorem proxy_run_accounting (st : state) (c : nat) (events : list event) :
  let result := ProxyInliner.run st c events in
  result.1.2 = c + length result.2
  /\ Forall
       (fun a : action =>
          match a with
          | ProxyInliner.ReplaceWith _ replacement =>
              exists s, replacement = StringLiteral s false
                        /\ In s (ProxyInliner.stringArray result.1.1)
          | ProxyInliner.Remove path =>
              ProxyInliner.proxyPath result.1.1 = Some path
          end) result.2.
Proof.
  simpl. change (let result := ProxyInliner.run st c events in
                 result.1.2 = c + length result.2
                 /\ Forall (edit_of result.1.1) result.2).
  revert st c. induction events as [|e rest IH]; intros st c; simpl.
  - split; [lia | apply Forall_nil; exact I].
  - destruct (step_accounts st c e) as [Hc Hacts].
    pose proof (fun Hp => step_after_detection st c e Hp) as Hstable.
    destruct (ProxyInliner.step st c e) as [[st1 c1] acts1]. simpl in *.
    specialize (IH st1 c1).
    pose proof (fun Hp => run_after_detection st1 c1 rest Hp) as Hrest.
    destruct (ProxyInliner.run st1 c1 rest) as [[st2 c2] acts2]. simpl in *.
    destruct IH as [IHc IHacts]. split.
    + rewrite length_app. lia.
    + apply Forall_app. split; [|exact IHacts].
      destruct Hacts as [-> | [Hp Hall]]; [apply Forall_nil; exact I|].
      rewrite (Hstable Hp) in Hrest. rewrite (Hrest Hp). exact Hall.
Qed.

(** X18.  A proxy over an array without elements: no call is ever
    inlined, whatever its argument, but the declaration of the proxy is
    still removed, and counted, at every [Program] exit. *)
Theorem proxy_over_empty_array (st : state) (path : Path) (c : nat)
    (events : list event) :
  ProxyInliner.proxyName st <> "" ->
  ProxyInliner.stringArray st = [] ->
  ProxyInliner.proxyPath st = Some path ->
  (forall n c0, ProxyInliner.exit_CallExpression n st c0 = (None, c0))
  /\ (ProxyInliner.run st c events).2
     = map (fun _ => ProxyInliner.Remove path)
         (List.filter
            (fun e => match e with
                      | ProxyInliner.ExitProgram => true
                      | _ => false
                      end) events).
Proof.
  intros Hp Hempty Hpath.
  assert (Hcall : forall n c0,
             ProxyInliner.exit_CallExpression n st c0 = (None, c0)).
  { intros n c0. unfold ProxyInliner.exit_CallExpression.
    rewrite Hempty. simpl. rewrite orb_true_r. reflexivity. }
  split; [exact Hcall|].
  revert c. induction events as [|e rest IH]; intros c; [reflexivity|].
  simpl. pose proof (step_after_detection st c e Hp) as Hs.
  assert (Hacts : (ProxyInliner.step st c e).2
                  = match e with
                    | ProxyInliner.ExitProgram => [ProxyInliner.Remove path]
                    | _ => []
                    end).
  { destruct e as [p n gb | p n gb | p n |]; simpl; try reflexivity.
    - rewrite Hcall. reflexivity.
    - unfold ProxyInliner.exit_Program.
      rewrite Hpath, (truthy_true _ Hp). reflexivity. }
  destruct (ProxyInliner.step st c e) as [[st1 c1] acts1]. simpl in Hs, Hacts.
  subst st1 acts1. specialize (IH c1).
  destruct (ProxyInliner.run st c1 rest) as [[st2 c2] acts2]. simpl in IH.
  subst acts2. destruct e; reflexivity.
Qed.

End ProxyFacts.

Lemma proxy_over_empty_array_witness :
  (ProxyInliner.run
     {| ProxyInliner.proxyName := "b"; ProxyInliner.proxyPath := Some 1;
        ProxyInliner.arrayName := "a"; ProxyInliner.offset := 0%N;
        ProxyInliner.stringArray := [] |}
     0 ProxyInliner.scenario_events).2
  = [ProxyInliner.Remove 1].
Proof.
  refine (proj2 (proxy_over_empty_array
                   {| ProxyInliner.proxyName := "b";
                      ProxyInliner.proxyPath := Some 1;
                      ProxyInliner.arrayName := "a";
                      ProxyInliner.offset := 0%N;
                      ProxyInliner.stringArray := [] |}
                   1 0 ProxyInliner.scenario_events _ _ _)).
  - discriminate.
  - reflexivity.
  - reflexivity.
Defined.

(** ** The normalizer and the simplifier on whole programs *)

Lemma walk_children_known (visit : nat -> node -> nat -> option node * nat)
    (f : node -> node) (g : node -> nat) (l : list node) :
  Forall (fun c => forall i s, visit i c s = (Some (f c), s + g c)) l ->
  forall i s,
    Traverse.walk_children visit Traverse.no_fresh i l s
    = (map Some (map f l), s + list_sum (map g l)).
Proof.
  induction 1 as [|c l Hc Hl IH]; intros i s; simpl.
  - rewrite Nat.add_0_r. reflexivity.
  - rewrite Hc, IH. f_equal. lia.
Qed.

Lemma leave_no_exit (ctx : Traverse.context) (k : kind) (cs : list node)
    (s : nat) :
  Traverse.leave Abba.no_exit ctx k (map Some cs, s) = (Some (Node k cs), s).
Proof.
  unfold Traverse.leave. rewrite rebuild_all_present. reflexivity.
Qed.

Lemma normalizer_traverse (n : node) :
  forall loc outer c,
    Traverse.traverse Abba.normalizer_enter Abba.no_exit loc outer n c
    = (Some (Whole.normalized n), c + Whole.count_extra n).
Proof.
  induction n as [k cs IH] using node_ind'. intros loc outer c.
  assert (Hwalk : forall scopes s,
    Traverse.walk_children
      (fun i child s =>
         Traverse.traverse Abba.normalizer_enter Abba.no_exit (loc ++ [i])
           scopes child s) Traverse.no_fresh 0 cs s
    = (map Some (map Whole.normalized cs),
       s + list_sum (map Whole.count_extra cs))).
  { intros scopes s. apply walk_children_known.
    eapply Forall_impl; [exact IH|]. intros child Hchild i s0. apply Hchild. }
  cbn [Traverse.traverse Whole.normalized Whole.count_extra].
  unfold Abba.normalizer_enter. cbn [type_of].
  destruct k as [| | value [|] | value [|] | | | | | | | | | | | | | | | | | | | | | | | | | |];
    cbn [Whole.without_extra Whole.has_extra];
    try (change (fun _ : nat => @None node) with Traverse.no_fresh);
    rewrite Hwalk, leave_no_exit; f_equal; lia.
Qed.

Lemma normalized_idempotent (n : node) :
  Whole.normalized (Whole.normalized n) = Whole.normalized n
  /\ Whole.count_extra (Whole.normalized n) = 0.
Proof.
  induction n as [k cs IH] using node_ind'. simpl. split.
  - f_equal; [destruct k; reflexivity|].
    rewrite map_map. apply map_ext_Forall.
    eapply Forall_impl; [exact IH|]. intros c [Hc _]. exact Hc.
  - assert (Hk : Whole.has_extra (Whole.without_extra k) = false)
      by (destruct k; reflexivity).
    rewrite Hk. simpl. rewrite map_map.
    induction IH as [|c l [_ Hc] Hl IHl]; simpl; [reflexivity|].
    rewrite Hc, IHl. reflexivity.
Qed.

(** X19.  On any tree the normalizer drops the formatting hint of every
    string and numeric literal and changes nothing else, and the number
    of changes it reports is the number of literals that carried one.
    Run on its own output it changes nothing and reports zero. *)
Theorem stringNormalizer_whole_tree (ast : node) :
  Abba.stringNormalizer ast = (Whole.normalized ast, Whole.count_extra ast)
  /\ Abba.stringNormalizer (Abba.stringNormalizer ast).1
     = ((Abba.stringNormalizer ast).1, 0).
Proof.
  assert (H : forall t,
    Abba.stringNormalizer t = (Whole.normalized t, Whole.count_extra t)).
  { intros t. unfold Abba.stringNormalizer, Traverse.traverse_program.
    rewrite normalizer_traverse. reflexivity. }
  split; [apply H|].
  rewrite !H. simpl.
  destruct (normalized_idempotent ast) as [-> ->]. reflexivity.
Qed.

Section SimplifierFacts.

Variable isValidIdentifier : string -> bool -> bool.

Let convertible := Whole.convertible isValidIdentifier.
Let simplified := Whole.simplified isValidIdentifier.
Let count_convertible := Whole.count_convertible isValidIdentifier.

Lemma convertible_Some (n : node) (propName : string) :
  convertible n = Some propName ->
  exists object extra,
    n = MemberExpression object (StringLiteral propName extra) true
    /\ Abba.VALID_IDENTIFIER_REGEX propName = true
    /\ isValidIdentifier propName false = true.
Proof.
  unfold convertible, Whole.convertible. intros H.
  repeat match type of H with
         | match ?x with _ => _ end = _ =>
             is_var x; destruct x; try discriminate
         end.
  match type of H with
  | (if ?b then _ else _) = _ => destruct b eqn:Hb; [|discriminate]
  end.
  injection H as <-. apply andb_prop in Hb. destruct Hb as [H1 H2].
  eauto.
Qed.

Lemma simplifier_enter_convertible (ctx : Traverse.context) (n : node)
    (c : nat) :
  Abba.simplifier_enter isValidIdentifier ctx n c
  = match convertible n with
    | Some propName =>
        (Traverse.Rewrite (KMemberExpression false)
           (fun i => if i =? 1 then Some (t_identifier propName) else None),
         S c)
    | None => (Traverse.Continue, c)
    end.
Proof.
  unfold Abba.simplifier_enter, convertible, Whole.convertible.
  repeat match goal with
         | |- context [match ?x with _ => _ end] =>
             is_var x; destruct x; try reflexivity
         end.
  destruct (Abba.VALID_IDENTIFIER_REGEX _); simpl; [|reflexivity].
  destruct (isValidIdentifier _ _); reflexivity.
Qed.

Lemma simplifier_traverse (n : node) :
  forall loc outer c,
    Traverse.traverse (Abba.simplifier_enter isValidIdentifier) Abba.no_exit
      loc outer n c
    = (Some (simplified n), c + count_convertible n).
Proof.
  induction n as [k cs IH] using node_ind'. intros loc outer c.
  cbn [Traverse.traverse].
  rewrite simplifier_enter_convertible.
  unfold simplified, count_convertible.
  cbn [Whole.simplified Whole.count_convertible].
  fold convertible.
  destruct (convertible (Node k cs)) as [propName|] eqn:E.
  - destruct (convertible_Some _ _ E) as (object & extra & Hn & _).
    injection Hn as -> ->.
    apply Forall_cons in IH. destruct IH as [IHo _].
    cbn [Traverse.walk_children Nat.eqb]. rewrite IHo.
    cbn [Traverse.walk_children Nat.eqb].
    change [Some (simplified object); Some (t_identifier propName)]
      with (map Some [simplified object; t_identifier propName]).
    rewrite leave_no_exit. unfold simplified, count_convertible.
    f_equal. lia.
  - rewrite (walk_children_known _ simplified count_convertible).
    + rewrite leave_no_exit.
      destruct cs; reflexivity.
    + eapply Forall_impl; [exact IH|]. intros child Hchild i s. apply Hchild.
Qed.

Lemma simplified_string_literal (n : node) (value : string) (extra : bool) :
  simplified n = StringLiteral value extra <-> n = StringLiteral value extra.
Proof.
  destruct n as [k cs]. unfold simplified. cbn [Whole.simplified].
  fold convertible.
  destruct (convertible (Node k cs)) as [propName|] eqn:E.
  - destruct (convertible_Some _ _ E) as (object & extra' & Hn & _).
    injection Hn as -> ->. split; discriminate.
  - split; intros H; injection H as -> Hcs.
    + destruct cs; [reflexivity | discriminate].
    + subst cs. reflexivity.
Qed.

Lemma convertible_simplified_children (k : kind) (cs : list node) :
  convertible (Node k (map simplified cs)) = convertible (Node k cs).
Proof.
  destruct k; try reflexivity.
  destruct computed; [|reflexivity].
  destruct cs as [|object [|property tail]]; try reflexivity.
  cbn [map].
  destruct (simplified property) as [sk scs] eqn:Es.
  destruct property as [pk pcs].
  unfold convertible, Whole.convertible.
  assert (Hleaf : forall value extra,
             simplified (StringLiteral value extra) = StringLiteral value extra)
    by (intros; apply simplified_string_literal; reflexivity).
  destruct sk, pk; try reflexivity;
    try (destruct scs; [|reflexivity];
         apply (proj1 (simplified_string_literal _ _ _)) in Es; discriminate);
    try (destruct pcs; [|reflexivity];
         rewrite Hleaf in Es; discriminate).
  destruct scs as [|? ?], pcs as [|? ?].
  - apply (proj1 (simplified_string_literal _ _ _)) in Es. injection Es as -> ->.
    destruct tail; reflexivity.
  - apply (proj1 (simplified_string_literal _ _ _)) in Es. discriminate.
  - rewrite Hleaf in Es. discriminate.
  - reflexivity.
Qed.

Lemma simplified_idempotent (n : node) :
  simplified (simplified n) = simplified n
  /\ count_convertible (simplified n) = 0.
Proof.
  induction n as [k cs IH] using node_ind'.
  unfold simplified, count_convertible.
  cbn [Whole.simplified]. fold convertible.
  destruct (convertible (Node k cs)) as [propName|] eqn:E.
  - destruct (convertible_Some _ _ E) as (object & extra & Hn & _).
    injection Hn as -> ->.
    apply Forall_cons in IH. destruct IH as [[IHo IHc] _].
    cbn [Whole.simplified Whole.count_convertible Whole.convertible map
         list_sum].
    unfold simplified, count_convertible in *.
    rewrite IHo, IHc. split; reflexivity.
  - cbn [Whole.simplified Whole.count_convertible].
    fold convertible simplified count_convertible.
    rewrite convertible_simplified_children, E.
    assert (Hmap : map simplified (map simplified cs) = map simplified cs
                   /\ list_sum (map count_convertible (map simplified cs)) = 0).
    { clear E. induction IH as [|c l [Hc1 Hc2] Hl [IH1 IH2]]; simpl;
        [split; reflexivity|].
      rewrite Hc1, Hc2, IH1, IH2. split; reflexivity. }
    destruct Hmap as [Hm Hs].
    split.
    + destruct (map simplified cs) eqn:Ecs; simpl in *; rewrite ?Hm;
        reflexivity.
    + destruct (map simplified cs) eqn:Ecs; simpl in *; rewrite ?Hs;
        reflexivity.
Qed.

(** X20.  On any tree the simplifier turns every computed member
    expression whose property is a string literal that passes both
    identifier tests into dot notation, the object being simplified in
    turn, and leaves every other node as it is; it reports one change per
    conversion.  Run on its own output it changes nothing and reports
    zero. *)
Theorem memberExpressionSimplifier_whole_tree (ast : node) :
  Abba.memberExpressionSimplifier isValidIdentifier ast
  = (Whole.simplified isValidIdentifier ast,
     Whole.count_convertible isValidIdentifier ast)
  /\ Abba.memberExpressionSimplifier isValidIdentifier
       (Abba.memberExpressionSimplifier isValidIdentifier ast).1
     = ((Abba.memberExpressionSimplifier isValidIdentifier ast).1, 0).
Proof.
  assert (H : forall t,
    Abba.memberExpressionSimplifier isValidIdentifier t
    = (simplified t, count_convertible t)).
  { intros t. unfold Abba.memberExpressionSimplifier,
      Traverse.traverse_program.
    rewrite simplifier_traverse. reflexivity. }
  split; [apply H|].
  rewrite !H. simpl.
  destruct (simplified_idempotent ast) as [-> ->]. reflexivity.
Qed.

End SimplifierFacts.

(** ** More on the module resolver *)

Lemma string_app_nil_r (s : string) : (s ++ "")%string = s.
Proof.
  induction s as [|a s IH]; [reflexivity|].
  change (String a (s ++ "")%string = String a s). f_equal. exact IH.
Qed.

Lemma string_app_assoc (a b c : string) :
  ((a ++ b) ++ c)%string = (a ++ (b ++ c))%string.
Proof.
  induction a as [|x a IH]; [reflexivity|].
  change (String x ((a ++ b) ++ c)%string = String x (a ++ (b ++ c))%string).
  f_equal. exact IH.
Qed.

Lemma split_dot_nonempty (s current : string) : Abba.split_dot s current <> [].
Proof.
  revert current. induction s as [|a s IH]; intros current; simpl;
    [discriminate|].
  destruct (Ascii.eqb a "."); [discriminate | apply IH].
Qed.

Lemma split_dot_concat (s current : string) :
  String.concat "." (Abba.split_dot s current) = (current ++ s)%string.
Proof.
  revert current. induction s as [|a s IH]; intros current; simpl.
  - rewrite string_app_nil_r. reflexivity.
  - destruct (Ascii.eqb_spec a ".") as [->|Hne].
    + pose proof (split_dot_nonempty s "") as Hne.
      specialize (IH ""). simpl in IH.
      destruct (Abba.split_dot s "") as [|x l]; [congruence|].
      change (String.concat "." (current :: x :: l))
        with (current ++ "." ++ String.concat "." (x :: l))%string.
      rewrite IH. reflexivity.
    + rewrite IH, string_app_assoc. reflexivity.
Qed.

Lemma dot_free_app (a b : string) :
  Whole.dot_free (a ++ b) = Whole.dot_free a && Whole.dot_free b.
Proof.
  unfold Whole.dot_free.
  induction a as [|x a IH]; simpl; [reflexivity|].
  rewrite IH, andb_assoc. reflexivity.
Qed.

Lemma split_dot_dot_free (s current : string) :
  Whole.dot_free current = true ->
  Forall (fun part => Whole.dot_free part = true) (Abba.split_dot s current).
Proof.
  revert current. induction s as [|a s IH]; intros current Hc; simpl.
  - apply Forall_cons; split; [exact Hc | apply Forall_nil; exact I].
  - destruct (Ascii.eqb a ".") eqn:Ea.
    + apply Forall_cons; split; [exact Hc | apply IH; reflexivity].
    + apply IH. rewrite dot_free_app, Hc. unfold Whole.dot_free. simpl.
      rewrite Ea. reflexivity.
Qed.

Lemma member_path_build (parts : list string) :
  forall expr registry before,
    Whole.member_path expr = Some (registry, before) ->
    Whole.member_path
      (fold_left
         (fun expr part => MemberExpression expr (t_stringLiteral part) true)
         parts expr)
    = Some (registry, before ++ parts).
Proof.
  induction parts as [|part parts IH]; intros expr registry before H; simpl.
  - rewrite app_nil_r. exact H.
  - rewrite (IH _ registry (before ++ [part])).
    + rewrite <- app_assoc. reflexivity.
    + cbn [Whole.member_path t_stringLiteral]. rewrite H. reflexivity.
Qed.

(** X21.  A call of the detected loader with a string-literal path and a
    function as factory is replaced by [target = factory(target)], where
    [target] is a chain of computed accesses rooted at the registry
    identifier, one access per segment of the path: the segments contain
    no dot and joined by dots give the path back.  One change is counted,
    and arguments after the factory are dropped. *)
Theorem resolver_call_replaced (ctx : Traverse.context)
    (s : Abba.resolver_state) (modulePath : string) (extra : bool)
    (factoryNode : node) (rest : list node) :
  Abba.loaderName s <> "" ->
  Abba.registryName s <> "" ->
  Abba.is_factory factoryNode = true ->
  exists target parts,
    Abba.resolver_exit ctx
      (CallExpression (Identifier (Abba.loaderName s))
         (StringLiteral modulePath extra :: factoryNode :: rest)) s
    = (Some (AssignmentExpression "=" target
               (CallExpression factoryNode [target])),
       Abba.bump s)
    /\ Whole.member_path target = Some (Abba.registryName s, parts)
    /\ parts <> []
    /\ String.concat "." parts = modulePath
    /\ Forall (fun part => Whole.dot_free part = true) parts.
Proof.
  intros Hloader Hregistry Hfactory.
  exists (Abba.buildMemberExpression (Abba.registryName s)
            (Abba.split_dot modulePath "")),
         (Abba.split_dot modulePath "").
  split; [|split; [|split; [|split]]].
  - unfold Abba.resolver_exit.
    rewrite (truthy_true _ Hloader), (truthy_true _ Hregistry).
    rewrite String.eqb_refl, Hfactory. reflexivity.
  - unfold Abba.buildMemberExpression.
    apply (member_path_build _ _ (Abba.registryName s) []). reflexivity.
  - apply split_dot_nonempty.
  - apply split_dot_concat.
  - apply split_dot_dot_free. reflexivity.
Qed.

Lemma resolver_call_replaced_witness :
  exists target parts,
    Abba.resolver_exit {| Traverse.location := []; Traverse.scopes := [] |}
      (CallExpression (Identifier "M")
         [ StringLiteral "A.B" true;
           FunctionExpression ["v"]
             (BlockStatement [ReturnStatement (Identifier "v")]) ])
      {| Abba.loaderName := "M"; Abba.loaderPath := Some [1];
         Abba.registryName := "R"; Abba.resolver_changes := 0 |}
    = (Some (AssignmentExpression "=" target
               (CallExpression
                  (FunctionExpression ["v"]
                     (BlockStatement [ReturnStatement (Identifier "v")]))
                  [target])),
       {| Abba.loaderName := "M"; Abba.loaderPath := Some [1];
          Abba.registryName := "R"; Abba.resolver_changes := 1 |})
    /\ Whole.member_path target = Some ("R", parts)
    /\ parts <> []
    /\ String.concat "." parts = "A.B"
    /\ Forall (fun part => Whole.dot_free part = true) parts.
Proof.
  apply (resolver_call_replaced
           {| Traverse.location := []; Traverse.scopes := [] |}
           {| Abba.loaderName := "M"; Abba.loaderPath := Some [1];
              Abba.registryName := "R"; Abba.resolver_changes := 0 |}
           "A.B" true
           (FunctionExpression ["v"]
              (BlockStatement [ReturnStatement (Identifier "v")])) []).
  - discriminate.
  - discriminate.
  - reflexivity.
Defined.

(** ** Programs a transform has nothing to do on *)

Lemma descendants_children (k : kind) (cs : list node) :
  descendants (Node k cs) = flat_map (fun c => c :: descendants c) cs.
Proof.
  simpl. induction cs as [|c cs IH]; [reflexivity|].
  simpl. rewrite IH. reflexivity.
Qed.

Lemma in_descendants_child (k : kind) (cs : list node) (c d : node) :
  In c cs -> In d (c :: descendants c) -> In d (descendants (Node k cs)).
Proof.
  intros Hc Hd. rewrite descendants_children. apply in_flat_map.
  exists c. split; assumption.
Qed.

Section Inert.

Context {S : Type}.
Variable enter : Traverse.context -> node -> S -> Traverse.entered * S.
Variable exit_ : Traverse.context -> node -> S -> option node * S.
Variable s : S.

(** In state [s] the handlers do nothing on [d] and stay in [s]. *)
Let inert (d : node) : Prop :=
  forall ctx, enter ctx d s = (Traverse.Continue, s)
              /\ exit_ ctx d s = (None, s).

Lemma walk_children_inert (visit : nat -> node -> S -> option node * S)
    (l : list node) :
  Forall (fun c => forall i, visit i c s = (Some c, s)) l ->
  forall i, Traverse.walk_children visit Traverse.no_fresh i l s
            = (map Some l, s).
Proof.
  induction 1 as [|c l Hc Hl IH]; intros i; simpl; [reflexivity|].
  rewrite Hc, IH. reflexivity.
Qed.

Lemma traverse_inert (n : node) :
  (forall d, In d (n :: descendants n) -> inert d) ->
  forall loc outer,
    Traverse.traverse enter exit_ loc outer n s = (Some n, s).
Proof.
  induction n as [k cs IH] using node_ind'. intros Hinert loc outer.
  cbn [Traverse.traverse].
  destruct (Hinert (Node k cs) (or_introl eq_refl)
              {| Traverse.location := loc;
                 Traverse.scopes :=
                   Traverse.scopes_at loc outer (Node k cs) |})
    as [Henter Hexit].
  rewrite Henter, walk_children_inert.
  - unfold Traverse.leave. rewrite rebuild_all_present, Hexit. reflexivity.
  - rewrite Forall_forall in IH. apply Forall_forall. intros c Hc i.
    apply list_elem_of_In in Hc. apply IH.
    + apply list_elem_of_In. exact Hc.
    + intros d Hd. apply Hinert. right.
      apply (in_descendants_child k cs c d); assumption.
Qed.

End Inert.

(** X22.  A program in which no function declaration has exactly two
    parameters has no loader: the module resolver returns it as it is and
    reports zero changes. *)
Theorem moduleResolver_without_candidate (ast : node) :
  (forall d, In d (ast :: descendants ast) ->
     match d with
     | Node (KFunctionDeclaration params) _ => length params <> 2
     | _ => True
     end) ->
  Abba.moduleResolver ast = (ast, 0).
Proof.
  intros Hnone. unfold Abba.moduleResolver, Traverse.traverse_program.
  rewrite traverse_inert; [reflexivity|].
  intros d Hd ctx. specialize (Hnone d Hd). split.
  - unfold Abba.resolver_enter. simpl.
    destruct d as [k cs]. destruct k; try reflexivity.
    destruct cs as [|[ik ics] [|body rest]]; try reflexivity;
      destruct ik; try reflexivity; destruct ics; try reflexivity.
    apply Nat.eqb_neq in Hnone. rewrite Hnone. reflexivity.
  - unfold Abba.resolver_exit. simpl.
    destruct d as [k cs].
    repeat match goal with
           | |- context [match ?x with _ => _ end] =>
               is_var x; destruct x; try reflexivity
           end.
Qed.

Lemma moduleResolver_without_candidate_witness :
  Abba.moduleResolver Abba.two_proxies = (Abba.two_proxies, 0).
Proof.
  apply moduleResolver_without_candidate.
  intros d Hd. simpl in Hd.
  repeat (destruct Hd as [<-|Hd]; [simpl; try exact I; discriminate|]).
  destruct Hd.
Defined.

(** X23.  A program in which every function declaration, and every
    function expression that initialises a declarator, has no parameter
    or more than two has no proxy: the proxy inliner returns it as it is
    and reports zero changes. *)
Theorem proxyInliner_without_candidate (ast : node) :
  (forall d, In d (ast :: descendants ast) ->
     match d with
     | Node (KFunctionDeclaration params) _
     | VariableDeclarator _ (Node (KFunctionExpression params) _) =>
         length params = 0 \/ 2 < length params
     | _ => True
     end) ->
  Abba.proxyInliner ast = (ast, 0).
Proof.
  intros Hnone. unfold Abba.proxyInliner, Traverse.traverse_program.
  rewrite traverse_inert; [reflexivity|].
  intros d Hd ctx. specialize (Hnone d Hd).
  assert (Hparams : forall params : list string,
             length params = 0 \/ 2 < length params ->
             (length params <? 1) || (2 <? length params) = true).
  { intros params [H|H].
    - rewrite H. reflexivity.
    - apply Nat.ltb_lt in H. rewrite H. apply orb_true_r. }
  split.
  - unfold Abba.proxy_enter. destruct d as [k cs].
    destruct k; try reflexivity; cbn [type_of].
    + unfold ProxyInliner.visit_VariableDeclarator. simpl.
      repeat match goal with
             | |- context [match ?x with _ => _ end] =>
                 is_var x; destruct x; try reflexivity
             end.
      unfold ProxyInliner.analyzeProxyFunction.
      rewrite (Hparams _ Hnone). reflexivity.
    + unfold ProxyInliner.visit_FunctionDeclaration. simpl.
      repeat match goal with
             | |- context [match ?x with _ => _ end] =>
                 is_var x; destruct x; try reflexivity
             end.
      unfold ProxyInliner.analyzeProxyFunction.
      rewrite (Hparams _ Hnone). reflexivity.
  - unfold Abba.proxy_exit. destruct d as [k cs].
    destruct k; reflexivity.
Qed.

Lemma proxyInliner_without_candidate_witness :
  Abba.proxyInliner
    (Program [ VariableDeclaration
                 [ VariableDeclarator (Identifier "a")
                     (ArrayExpression [StringLiteral "x" true]) ];
               FunctionDeclaration (Identifier "f") []
                 (BlockStatement
                    [ ReturnStatement
                        (MemberExpression (Identifier "a")
                           (NumericLiteral 0 true) true) ]) ])
  = (Program [ VariableDeclaration
                 [ VariableDeclarator (Identifier "a")
                     (ArrayExpression [StringLiteral "x" true]) ];
               FunctionDeclaration (Identifier "f") []
                 (BlockStatement
                    [ ReturnStatement
                        (MemberExpression (Identifier "a")
                           (NumericLiteral 0 true) true) ]) ], 0).
Proof.
  apply proxyInliner_without_candidate.
  intros d Hd. simpl in Hd.
  repeat (destruct Hd as [<-|Hd]; [simpl; try exact I; left; reflexivity|]).
  destruct Hd.
Defined.

(** X24.  A program in which no call has a function expression as its
    callee has no rotator: the string-array rotator returns it as it is
    and reports zero changes. *)
Theorem stringArrayRotator_without_candidate (ast : node) :
  (forall d, In d (ast :: descendants ast) ->
     match d with
     | Node KCallExpression (Node (KFunctionExpression _) _ :: _) => False
     | _ => True
     end) ->
  Abba.stringArrayRotator ast = (ast, 0).
Proof.
  intros Hnone. unfold Abba.stringArrayRotator, Traverse.traverse_program.
  rewrite traverse_inert; [reflexivity|].
  intros d Hd ctx. specialize (Hnone d Hd). split.
  - unfold Abba.rotator_enter. destruct d as [k cs].
    destruct k; try reflexivity. cbn [type_of].
    unfold Rotator.visit_CallExpression. simpl.
    destruct cs as [|[ck ccs] args]; try reflexivity.
    destruct ck; try reflexivity. destruct Hnone.
  - unfold Abba.rotator_exit. simpl.
    destruct (Traverse.is_scope (type_of d)); reflexivity.
Qed.

Lemma stringArrayRotator_without_candidate_witness :
  Abba.stringArrayRotator Abba.two_proxies = (Abba.two_proxies, 0).
Proof.
  apply stringArrayRotator_without_candidate.
  intros d Hd. simpl in Hd.
  repeat (destruct Hd as [<-|Hd]; [exact I|]).
  destruct Hd.
Defined.

(** ** The rotator on a program *)

(** The rotator does nothing on a node that is not a call while no write
    is waiting. *)
Lemma rotator_inert_without_call (d : node) (c : nat) (ctx : Traverse.context) :
  type_of d <> KCallExpression ->
  Abba.rotator_enter ctx d {| Abba.rotator_changes := c; Abba.written := [] |}
  = (Traverse.Continue,
     {| Abba.rotator_changes := c; Abba.written := [] |})
  /\ Abba.rotator_exit ctx d
       {| Abba.rotator_changes := c; Abba.written := [] |}
     = (None, {| Abba.rotator_changes := c; Abba.written := [] |}).
Proof.
  intros Hcall. split.
  - unfold Abba.rotator_enter. destruct d as [k cs]. simpl in *.
    destruct k; try reflexivity. congruence.
  - unfold Abba.rotator_exit. simpl. destruct (Traverse.is_scope _); reflexivity.
Qed.

(** C1, amended (rotation correctness).  The handler runs on a call whose
    callee is a function expression, whose two arguments are an
    identifier [a] and a numeric literal [n], whose body mentions [push]
    and [shift], and whose identifier resolves to a variable declarator
    initialised with a non-empty array expression of [L] elements.  With
    [R = n], plus one when some statement of the IIFE body is a call
    statement whose first argument is a prefix [++] update expression,
    the element list of the array becomes
    [[R mod L; ...; L-1; 0; ...; R mod L - 1]] of the original list, the
    IIFE is removed and one change is counted.  On the program
    [var a = [elements]; (function(...){...}(a, n));], with no call among
    the elements, the transform leaves [var a = [rotated];] and reports
    one change. *)
Theorem rotator_rotation_correct
    (getBinding : string -> option node) (params : list string)
    (bodyStatements : list node) (a : string) (n : N) (extra : bool)
    (id : node) (elements : list node) (c : nat) :
  json_includes "push" (BlockStatement bodyStatements) = true ->
  json_includes "shift" (BlockStatement bodyStatements) = true ->
  getBinding a = Some (VariableDeclarator id (ArrayExpression elements)) ->
  elements <> [] ->
  let L := length elements in
  let R := N.to_nat n
           + (if Rotator.detect_increment bodyStatements then 1 else 0) in
  let rotated := drop (R mod L) elements ++ take (R mod L) elements in
  let iife :=
    CallExpression (FunctionExpression params (BlockStatement bodyStatements))
      [Identifier a; NumericLiteral n extra] in
  Rotator.visit_CallExpression getBinding iife c
  = ({| Rotator.array_elements := Some (a, rotated);
        Rotator.removed := true |}, S c)
  /\ length rotated = L
  /\ (forall i, i < L -> rotated !! i = elements !! ((R mod L + i) mod L))
  /\ ((forall d, In d (flat_map (fun e => e :: descendants e) elements) ->
         type_of d <> KCallExpression) ->
      Abba.stringArrayRotator
        (Program [ VariableDeclaration
                     [VariableDeclarator (Identifier a)
                        (ArrayExpression elements)];
                   ExpressionStatement iife ])
      = (Program [ VariableDeclaration
                     [VariableDeclarator (Identifier a)
                        (ArrayExpression rotated)] ], 1)).
Proof.
  intros Hpush Hshift Hbind Hne L R rotated iife.
  assert (HL : 0 < L).
  { subst L. destruct elements; [congruence | simpl; lia]. }
  assert (Hr : R mod L < L) by (apply Nat.mod_upper_bound; lia).
  assert (Hhandler : forall getBinding' id' c',
    getBinding' a = Some (VariableDeclarator id' (ArrayExpression elements)) ->
    Rotator.visit_CallExpression getBinding' iife c'
    = ({| Rotator.array_elements := Some (a, rotated);
          Rotator.removed := true |}, S c')).
  { intros getBinding' id' c' Hbind'. subst iife.
    unfold Rotator.visit_CallExpression.
    rewrite Hpush, Hshift, Hbind'. simpl negb. simpl orb. cbv iota.
    rewrite (match_nonempty elements) by assumption.
    rewrite (effective_rotation n (Rotator.detect_increment bodyStatements)
               (length elements)).
    fold R L.
    rewrite iter_shift_push by (fold L; lia).
    reflexivity. }
  split; [exact (Hhandler getBinding id c Hbind)|]. split; [|split].
  - subst rotated. rewrite length_app, length_drop, length_take. fold L. lia.
  - intros i Hi. subst rotated. apply rotated_lookup; assumption.
  - intros Hcalls.
    set (declarator :=
           VariableDeclarator (Identifier a) (ArrayExpression elements)).
    set (declaration := VariableDeclaration [declarator]).
    set (program := Program [declaration; ExpressionStatement iife]).
    set (scopes := Traverse.scopes_at [] [] program).
    set (s0 := {| Abba.rotator_changes := 0; Abba.written := [] |}).
    assert (Hscope : Traverse.getBinding scopes a = Some ([], declarator)).
    { subst scopes program declaration declarator. cbn.
      rewrite String.eqb_refl. reflexivity. }
    assert (Hdeclaration : forall loc,
      Traverse.traverse Abba.rotator_enter Abba.rotator_exit loc scopes
        declaration s0 = (Some declaration, s0)).
    { intros loc. apply traverse_inert. intros d Hd ctx.
      apply rotator_inert_without_call.
      subst declaration declarator.
      repeat (rewrite descendants_children in Hd; cbn [flat_map app] in Hd).
      rewrite ?app_nil_r in Hd.
      destruct Hd as [<-|[<-|[<-|[<-|Hd]]]]; try discriminate.
      exact (Hcalls d Hd). }
    assert (Hiife : forall loc,
      Traverse.traverse Abba.rotator_enter Abba.rotator_exit loc scopes
        (ExpressionStatement iife) s0
      = (None, {| Abba.rotator_changes := 1;
                  Abba.written := [([], a, rotated)] |})).
    { intros loc.
      assert (Henter : forall ctx,
        Traverse.scopes ctx = scopes ->
        Abba.rotator_enter ctx iife s0
        = (Traverse.Removed,
           {| Abba.rotator_changes := 1;
              Abba.written := [([], a, rotated)] |})).
      { intros ctx Hctx. unfold Abba.rotator_enter.
        change (type_of iife) with KCallExpression. cbv iota.
        rewrite (Hhandler _ (Identifier a) 0).
        - cbn [Rotator.removed Rotator.array_elements]. rewrite Hctx, Hscope.
          reflexivity.
        - unfold Abba.current_binding. rewrite Hctx, Hscope. reflexivity. }
      cbn [Traverse.traverse].
      change (Abba.rotator_enter _ (ExpressionStatement iife) s0)
        with (Traverse.Continue, s0).
      cbv iota beta.
      change (Traverse.scopes_at loc scopes (ExpressionStatement iife))
        with scopes.
      cbn [Traverse.walk_children Traverse.no_fresh].
      subst iife. cbn [Traverse.traverse].
      rewrite Henter by reflexivity. reflexivity. }
    unfold Abba.stringArrayRotator, Traverse.traverse_program.
    subst program. cbn [Traverse.traverse].
    change (Abba.rotator_enter _ (Program _) _) with (Traverse.Continue, s0).
    cbv iota beta.
    cbn [Traverse.walk_children Traverse.no_fresh].
    fold declarator. fold declaration.
    change (Traverse.scopes_at [] [] _) with scopes.
    rewrite Hdeclaration. cbv iota beta zeta. rewrite Hiife.
    cbv iota beta zeta.
    unfold Traverse.leave.
    cbn [Traverse.rebuild Traverse.fill Traverse.fixed_slots Nat.ltb Nat.leb].
    unfold Abba.rotator_exit.
    cbn [type_of Traverse.is_scope Traverse.is_function orb Traverse.location
         Abba.written List.filter fst snd].
    rewrite !(bool_decide_eq_true_2 ([] = [] :> list nat)) by reflexivity.
    cbv iota beta.
    unfold Abba.show_writes. subst declaration declarator.
    cbn [fold_right Abba.write_bindings Abba.write_binding Nat.pred
         Traverse.is_function pattern_names existsb option_map].
    rewrite String.eqb_refl. reflexivity.
Qed.

Lemma rotator_rotation_correct_witness :
  Rotator.visit_CallExpression (Rotator.scenario_scope Rotator.four_strings)
    Rotator.scenario_iife 0
  = ({| Rotator.array_elements :=
          Some ("a", [ StringLiteral "four" true; StringLiteral "one" true;
                       StringLiteral "two" true; StringLiteral "three" true ]);
        Rotator.removed := true |}, 1)
  /\ Abba.stringArrayRotator
       (Program [ VariableDeclaration
                    [Rotator.scenario_array Rotator.four_strings];
                  ExpressionStatement Rotator.scenario_iife ])
     = (Program [ VariableDeclaration
                    [Rotator.scenario_array
                       [ StringLiteral "four" true; StringLiteral "one" true;
                         StringLiteral "two" true;
                         StringLiteral "three" true ]] ], 1).
Proof.
  destruct (rotator_rotation_correct
              (Rotator.scenario_scope Rotator.four_strings)
              ["e"; "f"] Rotator.scenario_body "a" 2%N true
              (Identifier "a") Rotator.four_strings 0)
    as (Hhandler & _ & _ & Hprogram).
  - vm_compute; reflexivity.
  - vm_compute; reflexivity.
  - vm_compute; reflexivity.
  - discriminate.
  - split; [exact Hhandler|]. apply Hprogram.
    intros d Hd. simpl in Hd.
    repeat (destruct Hd as [<-|Hd]; [discriminate|]). destruct Hd.
Defined.

(** ** More on the obfuscator.io target *)

Section ObfuscatorIOFrame.

Context {File Path Sandbox StringArray : Type}.
Variable stringArray_path : StringArray -> Path.
Variable stringArray_originalName : StringArray -> string.
Variable stringArray_length : StringArray -> nat.
Variable findStringArray : File -> option StringArray.
Variable findArrayRotator : StringArray -> option Path.
Variable findDecoders : StringArray -> list (ObfuscatorIO.Decoder Path).
Variable inlineObjectProps : File -> File * nat.
Variable inlineDecoderWrappers : Path -> File -> File * nat.
Variable inlineDecodedStrings :
  Sandbox -> StringArray -> list (ObfuscatorIO.Decoder Path) -> option Path ->
  File -> File * nat.
Variable cleanup : File -> File * nat.
Variable remove : Path -> File -> File.

Let context := ObfuscatorIO.context File Sandbox.

Let run :=
  ObfuscatorIO.run stringArray_path stringArray_originalName
    stringArray_length findStringArray findArrayRotator findDecoders
    inlineObjectProps inlineDecoderWrappers inlineDecodedStrings cleanup
    remove.

Let before_removal :=
  ObfuscatorIO.before_removal stringArray_originalName stringArray_length
    findArrayRotator findDecoders inlineObjectProps inlineDecoderWrappers
    inlineDecodedStrings.

(** Between two contexts: same sandbox, same log, no fewer changes. *)
Let framed (ctx ctx' : context) : Prop :=
  ObfuscatorIO.sandbox ctx' = ObfuscatorIO.sandbox ctx
  /\ ObfuscatorIO.logged ctx' = ObfuscatorIO.logged ctx
  /\ changes (ObfuscatorIO.state ctx) <= changes (ObfuscatorIO.state ctx').

Lemma framed_refl (ctx : context) : framed ctx ctx.
Proof. repeat split; reflexivity. Qed.

Lemma framed_trans (a b c : context) : framed a b -> framed b c -> framed a c.
Proof.
  intros (H1 & H2 & H3) (H4 & H5 & H6).
  repeat split; [congruence | congruence | lia].
Qed.

Lemma apply_framed (t : File -> File * nat) (ctx : context) :
  framed ctx (ObfuscatorIO.apply t ctx).
Proof.
  unfold ObfuscatorIO.apply. destruct (t (ObfuscatorIO.ast ctx)) as [tree n].
  repeat split; simpl; lia.
Qed.

Lemma wrappers_framed (decoders : list (ObfuscatorIO.Decoder Path))
    (ctx : context) :
  framed ctx
    (fold_left
       (fun ctx decoder =>
          ObfuscatorIO.apply
            (inlineDecoderWrappers (ObfuscatorIO.decoder_path decoder)) ctx)
       decoders ctx).
Proof.
  revert ctx. induction decoders as [|d decoders IH]; intros ctx; simpl.
  - apply framed_refl.
  - eapply framed_trans; [apply apply_framed | apply IH].
Qed.

Lemma removal_framed (stringArray : StringArray) (rotator : option Path)
    (decoders : list (ObfuscatorIO.Decoder Path)) (ctx : context) :
  framed ctx
    (ObfuscatorIO.remove_infrastructure stringArray_path remove stringArray
       rotator decoders ctx).
Proof.
  unfold ObfuscatorIO.remove_infrastructure.
  destruct (0 <? length decoders); [|apply framed_refl].
  repeat split; simpl; lia.
Qed.

Lemma before_removal_logged (sb : Sandbox) (stringArray : StringArray)
    (ctx : context) :
  ObfuscatorIO.sandbox (before_removal sb stringArray ctx)
  = ObfuscatorIO.sandbox ctx
  /\ ObfuscatorIO.logged (before_removal sb stringArray ctx)
     = ObfuscatorIO.logged ctx
       ++ [ ObfuscatorIO.LogStringArray
              (Some (stringArray_originalName stringArray,
                     stringArray_length stringArray));
            ObfuscatorIO.LogRotate (present (findArrayRotator stringArray));
            ObfuscatorIO.LogDecoders
              (map ObfuscatorIO.decoder_originalName
                 (findDecoders stringArray)) ]
  /\ changes (ObfuscatorIO.state ctx)
     <= changes (ObfuscatorIO.state (before_removal sb stringArray ctx)).
Proof.
  subst before_removal. unfold ObfuscatorIO.before_removal.
  match goal with
  | |- context [ObfuscatorIO.apply ?t3
                  (fold_left ?f ?ds (ObfuscatorIO.apply ?t1 ?c0))] =>
      pose proof (framed_trans _ _ _
                    (framed_trans _ _ _ (apply_framed t1 c0)
                       (wrappers_framed ds (ObfuscatorIO.apply t1 c0)))
                    (apply_framed t3
                       (fold_left f ds (ObfuscatorIO.apply t1 c0)))) as H
  end.
  destruct H as (Hsb & Hlog & Hch).
  split; [rewrite Hsb; reflexivity|].
  split; [|exact Hch].
  rewrite Hlog. unfold ObfuscatorIO.log. simpl.
  rewrite <- !app_assoc. reflexivity.
Qed.

(** X25.  Whatever the context, a run keeps the sandbox, never lowers
    [state.changes], and only appends to the log: nothing without a
    sandbox, the single line [String Array: no] when no string array is
    found, and otherwise the three lines for the string array, the
    rotator and the decoders, in that order. *)
Theorem obfuscator_io_run_frame (ctx : context) :
  ObfuscatorIO.sandbox (run ctx) = ObfuscatorIO.sandbox ctx
  /\ changes (ObfuscatorIO.state ctx) <= changes (ObfuscatorIO.state (run ctx))
  /\ ObfuscatorIO.logged (run ctx)
     = ObfuscatorIO.logged ctx
       ++ match ObfuscatorIO.sandbox ctx,
                findStringArray (ObfuscatorIO.ast ctx) with
          | None, _ => []
          | Some _, None => [ObfuscatorIO.LogStringArray None]
          | Some _, Some stringArray =>
              [ ObfuscatorIO.LogStringArray
                  (Some (stringArray_originalName stringArray,
                         stringArray_length stringArray));
                ObfuscatorIO.LogRotate
                  (present (findArrayRotator stringArray));
                ObfuscatorIO.LogDecoders
                  (map ObfuscatorIO.decoder_originalName
                     (findDecoders stringArray)) ]
          end.
Proof.
  subst run. unfold ObfuscatorIO.run.
  destruct (ObfuscatorIO.sandbox ctx) as [sb|] eqn:Hsb.
  - destruct (findStringArray (ObfuscatorIO.ast ctx)) as [stringArray|].
    + destruct (before_removal_logged sb stringArray ctx) as (H1 & H2 & H3).
      fold before_removal.
      pose proof (framed_trans _ _ _
                    (removal_framed stringArray
                       (findArrayRotator stringArray)
                       (findDecoders stringArray)
                       (before_removal sb stringArray ctx))
                    (apply_framed cleanup _)) as (H4 & H5 & H6).
      rewrite H4, H5, H1, H2. split; [exact Hsb|]. split; [lia | reflexivity].
    + simpl. split; [exact Hsb|]. split; [lia | reflexivity].
  - rewrite Hsb, app_nil_r. split; [reflexivity|]. split; [lia | reflexivity].
Qed.

(** X26.  When [findDecoders] returns no decoder the removal block is
    skipped: neither the string array nor the rotator is removed, and the
    run is the cleanup pass applied to what the inlining steps left. *)
Theorem obfuscator_io_keeps_array_without_decoders (ctx : context)
    (sb : Sandbox) (stringArray : StringArray) :
  ObfuscatorIO.sandbox ctx = Some sb ->
  findStringArray (ObfuscatorIO.ast ctx) = Some stringArray ->
  findDecoders stringArray = [] ->
  (forall (rotator : option Path) (before : context),
      ObfuscatorIO.remove_infrastructure stringArray_path remove stringArray
        rotator (findDecoders stringArray) before = before)
  /\ run ctx
     = ObfuscatorIO.apply cleanup
         (ObfuscatorIO.apply
            (inlineDecodedStrings sb stringArray []
               (findArrayRotator stringArray))
            (ObfuscatorIO.apply inlineObjectProps
               (ObfuscatorIO.log (ObfuscatorIO.LogDecoders [])
                  (ObfuscatorIO.log
                     (ObfuscatorIO.LogRotate
                        (present (findArrayRotator stringArray)))
                     (ObfuscatorIO.log
                        (ObfuscatorIO.LogStringArray
                           (Some (stringArray_originalName stringArray,
                                  stringArray_length stringArray)))
                        ctx))))).
Proof.
  intros Hsb Hsa Hdec. split.
  - intros rotator before. unfold ObfuscatorIO.remove_infrastructure.
    rewrite Hdec. reflexivity.
  - subst run. unfold ObfuscatorIO.run, ObfuscatorIO.before_removal,
      ObfuscatorIO.remove_infrastructure.
    rewrite Hsb, Hsa, Hdec. reflexivity.
Qed.

End ObfuscatorIOFrame.

Lemma obfuscator_io_keeps_array_without_decoders_witness :
  ObfuscatorIO.ast
    (ObfuscatorIO.toy_run
       (ObfuscatorIO.toy_context ["arr"; "rot"; "main"] (Some tt)))
  = ["arr"; "rot"; "main"].
Proof.
  unfold ObfuscatorIO.toy_run.
  rewrite (proj2 (obfuscator_io_keeps_array_without_decoders
                    ObfuscatorIO.toy_name ObfuscatorIO.toy_name (fun _ => 0)
                    ObfuscatorIO.toy_find ObfuscatorIO.toy_rotator _
                    ObfuscatorIO.toy_identity
                    (fun _ => ObfuscatorIO.toy_identity)
                    (fun _ _ _ _ => ObfuscatorIO.toy_identity)
                    ObfuscatorIO.toy_identity ObfuscatorIO.toy_remove
                    (ObfuscatorIO.toy_context ["arr"; "rot"; "main"] (Some tt))
                    tt
                    {| ObfuscatorIO.toy_name := "arr";
                       ObfuscatorIO.toy_rotator := Some "rot";
                       ObfuscatorIO.toy_decoders := [] |}
                    eq_refl eq_refl eq_refl)).
  reflexivity.
Defined.

(** ** More on the runner *)

Section RunnerMore.

Context {File Sandbox Transform : Type}.
Variable applyTransforms : list Transform -> File -> File * nat.

(** X27.  Target selection by the options.  An id other than ['auto']
    that is registered selects that target, whatever [detect] would say
    and whatever the threshold.  The id ['auto'] is never looked up: it
    means auto mode even when a target is registered under that id.
    With [target: false] nothing is selected and the run returns the
    tree as it was with zero changes. *)
Theorem resolveTarget_by_option
    (r : Runner.DeobfuscatorRegistry File Sandbox Transform) (ast : File)
    (options : Runner.DeobfuscateRunnerOptions Sandbox) :
  (forall id t,
      Runner.target options = Some (Runner.TargetString id) ->
      id <> "auto" ->
      Runner.get r id = Some t ->
      Runner.resolveTarget r ast options = inr (Some t))
  /\ (Runner.target options = Some (Runner.TargetString "auto") ->
      Runner.resolveTarget r ast options
      = Runner.resolveTarget r ast
          {| Runner.target := None;
             Runner.threshold := Runner.threshold options;
             Runner.sandbox := Runner.sandbox options |})
  /\ (Runner.target options = Some (Runner.TargetBool false) ->
      Runner.runDeobfuscation applyTransforms r ast options
      = inr (ast, {| changes := 0 |})).
Proof.
  split; [|split].
  - intros id t Htarget Hne Hget. unfold Runner.resolveTarget.
    rewrite Htarget. simpl.
    destruct (String.eqb_spec id "auto"); [contradiction|]. simpl.
    rewrite Hget. reflexivity.
  - intros Htarget. unfold Runner.resolveTarget. rewrite Htarget. reflexivity.
  - intros Htarget. unfold Runner.runDeobfuscation, Runner.resolveTarget.
    rewrite Htarget. reflexivity.
Qed.

End RunnerMore.

Lemma resolveTarget_by_option_witness :
  Runner.resolveTarget Targets.toy_registry Targets.toy_program
    (Targets.toy_options (Some (Runner.TargetString "obfuscator.io")) None)
  = inr (Some Targets.toy_obfuscatorIO)
  /\ Runner.runDeobfuscation (fun _ t => (t, 0)) Targets.toy_registry
       Targets.toy_program
       (Targets.toy_options (Some (Runner.TargetBool false)) (Some tt))
     = inr (Targets.toy_program, {| changes := 0 |}).
Proof.
  split.
  - apply (proj1 (resolveTarget_by_option (fun _ t => (t, 0))
                    Targets.toy_registry Targets.toy_program
                    (Targets.toy_options
                       (Some (Runner.TargetString "obfuscator.io")) None))
             "obfuscator.io" Targets.toy_obfuscatorIO).
    + reflexivity.
    + discriminate.
    + reflexivity.
  - apply (proj2 (proj2 (resolveTarget_by_option (fun _ t => (t, 0))
                           Targets.toy_registry Targets.toy_program
                           (Targets.toy_options
                              (Some (Runner.TargetBool false)) (Some tt))))).
    reflexivity.
Defined.

Section LogFormat.

Context {value : Type}.
Variable String_ : option value -> string.

Let replace := RunnerLog.replace String_.

(** No [%] in a string. *)
Let percent_free (s : string) : bool :=
  Abba.all_chars (fun a => negb (Ascii.eqb a "%"%char)) s.

Lemma replace_percent_free (message : string) (args : list value) :
  percent_free message = true -> replace message args = message.
Proof.
  revert args.
  induction message as [|a rest IH]; intros args H; [reflexivity|].
  cbn in H. apply andb_prop in H. destruct H as [Ha Hrest].
  cbn [replace RunnerLog.replace].
  destruct rest as [|b rest']; [reflexivity|].
  apply negb_true_iff in Ha. rewrite Ha. cbn [andb].
  f_equal. apply IH. exact Hrest.
Qed.

Lemma replace_prefix (before rest : string) (args : list value) :
  percent_free before = true ->
  rest <> "" ->
  replace (before ++ rest) args = (before ++ replace rest args)%string.
Proof.
  intros Hfree Hrest.
  induction before as [|a before IH]; [reflexivity|].
  cbn in Hfree. apply andb_prop in Hfree. destruct Hfree as [Ha Hfree].
  specialize (IH Hfree).
  change (String a before ++ rest)%string with (String a (before ++ rest)).
  cbn [replace RunnerLog.replace].
  destruct (before ++ rest)%string as [|b tail] eqn:E.
  - destruct before; [simpl in E; contradiction | discriminate].
  - apply negb_true_iff in Ha. rewrite Ha. cbn [andb].
    change (String a before ++ replace rest args)%string
      with (String a (before ++ replace rest args)).
    f_equal. exact IH.
Qed.

(** X28.  Formatting of a log message for [onLog].  Without arguments
    the message is passed as it is, placeholders included; a message
    without [%] is passed as it is whatever the arguments.  Otherwise the
    text before the first placeholder is kept, the placeholder, [%%]
    included, is replaced by [String] of the first argument, and the rest
    is formatted with the remaining arguments; a placeholder that finds
    no argument left prints [String(undefined)]. *)
Theorem log_message_formatting (message : string) (args : list value) :
  RunnerLog.formattedMessage String_ message [] = message
  /\ (percent_free message = true ->
      RunnerLog.formattedMessage String_ message args = message)
  /\ (forall before rest placeholder,
        percent_free before = true ->
        RunnerLog.is_placeholder placeholder = true ->
        message = (before ++ String "%" (String placeholder rest))%string ->
        args <> [] ->
        RunnerLog.formattedMessage String_ message args
        = (before ++ String_ (head args) ++ replace rest (tail args))%string)
  /\ (forall rest placeholder,
        RunnerLog.is_placeholder placeholder = true ->
        replace (String "%" (String placeholder rest)) []
        = (String_ None ++ replace rest [])%string).
Proof.
  split; [reflexivity|]. split; [|split].
  - intros Hfree. unfold RunnerLog.formattedMessage.
    destruct (0 <? length args); [|reflexivity].
    apply replace_percent_free. exact Hfree.
  - intros before rest placeholder Hfree Hp -> Hargs.
    unfold RunnerLog.formattedMessage.
    destruct args as [|x args]; [contradiction|]. cbn [length Nat.ltb Nat.leb].
    fold replace. rewrite replace_prefix by (assumption || discriminate).
    f_equal. cbn [replace RunnerLog.replace]. rewrite Hp. reflexivity.
  - intros rest placeholder Hp. cbn [replace RunnerLog.replace].
    rewrite Hp. reflexivity.
Qed.

End LogFormat.

Lemma log_message_formatting_witness :
  RunnerLog.formattedMessage RunnerLog.String_of_string
    "found %s of %d" ["abc"; "3"]
  = "found abc of 3".
Proof.
  rewrite (proj1 (proj2 (proj2 (log_message_formatting
             RunnerLog.String_of_string "found %s of %d" ["abc"; "3"])))
             "found " " of %d" "s"%char eq_refl eq_refl eq_refl).
  - reflexivity.
  - discriminate.
Defined.

(** ** More on the string-array extractor *)

(** X29.  The extractor handler is all or nothing: on any node, in any
    state of the host, it either leaves the node and the counter as they
    were, or replaces the initializer of the declarator by an array
    expression of string literals without formatting hint, one for each
    item the evaluation returned, and counts one change.  A declarator it
    has replaced is settled: run on it again, in whatever state of the
    host, the handler evaluates nothing and changes nothing.  (A
    declarator it has left alone is evaluated again by the next run, and
    may then be replaced.) *)
Theorem extractor_handler_settles {value Host : Type}
    (undefined : value) (asArray : value -> option (list value))
    (String_ : value -> option string) (generate : node -> string)
    (createSandbox : gmap string value)
    (executeInSandbox :
       string -> gmap string value -> Host -> Extractor.outcome value * Host)
    (n : node) (c : nat) (h : Host) :
  let visit :=
    Extractor.visit_VariableDeclarator undefined asArray String_ generate
      createSandbox executeInSandbox in
  (exists h', visit n c h = (n, c, h'))
  \/ exists varName callee arguments result items strings h',
       n = VariableDeclarator (Identifier varName)
             (CallExpression callee arguments)
       /\ executeInSandbox (generate (CallExpression callee arguments))
            (Extractor.sandbox_for undefined createSandbox varName) h
          = (Extractor.Returned result, h')
       /\ asArray result = Some items
       /\ mapM String_ items = Some strings
       /\ visit n c h
          = (VariableDeclarator (Identifier varName)
               (ArrayExpression
                  (map (fun s => StringLiteral s false) strings)),
             S c, h')
       /\ forall c' h'',
            visit
              (VariableDeclarator (Identifier varName)
                 (ArrayExpression
                    (map (fun s => StringLiteral s false) strings)))
              c' h''
            = (VariableDeclarator (Identifier varName)
                 (ArrayExpression
                    (map (fun s => StringLiteral s false) strings)),
               c', h'').
Proof.
  intros visit. subst visit.
  unfold Extractor.visit_VariableDeclarator at 1 2, Extractor.staticArray.
  repeat match goal with
         | |- (exists h', match ?x with _ => _ end = _) \/ _ =>
             destruct x eqn:?; try (left; eexists; reflexivity)
         | |- (exists h', (if ?x then _ else _) = _) \/ _ =>
             destruct x eqn:?; try (left; eexists; reflexivity)
         end.
  match goal with
  | H : match mapM String_ ?items with _ => _ end = Some _ |- _ =>
      destruct (mapM String_ items) as [strings|] eqn:Estr;
      [injection H as <-|discriminate H]
  end.
  right. do 7 eexists.
  split; [reflexivity|]. split; [eassumption|]. split; [eassumption|].
  split; [eassumption|]. split; [reflexivity|].
  intros c' h''. reflexivity.
Qed.

(** ** The cleanup of empty statements *)

(** No empty statement at or below a node. *)
Lemma no_empty_node (k : kind) (cs : list node) :
  (forall d, In d (Node k cs :: descendants (Node k cs)) ->
     type_of d <> KEmptyStatement)
  <-> k <> KEmptyStatement
      /\ Forall (fun c => forall d, In d (c :: descendants c) ->
                            type_of d <> KEmptyStatement) cs.
Proof.
  rewrite descendants_children. split.
  - intros H. split; [exact (H _ (or_introl eq_refl))|].
    apply Forall_forall. intros c Hc d Hd. apply H. right.
    apply in_flat_map. exists c. split; [apply list_elem_of_In|]; assumption.
  - intros [Hk Hcs] d [<-|Hd]; [exact Hk|].
    apply in_flat_map in Hd. destruct Hd as (c & Hc & Hd).
    rewrite Forall_forall in Hcs. apply (Hcs c); [|exact Hd].
    apply list_elem_of_In. exact Hc.
Qed.

Section EmptyStatements.

Let no_empty (n : node) : Prop :=
  forall d, In d (n :: descendants n) -> type_of d <> KEmptyStatement.

Let no_empty_option (o : option node) : Prop :=
  match o with
  | Some n => no_empty n
  | None => True
  end.

Lemma no_empty_intro (k : kind) (cs : list node) :
  k <> KEmptyStatement /\ Forall no_empty cs -> no_empty (Node k cs).
Proof. exact (proj2 (no_empty_node k cs)). Qed.

Lemma no_empty_leaf (k : kind) : k <> KEmptyStatement -> no_empty (Node k []).
Proof.
  intros Hk. apply no_empty_intro. split; [exact Hk | apply Forall_nil; exact I].
Qed.

Lemma fill_no_empty (cs : list (option node)) :
  Forall no_empty_option cs ->
  forall slots, Forall no_empty (Traverse.fill slots cs).
Proof.
  induction 1 as [|c cs Hc Hcs IH]; intros slots; simpl;
    [apply Forall_nil; exact I|].
  destruct c as [c|].
  - apply Forall_cons; split; [exact Hc | apply IH].
  - destruct (0 <? slots); [|apply IH].
    apply Forall_cons; split; [|apply IH].
    apply no_empty_leaf. discriminate.
Qed.

Lemma rebuild_no_empty (k : kind) (cs : list (option node)) :
  k <> KEmptyStatement ->
  Forall no_empty_option cs ->
  match Traverse.rebuild k cs with
  | Traverse.Gone => True
  | Traverse.Became n | Traverse.Built n => no_empty n
  end.
Proof.
  intros Hk Hcs.
  assert (Hdefault : no_empty (Node k (Traverse.fill (Traverse.fixed_slots k) cs))).
  { apply no_empty_intro. split; [exact Hk | apply fill_no_empty; exact Hcs]. }
  assert (Hblock : no_empty (BlockStatement [])).
  { apply no_empty_leaf. discriminate. }
  unfold Traverse.rebuild.
  destruct k; try exact Hdefault.
  - (* arrow function *)
    destruct cs as [|[c|] [|? ?]]; try exact Hdefault.
    apply no_empty_intro. split; [discriminate|].
    apply Forall_cons; split; [exact Hblock | apply Forall_nil; exact I].
  - (* binary expression *)
    destruct cs as [|[lhs|] [|[rhs|] [|? ?]]]; try exact Hdefault; try exact I.
    + apply Forall_cons in Hcs. destruct Hcs as [Hl _]. exact Hl.
    + apply Forall_cons in Hcs. destruct Hcs as [_ Hcs].
      apply Forall_cons in Hcs. destruct Hcs as [Hr _]. exact Hr.
  - (* expression statement *)
    destruct cs as [|[c|] [|? ?]]; try exact Hdefault; exact I.
  - (* variable declaration *)
    destruct cs as [|[c|] rest]; try exact Hdefault.
    destruct (forallb _ rest); [exact I|].
    apply no_empty_intro. split; [discriminate|].
    apply fill_no_empty. exact Hcs.
  - (* while statement *)
    destruct cs as [|[test|] [|[body|] [|? ?]]]; try exact Hdefault;
      try exact I.
    apply Forall_cons in Hcs. destruct Hcs as [Ht _].
    apply no_empty_intro. split; [discriminate|].
    apply Forall_cons; split; [exact Ht|].
    apply Forall_cons; split; [exact Hblock | apply Forall_nil; exact I].
Qed.

Lemma walk_children_no_empty
    (visit : nat -> node -> nat -> option node * nat) (l : list node) :
  Forall (fun c => forall i s, no_empty_option (visit i c s).1) l ->
  forall i s,
    Forall no_empty_option
      (Traverse.walk_children visit Traverse.no_fresh i l s).1.
Proof.
  induction 1 as [|c l Hc Hl IH]; intros i s; simpl;
    [apply Forall_nil; exact I|].
  specialize (Hc i s). destruct (visit i c s) as [c' s'].
  specialize (IH (S i) s').
  destruct (Traverse.walk_children visit Traverse.no_fresh (S i) l s')
    as [r s''].
  simpl in *. apply Forall_cons; split; assumption.
Qed.

Lemma traverse_no_empty (n : node) :
  forall loc outer c,
    no_empty_option
      (Traverse.traverse DeadCodeVisitor.enter_EmptyStatement Abba.no_exit
         loc outer n c).1.
Proof.
  induction n as [k cs IH] using node_ind'. intros loc outer c.
  cbn [Traverse.traverse]. unfold DeadCodeVisitor.enter_EmptyStatement.
  cbn [type_of].
  assert (Hcase : k = KEmptyStatement \/ k <> KEmptyStatement)
    by (destruct k; solve [left; reflexivity | right; discriminate]).
  destruct Hcase as [->|Hk]; [exact I|].
  assert (Henter :
    match k with
    | KEmptyStatement => (Traverse.Removed, S c)
    | _ => (Traverse.Continue, c)
    end = (Traverse.Continue, c)) by (destruct k; congruence).
  rewrite Henter.
  match goal with
  | |- context [Traverse.walk_children ?visit _ _ _ _] =>
      pose proof (walk_children_no_empty visit cs) as Hwalk
  end.
  match type of Hwalk with
  | ?P -> _ => assert (Hvisit : P)
  end.
  { eapply Forall_impl; [exact IH|]. intros child Hchild i s. apply Hchild. }
  specialize (Hwalk Hvisit 0 c).
  destruct (Traverse.walk_children _ Traverse.no_fresh 0 cs c) as [cs' c'].
  simpl in Hwalk. unfold Traverse.leave.
  pose proof (rebuild_no_empty k cs' Hk Hwalk) as Hrebuild.
  destruct (Traverse.rebuild k cs') as [|n'|n']; simpl; assumption.
Qed.

(** X30.  The [EmptyStatement] handler on a whole program: after the
    traversal no empty statement is left anywhere in the tree, whatever
    the removals do to the nodes around them; and a tree without empty
    statement is returned as it is, with the counter where it was. *)
Theorem empty_statements_are_all_removed (ast : node) (c : nat) :
  (forall d,
      In d ((DeadCodeVisitor.removeEmptyStatements ast c).1
            :: descendants (DeadCodeVisitor.removeEmptyStatements ast c).1) ->
      type_of d <> KEmptyStatement)
  /\ ((forall d, In d (ast :: descendants ast) ->
         type_of d <> KEmptyStatement) ->
      DeadCodeVisitor.removeEmptyStatements ast c = (ast, c)).
Proof.
  unfold DeadCodeVisitor.removeEmptyStatements, Traverse.traverse_program.
  split.
  - pose proof (traverse_no_empty ast [] [] c) as H.
    destruct (Traverse.traverse _ _ [] [] ast c) as [[ast'|] c']; simpl in *.
    + exact H.
    + intros d [<-|[]]. discriminate.
  - intros Hnone. rewrite traverse_inert; [reflexivity|].
    intros d Hd ctx. specialize (Hnone d Hd). split; [|reflexivity].
    unfold DeadCodeVisitor.enter_EmptyStatement.
    destruct (type_of d); congruence.
Qed.

End EmptyStatements.
